(** * PyCG: call-graph accumulator, import manager and analysis driver

    A shallow embedding of [pycg/machinery/callgraph.py],
    [pycg/machinery/imports.py] and [pycg/pycg.py].

    Python objects that the code mutates in place (the three dictionaries
    of [CallGraph], the import graph, [sys.path_hooks], ...) are threaded
    explicitly: every method takes the object's state and gives back an
    [outcome], which is either a normal return with the new state or a
    raised exception, also with the state as the method left it. *)

From Stdlib Require Import ZArith String Ascii List Bool Lia.
From stdpp Require Import base gmap strings list fin_maps.

Set Warnings "-clear-no-such-hyp".

Local Open Scope string_scope.
Local Open Scope Z_scope.
Local Open Scope list_scope.

(** ** Python values, exceptions and outcomes *)

(** Node names reach [add_node] and [create_node] untyped; the code tests
    them with [isinstance(name, str)] and for truthiness. *)
Inductive pyval : Type :=
  | PyNone
  | PyStr (s : string)
  | PyInt (z : Z).

Definition isinstance_str (v : pyval) : bool :=
  match v with PyStr _ => true | _ => false end.

(** Truthiness of a string: only the empty string is falsy. *)
Definition str_truthy (s : string) : bool :=
  match s with EmptyString => false | String _ _ => true end.

Definition truthy (v : pyval) : bool :=
  match v with
  | PyNone => false
  | PyStr s => str_truthy s
  | PyInt z => negb (z =? 0)
  end.

Inductive exn : Type :=
  | CallGraphError (msg : string)
  | ImportManagerError (msg : string)
  | ImportError (msg : string)
  | KeyError (key : string)
  | AttributeError (msg : string)
  | TypeError (msg : string)
  | Exception (msg : string)
  | ForeignError (msg : string).

Inductive outcome (S A : Type) : Type :=
  | Returns (a : A) (s : S)
  | Raises (e : exn) (s : S).
Arguments Returns {S A} a s.
Arguments Raises {S A} e s.

(** A method is a function from the object's state to an outcome. *)
Definition method (S A : Type) : Type := S -> outcome S A.

Definition ret {S A} (a : A) : method S A := fun s => Returns a s.

Definition raise {S A} (e : exn) : method S A := fun s => Raises e s.

Definition bind {S A B} (m : method S A) (k : A -> method S B) : method S B :=
  fun s =>
    match m s with
    | Returns a s' => k a s'
    | Raises e s' => Raises e s'
    end.

Notation "x <- m ;; k" := (bind m (fun x => k))
  (at level 20, m at level 99, k at level 200, only parsing).
Notation "m ;;; k" := (bind m (fun _ => k))
  (at level 100, k at level 200, only parsing, right associativity).

Definition final_state {S A} (m : outcome S A) : S :=
  match m with Returns _ s => s | Raises _ s => s end.

(** ** pycg/machinery/callgraph.py *)

Module CallGraph.

(** One record of [cg_extended[src]['dsts']]. *)
Record edge : Type := Edge {
  dst : string;
  lineno : Z;
  mod_ : string;
  ext_mod : string
}.

(** One value of [cg_extended]: [{'dsts': [...], 'meta': {'modname': ...}}]. *)
Record ext_node : Type := ExtNode {
  dsts : list edge;
  meta_modname : string
}.

Record t : Type := Make {
  cg : gmap string (gset string);
  cg_extended : gmap string ext_node;
  modnames : gmap string string;
  ep : option string;
  ep_mod : option string;
  entrypoints : list (string * string)
}.

(** [CallGraph.__init__] *)
Definition init : t :=
  {| cg := ∅; cg_extended := ∅; modnames := ∅;
     ep := None; ep_mod := None; entrypoints := [] |}.

Definition with_cg (f : gmap string (gset string) -> gmap string (gset string)) (g : t) : t :=
  {| cg := f (cg g); cg_extended := cg_extended g; modnames := modnames g;
     ep := ep g; ep_mod := ep_mod g; entrypoints := entrypoints g |}.

Definition with_cg_extended (f : gmap string ext_node -> gmap string ext_node) (g : t) : t :=
  {| cg := cg g; cg_extended := f (cg_extended g); modnames := modnames g;
     ep := ep g; ep_mod := ep_mod g; entrypoints := entrypoints g |}.

Definition with_modnames (f : gmap string string -> gmap string string) (g : t) : t :=
  {| cg := cg g; cg_extended := cg_extended g; modnames := f (modnames g);
     ep := ep g; ep_mod := ep_mod g; entrypoints := entrypoints g |}.

(** The first [if] of [add_node]: bookkeeping for a name not yet in [cg]. *)
Definition create_entry (n modname : string) (g : t) : t :=
  if decide (n ∈ dom (cg g)) then g
  else with_modnames (insert n modname)
         (with_cg_extended (insert n {| dsts := []; meta_modname := modname |})
            (with_cg (insert n ∅) g)).

(** The [else] branch of the second statement of [add_node].  A
    dictionary subscript on a missing key raises [KeyError]. *)
Definition backfill_extended (n modname : string) : method t unit :=
  fun g =>
    match cg_extended g !! n with
    | None => Raises (KeyError n) g
    | Some e =>
        if negb (str_truthy (meta_modname e))
        then Returns tt
               (with_cg_extended
                  (insert n {| dsts := dsts e; meta_modname := modname |}) g)
        else Returns tt g
    end.

(** The second statement of [add_node]:
    [if name in self.cg and not self.modnames[name]: ... else: ...]. *)
Definition backfill (n modname : string) : method t unit :=
  fun g =>
    if decide (n ∈ dom (cg g)) then
      match modnames g !! n with
      | None => Raises (KeyError n) g
      | Some m =>
          if negb (str_truthy m)
          then Returns tt (with_modnames (insert n modname) g)
          else backfill_extended n modname g
      end
    else backfill_extended n modname g.

Definition add_node (name : pyval) (modname : string) : method t unit :=
  match name with
  | PyStr n =>
      if negb (str_truthy n) then raise (CallGraphError "Empty node name")
      else fun g => backfill n modname (create_entry n modname g)
  | _ => raise (CallGraphError "Only string node names allowed")
  end.

(** [self.cg[src].add(dest)] followed by the append to
    [self.cg_extended[src]['dsts']]. *)
Definition record_edge (s d : string) (ln : Z) (m em : string) : method t unit :=
  fun g =>
    match cg g !! s with
    | None => Raises (KeyError s) g
    | Some out =>
        let g1 := with_cg (insert s ({[ d ]} ∪ out)) g in
        match cg_extended g1 !! s with
        | None => Raises (KeyError s) g1
        | Some e =>
            Returns tt
              (with_cg_extended
                 (insert s {| dsts := dsts e ++ [Edge d ln m em];
                              meta_modname := meta_modname e |}) g1)
        end
    end.

(** Past the two [add_node] calls both names are strings, or one of the
    calls would have raised. *)
Definition add_edge (src dest : pyval) (ln : Z) (m em : string) : method t unit :=
  add_node src m ;;;
  add_node dest "" ;;;
  match src, dest with
  | PyStr s, PyStr d => record_edge s d ln m em
  | _, _ => raise (CallGraphError "Only string node names allowed")
  end.

Definition add_entrypoint (e modname : string) : method t unit :=
  fun g =>
    Returns tt
      {| cg := cg g; cg_extended := cg_extended g; modnames := modnames g;
         ep := Some e; ep_mod := Some modname;
         entrypoints := entrypoints g ++ [(e, modname)] |}.

Definition get (g : t) := cg g.
Definition get_extended (g : t) := cg_extended g.
Definition get_modules (g : t) := modnames g.

(** Provenance log of a source and its adjacency set, as read through
    the accessors. *)
Definition log_of (s : string) (g : t) : list edge :=
  match get_extended g !! s with Some e => dsts e | None => [] end.

Definition adj_of (s : string) (g : t) : gset string :=
  match get g !! s with Some o => o | None => ∅ end.

(** The three dictionaries have the same keys: they are only ever
    extended together. *)
Definition wf (g : t) : Prop :=
  dom (modnames g) = dom (cg g) ∧ dom (cg_extended g) = dom (cg g).

Definition modname_of (n : string) (g : t) : option string :=
  get_modules g !! n.

Definition meta_of (n : string) (g : t) : option string :=
  meta_modname <$> (get_extended g !! n).

(** [get_edges]: one [[src, dst]] pair per source and member of its
    adjacency set.  The order of the pairs follows the iteration order of
    the dictionary and of the sets, which is not modelled: the list is
    given in the order of the keys of the finite map. *)
Definition get_edges (g : t) : list (list string) :=
  map_to_list (cg g) ≫= (fun so => (fun d => [so.1; d]) <$> elements so.2).

(** [add_node(n, m)] for each [m] of a list, in order. *)
Fixpoint add_node_each (n : string) (ms : list string) : method t unit :=
  match ms with
  | [] => ret tt
  | m :: rest => add_node (PyStr n) m ;;; add_node_each n rest
  end.

(** The first non-empty string of a list, or the empty string. *)
Fixpoint first_nonempty (ms : list string) : string :=
  match ms with
  | [] => EmptyString
  | m :: rest => if str_truthy m then m else first_nonempty rest
  end.

(** The graphs that calls of the three mutating methods build from the
    empty one; a call that raises leaves the graph it had reached. *)
Inductive built : t -> Prop :=
  | built_init : built init
  | built_add_node g name modname :
      built g -> built (final_state (add_node name modname g))
  | built_add_edge g src dest ln m em :
      built g -> built (final_state (add_edge src dest ln m em g))
  | built_add_entrypoint g e modname :
      built g -> built (final_state (add_entrypoint e modname g)).

(** The adjacency set of every source is the set of the destinations in
    its log. *)
Definition log_matches_adjacency (g : t) : Prop :=
  forall s, adj_of s g = list_to_set (dst <$> log_of s g).

(** Every destination of an edge is a node. *)
Definition edges_closed (g : t) : Prop :=
  forall s d, d ∈ adj_of s g -> d ∈ dom (get g).

(** [ep] and [ep_mod] are the last pair of [entrypoints], and unset as
    long as the list is empty. *)
Definition ep_is_last (g : t) : Prop :=
  match last (entrypoints g) with
  | None => ep g = None ∧ ep_mod g = None
  | Some em => ep g = Some em.1 ∧ ep_mod g = Some em.2
  end.

(** The registry entry of a name as a list: empty for an unknown name. *)
Definition prior_modname (n : string) (g : t) : list string :=
  match modname_of n g with Some p => [p] | None => [] end.

(** A name [add_node] accepts: a non-empty string. *)
Definition valid_name (v : pyval) : bool := isinstance_str v && truthy v.

End CallGraph.

(** ** Python string and list operations used by the import manager and the driver *)

Module Py.

(** [s.split(sep)] for a one-character separator: never an empty list. *)
Fixpoint split (sep : ascii) (s : string) : list string :=
  match s with
  | EmptyString => [EmptyString]
  | String c r =>
      if Ascii.eqb c sep then EmptyString :: split sep r
      else match split sep r with
           | h :: t => String c h :: t
           | [] => [String c EmptyString]
           end
  end.

(** [sep.join(l)] *)
Fixpoint join (sep : string) (l : list string) : string :=
  match l with
  | [] => EmptyString
  | x :: rest =>
      match rest with
      | [] => x
      | _ :: _ => String.append x (String.append sep (join sep rest))
      end
  end.

(** [l[:-n]]: since [-0] is [0], [l[:-0]] is the empty list. *)
Definition slice_to_neg {A} (n : nat) (l : list A) : list A :=
  match n with
  | O => []
  | S _ => take (length l - n)%nat l
  end.

(** ["." * n] *)
Fixpoint repeat_str (s : string) (n : nat) : string :=
  match n with
  | O => EmptyString
  | S k => String.append s (repeat_str s k)
  end.

(** [s.endswith(suffix)] *)
Fixpoint endswith (suffix s : string) : bool :=
  if String.eqb s suffix then true
  else match s with
       | EmptyString => false
       | String _ r => endswith suffix r
       end.

(** [sub in s] on strings: [sub] occurs somewhere in [s]. *)
Fixpoint contains (sub s : string) : bool :=
  if String.prefix sub s then true
  else match s with
       | EmptyString => false
       | String _ r => contains sub r
       end.

Definition dot : ascii := "."%char.

End Py.

(** ** pycg/machinery/imports.py *)

Module Imports.

(** What the code reads of a module object: its [__file__] attribute,
    which can be missing, [None] or a string. *)
Inductive file_attr : Type :=
  | NoFileAttr
  | FileNone
  | FileStr (path : string).

Record pymodule : Type := PyModule {
  module_name : string;
  module_file : file_attr
}.

(** Entries of [sys.path_hooks]: the hook [install_hooks] builds around
    the custom loader, or one that was there before. *)
Inductive hook : Type :=
  | CustomLoaderHook
  | SystemHook (id : nat).

#[global] Instance hook_eq_dec : EqDecision hook.
Proof. solve_decision. Defined.

(** The parts of the [sys] module the import manager reads and writes.
    [sys.path_hooks] and [sys.path] are [None] when [remove_hooks] has
    stored an unset [old_path_hooks] / [old_path] there. *)
Record sys_state : Type := Sys {
  path_hooks : option (list hook);
  path : option (list string);
  modules : gmap string (option pymodule);
  path_importer_cache : gset string;
  builtin_module_names : list string
}.

(** A value of [import_graph]: [{"filename": ..., "imports": set()}]. *)
Record node : Type := Node {
  filename : string;
  imports : gset string
}.

Record import_manager : Type := ImportManager {
  import_graph : gmap string node;
  current_module : string;
  input_file : string;
  mod_dir : option string;
  old_path_hooks : option (list hook);
  old_path : option (list string)
}.

(** The import manager together with the process-wide [sys] state. *)
Record world : Type := World {
  im : import_manager;
  sys : sys_state
}.

(** [ImportManager.__init__] *)
Definition init : import_manager :=
  {| import_graph := ∅; current_module := ""; input_file := "";
     mod_dir := None; old_path_hooks := None; old_path := None |}.

Definition with_im (f : import_manager -> import_manager) (w : world) : world :=
  {| im := f (im w); sys := sys w |}.

Definition with_sys (f : sys_state -> sys_state) (w : world) : world :=
  {| im := im w; sys := f (sys w) |}.

Definition set_import_graph (ig : gmap string node) (m : import_manager) : import_manager :=
  {| import_graph := ig; current_module := current_module m;
     input_file := input_file m; mod_dir := mod_dir m;
     old_path_hooks := old_path_hooks m; old_path := old_path m |}.

Definition set_modules (ms : gmap string (option pymodule)) (s : sys_state) : sys_state :=
  {| path_hooks := path_hooks s; path := path s; modules := ms;
     path_importer_cache := path_importer_cache s;
     builtin_module_names := builtin_module_names s |}.

(** What one call of [importlib.import_module] did, as the host reports
    it: the module table it left, the [CustomLoader]s the path hook
    constructed, in order, as [(fullname, path)], and the module it
    returned or the exception it raised. *)
Record import_outcome : Type := ImportOutcome {
  io_modules : gmap string (option pymodule);
  io_loads : list (string * string);
  io_result : exn + pymodule
}.

(** The functions of the Python library, and of [pycg.utils], that the
    code calls and that are not part of these files; and whether the
    submodule [importlib.abc] has been loaded in the process, which the
    [import importlib] of this file does not do by itself.  Loading
    [importlib.abc] loads [importlib.machinery] with it, so that the one
    flag answers for both attributes [install_hooks] reads. *)
Record host : Type := Host {
  abspath : string -> string;
  relpath : string -> option string -> string;
  dirname : string -> string;
  split_head : string -> string;
  to_mod_name : string -> string;
  import_module : sys_state -> string -> string -> import_outcome;
  importlib_abc_loaded : bool
}.

(** Modelled from the spec: [utils.join_ns], which is not among the
    source files; the name "joined directly under the package namespace
    (no dots stripped)", that is the two joined by a dot. *)
Definition join_ns (package name : string) : string :=
  Py.join "." [package; name].

Definition set_pkg (input_pkg : string) : method world unit :=
  fun w =>
    Returns tt
      (with_im (fun m =>
         {| import_graph := import_graph m; current_module := current_module m;
            input_file := input_file m; mod_dir := Some input_pkg;
            old_path_hooks := old_path_hooks m; old_path := old_path m |}) w).

Definition get_mod_dir (w : world) : option string := mod_dir (im w).

Definition get_node (name : string) (w : world) : option node :=
  import_graph (im w) !! name.

Definition create_node (name : pyval) : method world node :=
  fun w =>
    if negb (truthy name) || negb (isinstance_str name)
    then Raises (ImportManagerError "Invalid node name") w
    else match name with
         | PyStr n =>
             match get_node n w with
             | Some _ => Raises (ImportManagerError "Can't create a node a second time") w
             | None =>
                 let nd := {| filename := ""; imports := ∅ |} in
                 Returns nd (with_im (fun m => set_import_graph (<[n := nd]> (import_graph m)) m) w)
             end
         | _ => Raises (ImportManagerError "Invalid node name") w
         end.

Definition _get_module_path (w : world) : string := current_module (im w).

Definition create_edge (dest : pyval) : method world unit :=
  fun w =>
    if negb (truthy dest) || negb (isinstance_str dest)
    then Raises (ImportManagerError "Invalid node name") w
    else match dest with
         | PyStr d =>
             match get_node (_get_module_path w) w with
             | None => Raises (ImportManagerError "Can't add edge to a non existing node") w
             | Some nd =>
                 Returns tt
                   (with_im (fun m =>
                      set_import_graph
                        (<[_get_module_path w :=
                             {| filename := filename nd; imports := {[ d ]} ∪ imports nd |}]>
                           (import_graph m)) m) w)
             end
         | _ => Raises (ImportManagerError "Invalid node name") w
         end.

(** [sys.path_importer_cache.clear()], then every module named in the
    import graph is dropped from [sys.modules].
    ([importlib.invalidate_caches()] touches no state kept here.) *)
Definition _clear_caches : method world unit :=
  fun w =>
    Returns tt
      (with_sys (fun s =>
         {| path_hooks := path_hooks s; path := path s;
            modules := filter (fun kv => kv.1 ∉ dom (import_graph (im w))) (modules s);
            path_importer_cache := ∅;
            builtin_module_names := builtin_module_names s |}) w).

Definition set_current_mod (H : host) (name fname : string) : method world unit :=
  fun w =>
    Returns tt
      (with_im (fun m =>
         {| import_graph := import_graph m; current_module := name;
            input_file := abspath H fname; mod_dir := mod_dir m;
            old_path_hooks := old_path_hooks m; old_path := old_path m |}) w).

Definition get_filepath (modname : string) (w : world) : option string :=
  filename <$> (import_graph (im w) !! modname).

Definition set_filepath (H : host) (node_name : string) (fname : pyval) : method world unit :=
  fun w =>
    if negb (truthy fname) || negb (isinstance_str fname)
    then Raises (ImportManagerError "Invalid node name") w
    else match fname with
         | PyStr f =>
             match get_node node_name w with
             | None => Raises (ImportManagerError "Node does not exist") w
             | Some nd =>
                 Returns tt
                   (with_im (fun m =>
                      set_import_graph
                        (<[node_name :=
                             {| filename := abspath H f; imports := imports nd |}]>
                           (import_graph m)) m) w)
             end
         | _ => Raises (ImportManagerError "Invalid node name") w
         end.

Definition get_imports (modname : string) (w : world) : gset string :=
  match import_graph (im w) !! modname with
  | None => ∅
  | Some nd => imports nd
  end.

Definition _is_init_file (w : world) : bool :=
  Py.endswith "__init__.py" (input_file (im w)).

Definition _handle_import_level (name : string) (level : nat) : method world (string * string) :=
  fun w =>
    let package := Py.split Py.dot (_get_module_path w) in
    if (length package <? level)%nat
    then Raises (ImportError "Attempting import beyond top level package") w
    else
      let mod_name := String.append (Py.repeat_str "." level) name in
      let package :=
        if _is_init_file w && (1 <=? level)%nat then
          if negb (level =? 1)%nat
          then Py.slice_to_neg (level - 1) package
          else package
        else Py.slice_to_neg level package in
      Returns (mod_name, Py.join "." package) w.

(** [CustomLoader.__init__]: constructing the loader records the import. *)
Definition custom_loader_init (H : host) (fullname path : string) : method world unit :=
  fun w =>
    if negb (str_truthy (current_module (im w))) then Returns tt w
    else
      (create_edge (PyStr fullname) ;;;
       fun w1 =>
         match get_node fullname w1 with
         | Some _ => Returns tt w1
         | None =>
             (create_node (PyStr fullname) ;;;
              set_filepath H fullname (PyStr path)) w1
         end) w.

(** The loaders one [import_module] call constructs, in order; the first
    exception leaves the import. *)
Fixpoint run_loaders (H : host) (loads : list (string * string)) : method world unit :=
  match loads with
  | [] => ret tt
  | (fullname, path) :: rest =>
      custom_loader_init H fullname path ;;; run_loaders H rest
  end.

(** [importlib.import_module(mod_name, package=package)] *)
Definition importlib_import_module (H : host) (mod_name package : string)
  : method world pymodule :=
  fun w =>
    let o := import_module H (sys w) mod_name package in
    (run_loaders H (io_loads o) ;;;
     match io_result o with
     | inl e => raise e
     | inr m => ret m
     end) (with_sys (set_modules (io_modules o)) w).

(** The result is [None] when [sys.modules] holds [None] for the name. *)
Definition _do_import (H : host) (mod_name package : string)
  : method world (option pymodule) :=
  fun w =>
    match modules (sys w) !! mod_name with
    | Some m => (create_edge (PyStr mod_name) ;;; ret m) w
    | None => (m <- importlib_import_module H mod_name package ;; ret (Some m)) w
    end.

(** The four [(name, package)] pairs [handle_import] tries. *)
Definition combos (name mod_name package : string) : list (string * string) :=
  let parent := Py.join "." (Py.slice_to_neg 1 (Py.split Py.dot mod_name)) in
  let parent_name := Py.join "." (Py.slice_to_neg 1 (Py.split Py.dot name)) in
  [ (mod_name, package);
    (parent, package);
    (join_ns package name, "");
    (join_ns package parent_name, "") ].

(** One turn of the [for mn, pkg in combos] loop as it went: the pair
    tried and whether [_do_import] returned. *)
Definition attempt : Type := (string * string) * bool.

(** The loop over [combos]: [mod] stays [None] until a [_do_import]
    returns, which ends the loop; any exception moves on to the next
    pair.  The state changes of failed attempts stay.  Besides [mod] the
    function gives the attempts made, in order. *)
Fixpoint try_combos (H : host) (cs : list (string * string)) (w : world)
  : option pymodule * list attempt * world :=
  match cs with
  | [] => (None, [], w)
  | (mn, pkg) :: rest =>
      match _do_import H mn pkg w with
      | Returns m w' => (m, [((mn, pkg), true)], w')
      | Raises _ w' =>
          let '(m, log, w'') := try_combos H rest w' in
          (m, ((mn, pkg), false) :: log, w'')
      end
  end.

(** The same loop as a relation: [replays H w cs log m w'] when running
    the pairs [cs] from [w] makes the attempts [log], ends with [mod]
    equal to [m] and leaves [w']. *)
Inductive replays (H : host) :
  world -> list (string * string) -> list attempt -> option pymodule -> world -> Prop :=
  | replays_exhausted w :
      replays H w [] [] None w
  | replays_success w mn pkg rest m w' :
      _do_import H mn pkg w = Returns m w' ->
      replays H w ((mn, pkg) :: rest) [((mn, pkg), true)] m w'
  | replays_failure w mn pkg rest e w1 log m w' :
      _do_import H mn pkg w = Raises e w1 ->
      replays H w1 rest log m w' ->
      replays H w ((mn, pkg) :: rest) (((mn, pkg), false) :: log) m w'.

(** An attempt that raised. *)
Definition failed (c : string * string) : attempt := (c, false).

(** [grows w w']: going from [w] to [w'] kept the module under analysis
    and the package root, and kept every import edge. *)
Definition grows (w w' : world) : Prop :=
  current_module (im w') = current_module (im w) ∧
  mod_dir (im w') = mod_dir (im w) ∧
  ∀ k, get_imports k w ⊆ get_imports k w'.

(** Going from [w] to [w'] removed no node of the import graph. *)
Definition nodes_kept (w w' : world) : Prop :=
  dom (import_graph (im w)) ⊆ dom (import_graph (im w')).

(** [".".join(s.split(".")[:-1])] *)
Definition parent_of (s : string) : string :=
  Py.join "." (Py.slice_to_neg 1 (Py.split Py.dot s)).

(** [not hasattr(mod, "__file__") or not mod.__file__] *)
Definition lacks_file (m : pymodule) : bool :=
  match module_file m with
  | NoFileAttr => true
  | FileNone => true
  | FileStr p => negb (str_truthy p)
  end.

(** [self.mod_dir != None and mod.__file__ != None and
     self.mod_dir not in mod.__file__] *)
Definition outside_mod_dir (w : world) (m : pymodule) : bool :=
  match mod_dir (im w), module_file m with
  | Some d, FileStr p => negb (Py.contains d p)
  | _, _ => false
  end.

(** What [importlib.import_module] does before it looks for anything, as
    the library documents it: given no package, a name that starts with a
    dot is refused with a [TypeError] and the empty name with a
    [ValueError]; nothing was loaded and [sys.modules] is as it was. *)
Definition refused (s : sys_state) (o : import_outcome) : Prop :=
  io_modules o = modules s ∧ io_loads o = [] ∧ ∃ e, io_result o = inl e.

Definition import_module_checks_name (H : host) : Prop :=
  ∀ s mn, mn = EmptyString ∨ String.prefix "." mn = true →
          refused s (import_module H s mn "").

(** [handle_import], with the attempts of its loop next to its result. *)
Definition handle_import_traced (H : host) (name : string) (level : nat)
  : method world (option string * list attempt) :=
  fun w =>
    let root := hd EmptyString (Py.split Py.dot name) in
    if bool_decide (root ∈ builtin_module_names (sys w)) then
      (create_edge (PyStr root) ;;; ret (None, [])) w
    else
      match _handle_import_level name level w with
      | Raises (ImportError _) _ => Returns (None, []) w
      | Raises e w' => Raises e w'
      | Returns (mod_name, package) w0 =>
          let '(mod_, log, w1) := try_combos H (combos name mod_name package) w0 in
          match mod_ with
          | None => Returns (None, log) w1
          | Some m =>
              if lacks_file m then Returns (None, log) w1
              else if outside_mod_dir w1 m then Returns (None, log) w1
              else
                match module_file m with
                | FileStr fname =>
                    let fname :=
                      if Py.endswith "__init__.py" fname then split_head H fname
                      else fname in
                    Returns (Some (to_mod_name H (relpath H fname (mod_dir (im w1)))), log) w1
                | _ => Returns (None, log) w1
                end
          end
      end.

Definition handle_import (H : host) (name : string) (level : nat)
  : method world (option string) :=
  r <- handle_import_traced H name level ;; ret (fst r).

Definition get_import_graph (w : world) := import_graph (im w).

(** [install_hooks] starts with [get_custom_loader(self)], whose class
    statement evaluates [importlib.abc.SourceLoader]: with [importlib.abc]
    not loaded that is an [AttributeError], before anything is saved or
    inserted. *)
Definition install_hooks (H : host) : method world unit :=
  fun w =>
    if negb (importlib_abc_loaded H)
    then Raises (AttributeError "module 'importlib' has no attribute 'abc'") w
    else
    let w1 :=
      with_im (fun m =>
        {| import_graph := import_graph m; current_module := current_module m;
           input_file := input_file m; mod_dir := mod_dir m;
           old_path_hooks := path_hooks (sys w); old_path := path (sys w) |}) w in
    match path_hooks (sys w1) with
    | None => Raises (AttributeError "'NoneType' object has no attribute 'insert'") w1
    | Some hooks =>
        let w2 :=
          with_sys (fun s =>
            {| path_hooks := Some (CustomLoaderHook :: hooks); path := path s;
               modules := modules s; path_importer_cache := path_importer_cache s;
               builtin_module_names := builtin_module_names s |}) w1 in
        match path (sys w2), mod_dir (im w2) with
        | None, _ => Raises (AttributeError "'NoneType' object has no attribute 'insert'") w2
        | Some _, None => Raises (TypeError "expected str, bytes or os.PathLike object, not NoneType") w2
        | Some p, Some d =>
            _clear_caches
              (with_sys (fun s =>
                 {| path_hooks := path_hooks s; path := Some (abspath H d :: p);
                    modules := modules s; path_importer_cache := path_importer_cache s;
                    builtin_module_names := builtin_module_names s |}) w2)
        end
    end.

Definition remove_hooks : method world unit :=
  fun w =>
    _clear_caches
      (with_sys (fun s =>
         {| path_hooks := old_path_hooks (im w); path := old_path (im w);
            modules := modules s; path_importer_cache := path_importer_cache s;
            builtin_module_names := builtin_module_names s |}) w).

(** Going from [w] to [w'] left [sys.path_hooks], [sys.path] and the
    copies of them that [install_hooks] saved as they were. *)
Definition keeps_hooks (w w' : world) : Prop :=
  path_hooks (sys w') = path_hooks (sys w) ∧
  path (sys w') = path (sys w) ∧
  old_path_hooks (im w') = old_path_hooks (im w) ∧
  old_path (im w') = old_path (im w).

(** Whether the custom loader's hook is in [sys.path_hooks]. *)
Definition hooks_installed (w : world) : bool :=
  match path_hooks (sys w) with
  | Some hooks => bool_decide (CustomLoaderHook ∈ hooks)
  | None => false
  end.

(** Directory containment as the words "lies outside the root" have
    it: [path] is inside [root] when the components of [root] are the
    first components of [path]. *)
Fixpoint components_prefix (r p : list string) : bool :=
  match r, p with
  | [], _ => true
  | _ :: _, [] => false
  | x :: r', y :: p' => String.eqb x y && components_prefix r' p'
  end.

Definition path_inside_root (root path : string) : bool :=
  components_prefix (Py.split "/" root) (Py.split "/" path).

(** *** A small host and two worlds, for examples

    The package root is ["/app"]; the host finds a module ["ext"] at
    ["/usr/lib/app/ext.py"] and a module ["np"] at ["/usr/lib/np.py"],
    and nothing else. *)
Definition example_ext : pymodule :=
  {| module_name := "ext"; module_file := FileStr "/usr/lib/app/ext.py" |}.

Definition example_np : pymodule :=
  {| module_name := "np"; module_file := FileStr "/usr/lib/np.py" |}.

Definition example_host : host :=
  {| abspath := fun p => p;
     relpath := fun p _ => p;
     dirname := fun p => p;
     split_head := fun p => p;
     to_mod_name := fun p => p;
     importlib_abc_loaded := true;
     import_module := fun s mn pkg =>
       if String.eqb mn "ext" then
         {| io_modules := <["ext" := Some example_ext]> (modules s);
            io_loads := [("ext", "/usr/lib/app/ext.py")];
            io_result := inr example_ext |}
       else if String.eqb mn "np" then
         {| io_modules := <["np" := Some example_np]> (modules s);
            io_loads := [("np", "/usr/lib/np.py")];
            io_result := inr example_np |}
       else
         {| io_modules := modules s; io_loads := [];
            io_result := inl (ImportError "No module named") |} |}.

Definition example_sys : sys_state :=
  {| path_hooks := Some [CustomLoaderHook; SystemHook 0];
     path := Some ["/app"; "/usr/lib"];
     modules := ∅;
     path_importer_cache := ∅;
     builtin_module_names := ["sys"; "builtins"] |}.

(** Analysing the module ["main"] of ["/app/main.py"]. *)
Definition example_world : world :=
  {| im := {| import_graph := {[ "main" := {| filename := "/app/main.py"; imports := ∅ |} ]};
              current_module := "main"; input_file := "/app/main.py";
              mod_dir := Some "/app";
              old_path_hooks := Some [SystemHook 0]; old_path := Some ["/usr/lib"] |};
     sys := example_sys |}.

(** Analysing the module ["pkg.sub.mod"] of ["/app/pkg/sub/mod.py"]. *)
Definition example_world_sub : world :=
  {| im := {| import_graph :=
                {[ "pkg.sub.mod" := {| filename := "/app/pkg/sub/mod.py"; imports := ∅ |} ]};
              current_module := "pkg.sub.mod"; input_file := "/app/pkg/sub/mod.py";
              mod_dir := Some "/app";
              old_path_hooks := Some [SystemHook 0]; old_path := Some ["/usr/lib"] |};
     sys := example_sys |}.

(** A host that also finds the namespace package ["nspkg"], a directory
    without [__init__.py]: the import constructs no [CustomLoader] for
    it and its [__file__] is [None]. *)
Definition example_nspkg : pymodule :=
  {| module_name := "nspkg"; module_file := FileNone |}.

Definition example_host_ns : host :=
  {| abspath := abspath example_host;
     relpath := relpath example_host;
     dirname := dirname example_host;
     split_head := split_head example_host;
     to_mod_name := to_mod_name example_host;
     importlib_abc_loaded := true;
     import_module := fun s mn pkg =>
       if String.eqb mn "nspkg" then
         {| io_modules := <["nspkg" := Some example_nspkg]> (modules s);
            io_loads := [];
            io_result := inr example_nspkg |}
       else import_module example_host s mn pkg |}.

(** The same module under analysis, before it was made a node of the
    import graph. *)
Definition example_world_bare : world :=
  {| im := {| import_graph := ∅;
              current_module := "pkg.sub.mod"; input_file := "/app/pkg/sub/mod.py";
              mod_dir := Some "/app";
              old_path_hooks := Some [SystemHook 0]; old_path := Some ["/usr/lib"] |};
     sys := example_sys |}.

(** The same module as a node, with a module of the root stored in
    [sys.modules] under the relative name ["...x"]. *)
Definition example_x : pymodule :=
  {| module_name := "x"; module_file := FileStr "/app/x.py" |}.

Definition example_world_dots : world :=
  with_sys (set_modules {[ "...x"%string := Some example_x ]}) example_world_sub.

End Imports.


(** ** pycg/pycg.py *)

Module Driver.

#[global] Instance pyval_eq_dec : EqDecision pyval.
Proof. solve_decision. Defined.

#[global] Instance pyval_countable : Countable pyval.
Proof.
  refine (inj_countable'
    (fun v => match v with
              | PyNone => inl tt
              | PyStr s => inr (inl s)
              | PyInt z => inr (inr z)
              end)
    (fun x => match x with
              | inl _ => PyNone
              | inr (inl s) => PyStr s
              | inr (inr z) => PyInt z
              end) _).
  intros []; reflexivity.
Defined.

(** *** The fact stores, as far as the driver reads them *)

(** A [Definition]: its namespace and the values of its name pointer and
    of its literal pointer. *)
Record definition : Type := Def {
  get_ns : string;
  name_pointer : gset string;
  lit_pointer : gset pyval
}.

(** A scope: [get_defs()] maps the names bound in it to definitions. *)
Record scope : Type := Scope {
  scope_defs : gmap string definition;
  scope_counters : gmap string nat
}.

(** A class: [get_mro()] is its list of ancestors. *)
Record class_node : Type := ClassNode {
  get_mro : list string;
  get_module : string
}.

(** One value of [state["defs"]]. *)
Record def_state : Type := DefState {
  names : gset string;
  lit : gset pyval
}.

(** The dictionary [extract_state] builds. *)
Record snapshot : Type := Snapshot {
  st_defs : gmap string def_state;
  st_scopes : gmap string (gset string);
  st_classes : gmap string (list string)
}.

Inductive processor : Type :=
  | PreProcessor
  | PostProcessor
  | CallGraphProcessor
  | KeyErrProcessor.

(** What [do_pass] does with the hooks and the passes, in order. *)
Inductive event : Type :=
  | EvInstall
  | EvPass (cls : processor) (input_file input_mod : string)
  | EvRemove.

(** The two operations, as [__init__] names them. *)
Definition CALL_GRAPH_OP : string := "call-graph".
Definition KEY_ERR_OP : string := "key-error".

Section Generator.

(** The state of the module manager and of the key-error store: the
    driver hands them to the passes and never looks inside. *)
Variable Others : Type.

(** Everything the passes work on. *)
Record managers : Type := Managers {
  import_manager : Imports.world;
  scope_manager : gmap string scope;
  def_manager : gmap string definition;
  class_manager : gmap string class_node;
  cg : CallGraph.t;
  others : Others
}.

Record generator : Type := Generator {
  entry_points : list string;
  package : string;
  state : option snapshot;
  max_iter : Z;
  operation : string;
  mgrs : managers
}.

(** The collaborators that are not part of this file.  [run_pass] stands
    for constructing the processor on [(input_file, input_mod)] with the
    shared set [modules_analyzed], and calling its [analyze]: it gives the
    content of the shared set afterwards and the result of
    [get_modules_analyzed()]. *)
Record collaborators : Type := Collaborators {
  os : Imports.host;
  run_pass : processor -> string -> string -> gset string ->
             method managers (gset string * gset string);
  complete_definitions : method managers unit;
  scope_reset_counters : scope -> scope
}.

Variable C : collaborators.

Definition with_mgrs (f : managers -> managers) (g : generator) : generator :=
  {| entry_points := entry_points g; package := package g; state := state g;
     max_iter := max_iter g; operation := operation g; mgrs := f (mgrs g) |}.

Definition set_state (s : option snapshot) (g : generator) : generator :=
  {| entry_points := entry_points g; package := package g; state := s;
     max_iter := max_iter g; operation := operation g; mgrs := mgrs g |}.

Definition with_import_manager (f : Imports.world -> Imports.world) (m : managers) : managers :=
  {| import_manager := f (import_manager m); scope_manager := scope_manager m;
     def_manager := def_manager m; class_manager := class_manager m;
     cg := cg m; others := others m |}.

(** A method of one of the managers, run on the generator that owns it. *)
Definition on_mgrs {A} (m : method managers A) : method generator A :=
  fun g =>
    match m (mgrs g) with
    | Returns a ms => Returns a (with_mgrs (fun _ => ms) g)
    | Raises e ms => Raises e (with_mgrs (fun _ => ms) g)
    end.

Definition on_imports {A} (m : method Imports.world A) : method generator A :=
  on_mgrs (fun ms =>
    match m (import_manager ms) with
    | Returns a w => Returns a (with_import_manager (fun _ => w) ms)
    | Raises e w => Raises e (with_import_manager (fun _ => w) ms)
    end).

Definition extract_state (g : generator) : snapshot :=
  {| st_defs :=
       (fun defi => {| names := name_pointer defi; lit := lit_pointer defi |})
         <$> def_manager (mgrs g);
     st_scopes :=
       (fun sc => list_to_set (map (fun kx => get_ns kx.2) (map_to_list (scope_defs sc))))
         <$> scope_manager (mgrs g);
     st_classes := get_mro <$> class_manager (mgrs g) |}.

Definition reset_counters : method generator unit :=
  on_mgrs (fun ms =>
    Returns tt
      {| import_manager := import_manager ms;
         scope_manager := scope_reset_counters C <$> scope_manager ms;
         def_manager := def_manager ms; class_manager := class_manager ms;
         cg := cg ms; others := others ms |}).

(** The three loops of [has_converged], each over the items of the
    current snapshot, looking every key up in the earlier one. *)
Definition defs_agree (curr prev : gmap string def_state) : bool :=
  forallb (fun kd =>
             match prev !! kd.1 with
             | None => false
             | Some d' =>
                 bool_decide (names kd.2 = names d') && bool_decide (lit kd.2 = lit d')
             end)
          (map_to_list curr).

Definition scopes_agree (curr prev : gmap string (gset string)) : bool :=
  forallb (fun ks =>
             match prev !! ks.1 with
             | None => false
             | Some s' => bool_decide (ks.2 = s')
             end)
          (map_to_list curr).

Definition classes_agree (curr prev : gmap string (list string)) : bool :=
  forallb (fun kc =>
             match prev !! kc.1 with
             | None => false
             | Some c' => bool_decide (kc.2 = c')
             end)
          (map_to_list curr).

(** The comparison of [has_converged], on two snapshots. *)
Definition snapshots_agree (curr prev : snapshot) : bool :=
  defs_agree (st_defs curr) (st_defs prev) &&
  scopes_agree (st_scopes curr) (st_scopes prev) &&
  classes_agree (st_classes curr) (st_classes prev).

(** [self.state] is [None] or a dictionary with three keys, so
    [not self.state] holds only for [None]. *)
Definition has_converged (g : generator) : bool :=
  match state g with
  | None => false
  | Some prev => snapshots_agree (extract_state g) prev
  end.

Definition remove_import_hooks : method generator unit :=
  on_imports Imports.remove_hooks.

Definition tearDown : method generator unit := remove_import_hooks.

Definition _get_mod_name (entry pkg : string) : string :=
  let input_mod := Imports.to_mod_name (os C) (Imports.relpath (os C) entry (Some pkg)) in
  if Py.endswith "__init__" input_mod
  then Py.join "." (Py.slice_to_neg 1 (Py.split Py.dot input_mod))
  else input_mod.

(** The body of the [if not input_mod in modules_analyzed] of [do_pass],
    for one entry point: the events, and the shared set afterwards. *)
Definition analyse_entry (cls : processor) (install_hooks : bool)
    (input_pkg input_file input_mod : string) (modules_analyzed : gset string)
    (g : generator) : list event * outcome generator (gset string) :=
  let run g1 :=
    match on_mgrs (run_pass C cls input_file input_mod modules_analyzed) g1 with
    | Raises e g2 => Raises e g2
    | Returns (shared, analyzed) g2 => Returns (shared ∪ analyzed) g2
    end in
  if install_hooks then
    match (on_imports (Imports.set_pkg input_pkg) ;;;
           on_imports (Imports.install_hooks (os C))) g with
    | Raises e g1 => ([EvInstall], Raises e g1)
    | Returns _ g1 =>
        match run g1 with
        | Raises e g2 => ([EvInstall; EvPass cls input_file input_mod], Raises e g2)
        | Returns ma g2 =>
            ([EvInstall; EvPass cls input_file input_mod; EvRemove],
             (remove_import_hooks ;;; ret ma) g2)
        end
    end
  else ([EvPass cls input_file input_mod], run g).

(** The loop of [do_pass] over the entry points still to visit. *)
Fixpoint do_pass_from (cls : processor) (install_hooks : bool) (eps : list string)
    (modules_analyzed : gset string) (g : generator)
  : list event * outcome generator unit :=
  match eps with
  | [] => ([], Returns tt g)
  | entry_point :: rest =>
      let input_pkg := package g in
      let input_mod := _get_mod_name entry_point input_pkg in
      let input_file := Imports.abspath (os C) entry_point in
      if negb (str_truthy input_mod) then
        do_pass_from cls install_hooks rest modules_analyzed g
      else
        let input_pkg :=
          if negb (str_truthy input_pkg) then Imports.dirname (os C) input_file
          else input_pkg in
        if decide (input_mod ∈ modules_analyzed) then
          do_pass_from cls install_hooks rest modules_analyzed g
        else
          match analyse_entry cls install_hooks input_pkg input_file input_mod
                  modules_analyzed g with
          | (evs, Raises e g') => (evs, Raises e g')
          | (evs, Returns ma g') =>
              let '(evs', r) := do_pass_from cls install_hooks rest ma g' in
              (evs ++ evs', r)
          end
  end.

Definition do_pass_traced (cls : processor) (install_hooks : bool) (g : generator)
  : list event * outcome generator unit :=
  do_pass_from cls install_hooks (entry_points g) ∅ g.

Definition do_pass (cls : processor) (install_hooks : bool) : method generator unit :=
  fun g => (do_pass_traced cls install_hooks g).2.

(** The condition of the [while] of [analyze]. *)
Definition loop_guard (iter_cnt : Z) (g : generator) : bool :=
  ((max_iter g <? 0) || (iter_cnt <? max_iter g)) && negb (has_converged g).

(** The body of the [while], but for the increment of [iter_cnt]. *)
Definition loop_body : method generator unit :=
  (fun g => Returns tt (set_state (Some (extract_state g)) g)) ;;;
  reset_counters ;;;
  do_pass PostProcessor false ;;;
  on_mgrs (complete_definitions C).

(** The [while] of [analyze]; [None] when [fuel] turns of the loop were
    not enough to leave it.  The result is the final [iter_cnt]. *)
Fixpoint fixed_point (fuel : nat) (iter_cnt : Z) (g : generator)
  : option (outcome generator Z) :=
  if loop_guard iter_cnt g then
    match fuel with
    | O => None
    | S fuel' =>
        match loop_body g with
        | Raises e g' => Some (Raises e g')
        | Returns _ g' => fixed_point fuel' (iter_cnt + 1) g'
        end
    end
  else Some (Returns iter_cnt g).

(** Stage 1 of [analyze]: the preprocessing pass, with the hooks. *)
Definition stage1 : method generator unit :=
  do_pass PreProcessor true ;;;
  on_mgrs (complete_definitions C).

(** Stage 3 of [analyze]: everything after the [while]. *)
Definition stage3 : method generator unit :=
  reset_counters ;;;
  fun g =>
    if String.eqb (operation g) CALL_GRAPH_OP then do_pass CallGraphProcessor false g
    else if String.eqb (operation g) KEY_ERR_OP then do_pass KeyErrProcessor false g
    else Raises (Exception (String.append "Invalid operation: " (operation g))) g.

Definition analyze (fuel : nat) (g : generator) : option (outcome generator unit) :=
  match stage1 g with
  | Raises e g1 => Some (Raises e g1)
  | Returns _ g1 =>
      match fixed_point fuel 0 g1 with
      | None => None
      | Some (Raises e g2) => Some (Raises e g2)
      | Some (Returns _ g2) => Some (stage3 g2)
      end
  end.

(** [n] turns of the loop body in a row. *)
Fixpoint iterate_body (n : nat) : method generator unit :=
  match n with
  | O => ret tt
  | S k => loop_body ;;; iterate_body k
  end.

(** The passes work on the managers only: the run configuration stays. *)
Definition same_config (g g' : generator) : Prop :=
  entry_points g' = entry_points g ∧ package g' = package g ∧
  max_iter g' = max_iter g ∧ operation g' = operation g.

(** [sys.path_hooks] and [sys.path] are what [remove_hooks] put back. *)
Definition restored (w : Imports.world) : Prop :=
  Imports.path_hooks (Imports.sys w) = Imports.old_path_hooks (Imports.im w) ∧
  Imports.path (Imports.sys w) = Imports.old_path (Imports.im w).

(** The events of one entry point whose pass ran to its end with the
    hooks on. *)
Definition cycle (cls : processor) (fm : string * string) : list event :=
  [EvInstall; EvPass cls fm.1 fm.2; EvRemove].

End Generator.

Arguments Managers {Others}.
Arguments Generator {Others}.
Arguments Collaborators {Others}.
Arguments import_manager {Others}.
Arguments scope_manager {Others}.
Arguments def_manager {Others}.
Arguments class_manager {Others}.
Arguments cg {Others}.
Arguments others {Others}.
Arguments entry_points {Others}.
Arguments package {Others}.
Arguments state {Others}.
Arguments max_iter {Others}.
Arguments operation {Others}.
Arguments mgrs {Others}.
Arguments os {Others}.
Arguments run_pass {Others}.
Arguments complete_definitions {Others}.
Arguments scope_reset_counters {Others}.
Arguments with_mgrs {Others}.
Arguments set_state {Others}.
Arguments on_mgrs {Others A}.
Arguments on_imports {Others A}.
Arguments extract_state {Others}.
Arguments reset_counters {Others}.
Arguments has_converged {Others}.
Arguments remove_import_hooks {Others}.
Arguments _get_mod_name {Others}.
Arguments analyse_entry {Others}.
Arguments do_pass_from {Others}.
Arguments do_pass_traced {Others}.
Arguments do_pass {Others}.
Arguments loop_guard {Others}.
Arguments loop_body {Others}.
Arguments fixed_point {Others}.
Arguments stage1 {Others}.
Arguments stage3 {Others}.
Arguments analyze {Others}.
Arguments iterate_body {Others}.
Arguments same_config {Others}.

(** *** Generators for examples

    One entry point, ["/app/main.py"] under the root ["/app"], and no
    facts yet.  In [example_calm] every pass returns at once; in
    [example_failing] every pass raises. *)
Definition example_os : Imports.host :=
  {| Imports.abspath := fun p => p;
     Imports.relpath := fun p _ => "main.py"%string;
     Imports.dirname := fun p => "/app"%string;
     Imports.split_head := fun p => p;
     Imports.to_mod_name := fun p => "main"%string;
     Imports.import_module := Imports.import_module Imports.example_host;
     Imports.importlib_abc_loaded := true |}.

Definition example_calm : collaborators unit :=
  {| os := example_os;
     run_pass := fun _ _ input_mod shared ms => Returns (shared, {[ input_mod ]}) ms;
     complete_definitions := fun ms => Returns tt ms;
     scope_reset_counters := fun sc => sc |}.

Definition example_failing : collaborators unit :=
  {| os := example_os;
     run_pass := fun _ _ _ _ ms => Raises (ForeignError "SyntaxError") ms;
     complete_definitions := fun ms => Returns tt ms;
     scope_reset_counters := fun sc => sc |}.

Definition example_managers : managers unit :=
  {| import_manager :=
       {| Imports.im := Imports.init;
          Imports.sys :=
            {| Imports.path_hooks := Some [Imports.SystemHook 0];
               Imports.path := Some ["/usr/lib"%string];
               Imports.modules := ∅;
               Imports.path_importer_cache := ∅;
               Imports.builtin_module_names := ["sys"%string] |} |};
     scope_manager := ∅; def_manager := ∅; class_manager := ∅;
     cg := CallGraph.init; others := tt |}.

Definition example_generator : generator unit :=
  {| entry_points := ["/app/main.py"%string]; package := "/app";
     state := None; max_iter := 0; operation := CALL_GRAPH_OP;
     mgrs := example_managers |}.

(** The same with a cap of two turns. *)
Definition example_capped : generator unit :=
  {| entry_points := ["/app/main.py"%string]; package := "/app";
     state := None; max_iter := 2; operation := CALL_GRAPH_OP;
     mgrs := example_managers |}.

(** A generator whose earlier snapshot knows a definition ["f"] that the
    definition manager no longer has. *)
Definition example_shrunk : generator unit :=
  {| entry_points := ["/app/main.py"%string]; package := "/app";
     state := Some {| st_defs := {[ "f"%string := {| names := {[ "g"%string ]}; lit := ∅ |} ]};
                      st_scopes := ∅; st_classes := ∅ |};
     max_iter := -1; operation := CALL_GRAPH_OP;
     mgrs := example_managers |}.

(** The modules of the passes among some events, in order. *)
Definition analysed_modules (evs : list event) : list string :=
  omap (fun ev => match ev with EvPass _ _ m => Some m | _ => None end) evs.

(** The part of the analysis-pass contract the deduplication of [do_pass]
    rests on: what a pass leaves in the shared set together with what its
    [get_modules_analyzed()] returns contains the module it was run on
    and everything the shared set held before. *)
Definition reports_modules {Others} (C : collaborators Others) : Prop :=
  forall cls f m ma ms sh an ms',
    run_pass C cls f m ma ms = Returns (sh, an) ms' ->
    m ∈ sh ∪ an ∧ ma ⊆ sh ∪ an.


(** Resetting the counters of a scope keeps its definitions. *)
Definition reset_keeps_defs {Others} (C : collaborators Others) : Prop :=
  forall sc, scope_defs (scope_reset_counters C sc) = scope_defs sc.

(** [sys.path_hooks] and [sys.path], as the import manager of a generator
    finds them. *)
Definition hooks_of {Others} (g : generator Others) : option (list Imports.hook) :=
  Imports.path_hooks (Imports.sys (import_manager (mgrs g))).

Definition sys_path_of {Others} (g : generator Others) : option (list string) :=
  Imports.path (Imports.sys (import_manager (mgrs g))).

(** The passes do not install or remove hooks themselves: whatever a
    pass does, and however it ends, [sys.path_hooks], [sys.path] and the
    copies of them that [install_hooks] saved are as before it. *)
Definition passes_keep_hooks {Others} (C : collaborators Others) : Prop :=
  ∀ cls input_file input_mod modules_analyzed ms,
    Imports.keeps_hooks (import_manager ms)
      (import_manager (final_state (run_pass C cls input_file input_mod modules_analyzed ms))).

(** A pass that does to the import manager what the visit of a module
    with one [import np] does: the module becomes a node and the module
    under analysis, and the import is resolved. *)
Definition example_importing : collaborators unit :=
  {| os := example_os;
     run_pass := fun _ input_file input_mod shared ms =>
       match (Imports.create_node (PyStr input_mod) ;;;
              Imports.set_current_mod example_os input_mod input_file ;;;
              Imports.handle_import Imports.example_host "np" 0) (import_manager ms) with
       | Returns _ w =>
           Returns (shared, {[ input_mod ]}) (with_import_manager unit (fun _ => w) ms)
       | Raises e w => Raises e (with_import_manager unit (fun _ => w) ms)
       end;
     complete_definitions := fun ms => Returns tt ms;
     scope_reset_counters := fun sc => sc |}.

(** Collaborators under which every entry point is the initializer of
    the package ["pkg.sub"]. *)
Definition example_init : collaborators unit :=
  {| os := {| Imports.abspath := fun p => p;
              Imports.relpath := fun p _ => "pkg/sub/__init__.py"%string;
              Imports.dirname := fun p => "/app"%string;
              Imports.split_head := fun p => p;
              Imports.to_mod_name := fun p => "pkg.sub.__init__"%string;
              Imports.import_module := Imports.import_module Imports.example_host;
              Imports.importlib_abc_loaded := true |};
     run_pass := fun _ _ input_mod shared ms => Returns (shared, {[ input_mod ]}) ms;
     complete_definitions := fun ms => Returns tt ms;
     scope_reset_counters := fun sc => sc |}.

(** A generator with two entry points that name the same module. *)
Definition example_twice : generator unit :=
  {| entry_points := ["/app/main.py"; "/app/./main.py"]%string; package := "/app";
     state := None; max_iter := -1; operation := "call_graph";
     mgrs := example_managers |}.

End Driver.

(** * Properties *)

(** ** The call graph *)

Module CallGraphFacts.
Import CallGraph.

Lemma wf_init : wf init.
Proof. split; cbn; set_solver. Qed.

Lemma str_truthy_true (s : string) : str_truthy s = true ↔ s ≠ ""%string.
Proof. destruct s; cbn; split; congruence. Qed.

Lemma wf_lookups g n :
  wf g → n ∈ dom (cg g) →
  is_Some (modnames g !! n) ∧ is_Some (cg_extended g !! n) ∧ is_Some (cg g !! n).
Proof.
  intros [H1 H2] Hn. rewrite <- !elem_of_dom. rewrite H1, H2. done.
Qed.

Lemma create_entry_wf n m g : wf g → wf (create_entry n m g).
Proof.
  intros [H1 H2]. unfold create_entry. case_decide; [done|].
  split; cbn; rewrite !dom_insert_L; congruence.
Qed.

Lemma create_entry_dom n m g : dom (cg (create_entry n m g)) = {[ n ]} ∪ dom (cg g).
Proof.
  unfold create_entry. case_decide; cbn; [set_solver|].
  by rewrite dom_insert_L.
Qed.

Lemma create_entry_adj n m g k : adj_of k (create_entry n m g) = adj_of k g.
Proof.
  unfold create_entry, adj_of, get. case_decide as Hin; [done|]. cbn.
  destruct (decide (n = k)) as [->|Hne].
  - rewrite lookup_insert_eq. apply not_elem_of_dom in Hin. by rewrite Hin.
  - by rewrite lookup_insert_ne.
Qed.

Lemma create_entry_log n m g k : wf g → log_of k (create_entry n m g) = log_of k g.
Proof.
  intros [H1 H2].
  unfold create_entry, log_of, get_extended. case_decide as Hin; [done|]. cbn.
  destruct (decide (n = k)) as [->|Hne].
  - rewrite lookup_insert_eq. cbn. rewrite <- H2 in Hin.
    apply not_elem_of_dom in Hin. by rewrite Hin.
  - by rewrite lookup_insert_ne.
Qed.

(** What [backfill] does on a well-formed graph that knows [n]: it never
    raises, and touches neither keys, adjacency sets nor logs. *)
Lemma backfill_ok n m g :
  wf g → n ∈ dom (cg g) →
  ∃ g', backfill n m g = Returns tt g' ∧ wf g' ∧
        cg g' = cg g ∧ (∀ k, log_of k g' = log_of k g).
Proof.
  intros Hwf Hn. destruct (wf_lookups g n Hwf Hn) as ([mo Hmo] & [e He] & _).
  destruct Hwf as [H1 H2].
  unfold backfill, backfill_extended. rewrite decide_True by done. rewrite Hmo.
  destruct (str_truthy mo); cbn.
  - rewrite He. destruct (str_truthy (meta_modname e)); cbn.
    + eexists; split; [done|]. by repeat split.
    + eexists; split; [done|]. repeat split; cbn; try done.
      * rewrite dom_insert_L. apply elem_of_dom_2 in He. set_solver.
      * intros k. unfold log_of, get_extended. cbn.
        destruct (decide (n = k)) as [->|Hne].
        -- rewrite lookup_insert_eq, He. done.
        -- by rewrite lookup_insert_ne.
  - eexists; split; [done|]. repeat split; cbn; try done.
    rewrite dom_insert_L. apply elem_of_dom_2 in Hmo. set_solver.
Qed.

(** [add_node] on a valid name never fails on a well-formed graph. *)
Lemma add_node_ok n m g :
  wf g → str_truthy n = true →
  ∃ g', add_node (PyStr n) m g = Returns tt g' ∧ wf g' ∧
        dom (cg g') = {[ n ]} ∪ dom (cg g) ∧
        (∀ k, adj_of k g' = adj_of k g) ∧
        (∀ k, log_of k g' = log_of k g).
Proof.
  intros Hwf Hn. unfold add_node. rewrite Hn. cbn.
  destruct (backfill_ok n m (create_entry n m g)) as (g' & Hg' & Hwf' & Hcg & Hlog).
  { by apply create_entry_wf. }
  { rewrite create_entry_dom. set_solver. }
  exists g'. split; [done|]. split; [done|]. split; [|split].
  - by rewrite Hcg, create_entry_dom.
  - intros k. unfold adj_of, get at 1. rewrite Hcg. apply create_entry_adj.
  - intros k. rewrite Hlog. by apply create_entry_log.
Qed.

(** The registry entry after [add_node]: an earlier non-empty module
    stays, anything else is replaced by the argument. *)
Lemma add_node_modname n m g g' :
  wf g → add_node (PyStr n) m g = Returns tt g' →
  modname_of n g' =
    Some (match modname_of n g with
          | Some p => if str_truthy p then p else m
          | None => m
          end).
Proof.
  intros Hwf. unfold add_node. destruct (str_truthy n) eqn:Hn; cbn; [|done].
  unfold backfill, backfill_extended, modname_of, get_modules.
  rewrite decide_True by (rewrite create_entry_dom; set_solver).
  unfold create_entry. case_decide as Hin.
  - destruct (wf_lookups g n Hwf Hin) as ([p Hp] & [e He] & _).
    rewrite Hp, He. destruct (str_truthy p) eqn:Htp; cbn.
    + destruct (str_truthy (meta_modname e)); cbn; intros [= <-]; cbn; by rewrite Hp.
    + intros [= <-]; cbn. by rewrite lookup_insert_eq.
  - assert (modnames g !! n = None) as Hnone.
    { apply not_elem_of_dom. by rewrite (proj1 Hwf). }
    cbn. rewrite !lookup_insert_eq, Hnone. cbn.
    destruct (str_truthy m) eqn:Hm; cbn; intros [= <-]; cbn;
      by rewrite ?lookup_insert_eq.
Qed.

(** The extended-graph metadata after [add_node]: it is written at
    creation, and later only on a call that finds the registry entry
    already non-empty. *)
Lemma add_node_meta n m g g' :
  wf g → add_node (PyStr n) m g = Returns tt g' →
  meta_of n g' =
    Some (match modname_of n g, meta_of n g with
          | Some p, Some q =>
              if str_truthy p then (if str_truthy q then q else m) else q
          | _, _ => m
          end).
Proof.
  intros Hwf. unfold add_node. destruct (str_truthy n) eqn:Hn; cbn; [|done].
  unfold backfill, backfill_extended, modname_of, meta_of, get_modules, get_extended.
  rewrite decide_True by (rewrite create_entry_dom; set_solver).
  unfold create_entry. case_decide as Hin.
  - destruct (wf_lookups g n Hwf Hin) as ([p Hp] & [e He] & _).
    rewrite Hp, He. cbn. destruct (str_truthy p) eqn:Htp; cbn.
    + destruct (str_truthy (meta_modname e)) eqn:Hq; cbn; intros [= <-]; cbn.
      * by rewrite He.
      * by rewrite lookup_insert_eq.
    + intros [= <-]; cbn. by rewrite He.
  - assert (modnames g !! n = None) as Hnone.
    { apply not_elem_of_dom. by rewrite (proj1 Hwf). }
    cbn. rewrite !lookup_insert_eq, Hnone. cbn.
    destruct (str_truthy m) eqn:Hm; cbn; intros [= <-]; cbn;
      by rewrite ?lookup_insert_eq.
Qed.

Lemma modname_of_fresh n g : wf g → n ∉ dom (cg g) → modname_of n g = None.
Proof.
  intros [H1 _] Hn. unfold modname_of, get_modules.
  apply not_elem_of_dom. by rewrite H1.
Qed.

(** Three calls on a fresh name: blank module, then [m1], then [m2]. *)
Lemma add_node_three_calls g n m1 m2 :
  wf g → n ∉ dom (cg g) → str_truthy n = true → str_truthy m1 = true →
  ∃ g1 g2 g3,
    add_node (PyStr n) "" g = Returns tt g1 ∧
    add_node (PyStr n) m1 g1 = Returns tt g2 ∧
    add_node (PyStr n) m2 g2 = Returns tt g3 ∧
    modname_of n g2 = Some m1 ∧ meta_of n g2 = Some ""%string ∧
    modname_of n g3 = Some m1 ∧ meta_of n g3 = Some m2.
Proof.
  intros Hwf Hfresh Hn Hm1.
  destruct (add_node_ok n "" g Hwf Hn) as (g1 & E1 & Hwf1 & _).
  destruct (add_node_ok n m1 g1 Hwf1 Hn) as (g2 & E2 & Hwf2 & _).
  destruct (add_node_ok n m2 g2 Hwf2 Hn) as (g3 & E3 & Hwf3 & _).
  exists g1, g2, g3. do 3 (split; [done|]).
  pose proof (add_node_modname _ _ _ _ Hwf E1) as M1.
  pose proof (add_node_meta _ _ _ _ Hwf E1) as X1.
  rewrite (modname_of_fresh n g Hwf Hfresh) in M1, X1.
  pose proof (add_node_modname _ _ _ _ Hwf1 E2) as M2.
  pose proof (add_node_meta _ _ _ _ Hwf1 E2) as X2.
  rewrite M1 in M2, X2. rewrite X1 in X2. cbn in M2, X2.
  pose proof (add_node_modname _ _ _ _ Hwf2 E3) as M3.
  pose proof (add_node_meta _ _ _ _ Hwf2 E3) as X3.
  rewrite M2 in M3, X3. rewrite X2 in X3. rewrite Hm1 in M3, X3. cbn in X3.
  done.
Qed.

(** C6.  The claim's own example, at any fresh name [n] and non-empty
    modules [m1], [m2]: after [add_node(n, "")], [add_node(n, m1)],
    [add_node(n, m2)] the module registry read through [get_modules]
    holds [m1], the first non-empty module, but the metadata read through
    [get_extended] holds [m2], the later one: the two stores the claim
    speaks of disagree. *)
Theorem add_node_backfill_registry_vs_extended g n m1 m2 :
  wf g → n ∉ dom (cg g) → str_truthy n = true → str_truthy m1 = true →
  ∃ g3,
    (add_node (PyStr n) "" ;;; add_node (PyStr n) m1 ;;; add_node (PyStr n) m2) g
      = Returns tt g3 ∧
    get_modules g3 !! n = Some m1 ∧
    meta_modname <$> (get_extended g3 !! n) = Some m2.
Proof.
  intros Hwf Hfresh Hn Hm1.
  destruct (add_node_three_calls g n m1 m2 Hwf Hfresh Hn Hm1)
    as (g1 & g2 & g3 & E1 & E2 & E3 & _ & _ & M & X).
  exists g3. split; [|done].
  unfold bind. by rewrite E1, E2, E3.
Qed.

Lemma add_node_backfill_registry_vs_extended_witness :
  ∃ g3,
    (add_node (PyStr "n") "" ;;; add_node (PyStr "n") "m1" ;;; add_node (PyStr "n") "m2") init
      = Returns tt g3 ∧
    get_modules g3 !! "n"%string = Some "m1"%string ∧
    meta_modname <$> (get_extended g3 !! "n"%string) = Some "m2"%string.
Proof.
  apply (add_node_backfill_registry_vs_extended init "n" "m1" "m2").
  - exact wf_init.
  - cbn. set_solver.
  - reflexivity.
  - reflexivity.
Defined.

Lemma backfill_same n m g :
  n ∈ dom (cg g) → modname_of n g = Some m → meta_of n g = Some m →
  backfill n m g = Returns tt g.
Proof.
  intros Hin Hm Hx. unfold modname_of, get_modules in Hm.
  unfold meta_of, get_extended in Hx.
  destruct (cg_extended g !! n) as [e|] eqn:He; [|done]. cbn in Hx.
  injection Hx as Hx.
  unfold backfill, backfill_extended. rewrite decide_True by done.
  rewrite Hm, He, Hx. destruct (str_truthy m); cbn; [done|].
  f_equal. destruct g; unfold with_modnames; cbn in *. f_equal.
  by apply insert_id.
Qed.

(** A second identical [add_node] changes nothing when the first one
    created the name. *)
Lemma add_node_twice_fresh g n m g1 :
  wf g → n ∉ dom (cg g) →
  add_node (PyStr n) m g = Returns tt g1 →
  add_node (PyStr n) m g1 = Returns tt g1.
Proof.
  intros Hwf Hfresh E1.
  pose proof (add_node_modname _ _ _ _ Hwf E1) as M1.
  pose proof (add_node_meta _ _ _ _ Hwf E1) as X1.
  rewrite (modname_of_fresh n g Hwf Hfresh) in M1, X1.
  destruct (str_truthy n) eqn:Hn; [|by unfold add_node in E1; rewrite Hn in E1].
  destruct (add_node_ok n m g Hwf Hn) as (g1' & E1' & _ & D1 & _).
  rewrite E1 in E1'. injection E1' as <-.
  assert (n ∈ dom (cg g1)) as Hin by (rewrite D1; set_solver).
  unfold add_node. rewrite Hn. cbn. unfold create_entry.
  rewrite decide_True by done. by apply backfill_same.
Qed.

(** [add_edge] between two valid names on a well-formed graph. *)
Lemma add_edge_ok g s d ln m em :
  wf g → str_truthy s = true → str_truthy d = true →
  ∃ g', add_edge (PyStr s) (PyStr d) ln m em g = Returns tt g' ∧ wf g' ∧
        adj_of s g' = {[ d ]} ∪ adj_of s g ∧
        log_of s g' = log_of s g ++ [Edge d ln m em].
Proof.
  intros Hwf Hs Hd.
  destruct (add_node_ok s m g Hwf Hs) as (g1 & E1 & Hwf1 & D1 & A1 & L1).
  destruct (add_node_ok d "" g1 Hwf1 Hd) as (g2 & E2 & Hwf2 & D2 & A2 & L2).
  assert (s ∈ dom (cg g2)) as Hin by (rewrite D2, D1; set_solver).
  destruct (wf_lookups g2 s Hwf2 Hin) as (_ & [e He] & [out Hout]).
  unfold add_edge, bind. rewrite E1, E2. unfold record_edge. rewrite Hout. cbn.
  rewrite He. eexists. split; [done|]. split; [|split].
  - destruct Hwf2 as [W1 W2]. split; cbn; rewrite !dom_insert_L.
    + rewrite W1. set_solver.
    + rewrite W2. set_solver.
  - unfold adj_of at 1, get. cbn. rewrite lookup_insert_eq.
    rewrite <- A1, <- A2. unfold adj_of, get. by rewrite Hout.
  - unfold log_of at 1, get_extended. cbn. rewrite lookup_insert_eq. cbn.
    rewrite <- L1, <- L2. unfold log_of, get_extended. by rewrite He.
Qed.

(** C8.  First part, at the input where it fails: on a name that exists
    with a blank module (fresh name [n], then [add_node(n, "")]), the
    call [add_node(n, m)] leaves the extended metadata blank and the
    identical call after it writes [m] there, so the second identical
    call does change the state.  Second part, as claimed: each of two
    identical [add_edge] calls appends its record to the source's log,
    and the second call leaves the source's adjacency set as the first
    one made it. *)
Theorem add_node_repeat_and_add_edge_twice :
  (∀ g n m,
     wf g → n ∉ dom (cg g) → str_truthy n = true → str_truthy m = true →
     ∃ g0 g1 g2,
       add_node (PyStr n) "" g = Returns tt g0 ∧
       add_node (PyStr n) m g0 = Returns tt g1 ∧
       add_node (PyStr n) m g1 = Returns tt g2 ∧
       meta_modname <$> (get_extended g1 !! n) = Some ""%string ∧
       meta_modname <$> (get_extended g2 !! n) = Some m ∧
       g2 ≠ g1) ∧
  (∀ g s d ln m em,
     wf g → str_truthy s = true → str_truthy d = true →
     ∃ g1 g2,
       add_edge (PyStr s) (PyStr d) ln m em g = Returns tt g1 ∧
       add_edge (PyStr s) (PyStr d) ln m em g1 = Returns tt g2 ∧
       log_of s g1 = log_of s g ++ [Edge d ln m em] ∧
       log_of s g2 = log_of s g1 ++ [Edge d ln m em] ∧
       d ∈ adj_of s g1 ∧
       adj_of s g2 = adj_of s g1 ∧
       size (adj_of s g2) = size (adj_of s g1)).
Proof.
  split.
  - intros g n m Hwf Hfresh Hn Hm.
    destruct (add_node_three_calls g n m m Hwf Hfresh Hn Hm)
      as (g0 & g1 & g2 & E0 & E1 & E2 & _ & X1 & _ & X2).
    exists g0, g1, g2. do 5 (split; [done|]).
    intros ->. unfold meta_of in X1, X2. rewrite X1 in X2.
    injection X2 as <-. discriminate.
  - intros g s d ln m em Hwf Hs Hd.
    destruct (add_edge_ok g s d ln m em Hwf Hs Hd) as (g1 & E1 & Hwf1 & A1 & L1).
    destruct (add_edge_ok g1 s d ln m em Hwf1 Hs Hd) as (g2 & E2 & Hwf2 & A2 & L2).
    exists g1, g2. do 4 (split; [done|]).
    assert (adj_of s g2 = adj_of s g1) as Heq by (rewrite A2, A1; set_solver).
    split; [rewrite A1; set_solver|]. split; [done|]. by rewrite Heq.
Qed.

Lemma add_node_repeat_and_add_edge_twice_witness :
  (∃ g0 g1 g2,
     add_node (PyStr "n") "" init = Returns tt g0 ∧
     add_node (PyStr "n") "m1" g0 = Returns tt g1 ∧
     add_node (PyStr "n") "m1" g1 = Returns tt g2 ∧
     meta_modname <$> (get_extended g1 !! "n"%string) = Some ""%string ∧
     meta_modname <$> (get_extended g2 !! "n"%string) = Some "m1"%string ∧
     g2 ≠ g1) ∧
  (∃ g1 g2,
     add_edge (PyStr "a") (PyStr "b") 7 "m" "" init = Returns tt g1 ∧
     add_edge (PyStr "a") (PyStr "b") 7 "m" "" g1 = Returns tt g2 ∧
     log_of "a" g1 = log_of "a" init ++ [Edge "b" 7 "m" ""] ∧
     log_of "a" g2 = log_of "a" g1 ++ [Edge "b" 7 "m" ""] ∧
     "b"%string ∈ adj_of "a" g1 ∧
     adj_of "a" g2 = adj_of "a" g1 ∧
     size (adj_of "a" g2) = size (adj_of "a" g1)).
Proof.
  destruct add_node_repeat_and_add_edge_twice as [H1 H2]. split.
  - apply (H1 init "n"%string "m1"%string).
    + exact wf_init.
    + cbn. set_solver.
    + reflexivity.
    + reflexivity.
  - apply (H2 init "a"%string "b"%string 7 "m"%string ""%string).
    + exact wf_init.
    + reflexivity.
    + reflexivity.
Defined.

(** C10.  [add_edge] with a destination that is empty or not a string
    raises [CallGraphError] whatever the source is.  When the source is
    a valid name the exception leaves the graph as [add_node(src, mod)]
    made it: the source is a node of the graph, and the graph differs
    from the one before the call whenever the source was new. *)
Theorem add_edge_bad_dest_not_atomic g src dest ln m em :
  wf g → isinstance_str dest && truthy dest = false →
  ∃ msg g',
    add_edge src dest ln m em g = Raises (CallGraphError msg) g' ∧
    ∀ s, src = PyStr s → str_truthy s = true →
         add_node src m g = Returns tt g' ∧
         s ∈ dom (get g') ∧
         (s ∉ dom (get g) → g' ≠ g).
Proof.
  intros Hwf Hbad.
  assert (∀ g1, ∃ msg, add_node dest "" g1 = Raises (CallGraphError msg) g1) as Hdest.
  { intros g1. destruct dest as [|d|z]; cbn in *; eauto.
    rewrite Hbad. cbn. eauto. }
  destruct src as [|s|z].
  - exists "Only string node names allowed"%string, g. split; [done|]. intros s [=].
  - destruct (str_truthy s) eqn:Hs.
    + destruct (add_node_ok s m g Hwf Hs) as (g1 & E1 & Hwf1 & D1 & _).
      destruct (Hdest g1) as [msg E2].
      exists msg, g1. split.
      * unfold add_edge, bind. by rewrite E1, E2.
      * intros s' [= <-] _. split; [done|]. unfold get. rewrite D1.
        split; [set_solver|]. intros Hfresh ->. set_solver.
    + exists "Empty node name"%string, g. split.
      * unfold add_edge, bind. cbn. by rewrite Hs.
      * intros s' [= <-]. congruence.
  - exists "Only string node names allowed"%string, g. split; [done|]. intros s [=].
Qed.

Lemma add_edge_bad_dest_not_atomic_witness :
  ∃ msg g',
    add_edge (PyStr "a") (PyStr "") (-1) "m" "" init = Raises (CallGraphError msg) g' ∧
    ∀ s, PyStr "a" = PyStr s → str_truthy s = true →
         add_node (PyStr "a") "m" init = Returns tt g' ∧
         s ∈ dom (get g') ∧
         (s ∉ dom (get init) → g' ≠ init).
Proof.
  apply (add_edge_bad_dest_not_atomic init (PyStr "a") (PyStr "") (-1) "m" "").
  - exact wf_init.
  - reflexivity.
Defined.
End CallGraphFacts.

(** ** Strings *)

Module PyFacts.

Example split_module_path :
  Py.split Py.dot "pkg.sub.mod" = ["pkg"; "sub"; "mod"]%string.
Proof. reflexivity. Qed.

Example split_empty : Py.split Py.dot "" = [""%string].
Proof. reflexivity. Qed.

Example split_relative : Py.split Py.dot "..x" = [""; ""; "x"]%string.
Proof. reflexivity. Qed.

Example slice_to_neg_zero : Py.slice_to_neg 0 ["pkg"; "mod"]%string = [].
Proof. reflexivity. Qed.

Example slice_to_neg_one : Py.slice_to_neg 1 ["pkg"; "sub"; "mod"]%string = ["pkg"; "sub"]%string.
Proof. reflexivity. Qed.

Example endswith_init : Py.endswith "__init__.py" "/app/pkg/__init__.py" = true.
Proof. reflexivity. Qed.

Example contains_inside : Py.contains "/app" "/usr/lib/app/ext.py" = true.
Proof. reflexivity. Qed.

Example contains_not : Py.contains "/app" "/usr/lib/np.py" = false.
Proof. reflexivity. Qed.

Lemma split_nonempty sep s : Py.split sep s ≠ [].
Proof.
  destruct s as [|c r]; cbn; [done|].
  destruct (Ascii.eqb c sep); [done|]. by destruct (Py.split sep r).
Qed.

(** Splitting at the dots and joining with dots gives the string back. *)
Lemma join_split s : Py.join "." (Py.split Py.dot s) = s.
Proof.
  induction s as [|c r IH]; [done|]. cbn [Py.split].
  destruct (Ascii.eqb c Py.dot) eqn:Hc.
  - apply Ascii.eqb_eq in Hc as ->.
    pose proof (split_nonempty Py.dot r) as Hne.
    cbn [Py.join]. destruct (Py.split Py.dot r) as [|h t] eqn:Hs; [done|].
    rewrite IH. reflexivity.
  - destruct (Py.split Py.dot r) as [|h t] eqn:Hs; [by destruct (split_nonempty Py.dot r)|].
    cbn [Py.join] in *. destruct t as [|h' t'].
    + by rewrite IH.
    + rewrite <- IH. reflexivity.
Qed.

(** Splitting distributes over a dot in the middle. *)
Lemma split_app_dot p q :
  Py.split Py.dot (String.append p (String.append "." q))
    = Py.split Py.dot p ++ Py.split Py.dot q.
Proof.
  change (String.append "." q) with (String "."%char q).
  induction p as [|c p IH]; [done|].
  change (String.append (String c p) (String "."%char q))
    with (String c (String.append p (String "."%char q))).
  cbn [Py.split]. rewrite IH.
  destruct (Ascii.eqb c Py.dot); [done|].
  pose proof (split_nonempty Py.dot p). by destruct (Py.split Py.dot p).
Qed.

Lemma endswith_app suffix a s :
  Py.endswith suffix s = true → Py.endswith suffix (String.append a s) = true.
Proof.
  intros Hs. induction a as [|c a IH]; [done|].
  change (String.append (String c a) s) with (String c (String.append a s)).
  cbn [Py.endswith]. rewrite IH. by destruct (String.eqb _ _).
Qed.

End PyFacts.

(** ** The import manager *)

Module ImportsFacts.
Import Imports.

(** *** What loading leaves alone *)

Lemma grows_refl w : grows w w.
Proof. by repeat split. Qed.

Lemma grows_trans w1 w2 w3 : grows w1 w2 → grows w2 w3 → grows w1 w3.
Proof.
  intros (C1 & D1 & I1) (C2 & D2 & I2). repeat split; try congruence.
  intros k. etrans; [apply I1 | apply I2].
Qed.

Lemma get_imports_insert k n nd w :
  get_imports k (with_im (λ m, set_import_graph (<[n := nd]> (import_graph m)) m) w) =
    if decide (n = k) then imports nd else get_imports k w.
Proof.
  unfold get_imports. cbn. case_decide as Hk.
  - subst. by rewrite lookup_insert_eq.
  - by rewrite lookup_insert_ne.
Qed.

Lemma create_edge_grows d w : grows w (final_state (create_edge d w)).
Proof.
  unfold create_edge. destruct (negb (truthy d) || negb (isinstance_str d));
    [apply grows_refl|].
  destruct d as [|s|z]; try apply grows_refl.
  destruct (get_node (_get_module_path w) w) as [nd|] eqn:Hg; [|apply grows_refl].
  cbn. repeat split. intros k. rewrite get_imports_insert. case_decide as Hk.
  - subst. cbn. unfold get_imports, get_node in *. rewrite Hg. set_solver.
  - done.
Qed.

Lemma create_edge_returns d w w' :
  create_edge d w = Returns tt w' →
  ∃ s, d = PyStr s ∧ s ∈ get_imports (current_module (im w)) w' ∧
       is_Some (get_node (current_module (im w)) w').
Proof.
  unfold create_edge. destruct (negb (truthy d) || negb (isinstance_str d)); [done|].
  destruct d as [|s|z]; try done.
  destruct (get_node (_get_module_path w) w) as [nd|] eqn:Hg; [|done].
  intros [= <-]. exists s. split; [done|]. unfold _get_module_path.
  rewrite get_imports_insert, decide_True by done. cbn. split; [set_solver|].
  unfold get_node. cbn. rewrite lookup_insert_eq. eauto.
Qed.

Lemma create_node_grows n w : grows w (final_state (create_node n w)).
Proof.
  unfold create_node. destruct (negb (truthy n) || negb (isinstance_str n));
    [apply grows_refl|].
  destruct n as [|s|z]; try apply grows_refl.
  destruct (get_node s w) as [nd|] eqn:Hg; [apply grows_refl|].
  cbn. repeat split. intros k. rewrite get_imports_insert. case_decide as Hk; [|done].
  subst. unfold get_imports, get_node in *. rewrite Hg. set_solver.
Qed.

Lemma set_filepath_grows H n f w : grows w (final_state (set_filepath H n f w)).
Proof.
  unfold set_filepath. destruct (negb (truthy f) || negb (isinstance_str f));
    [apply grows_refl|].
  destruct f as [|s|z]; try apply grows_refl.
  destruct (get_node n w) as [nd|] eqn:Hg; [|apply grows_refl].
  cbn. repeat split. intros k. rewrite get_imports_insert. case_decide as Hk; [|done].
  subst. cbn. unfold get_imports, get_node in *. by rewrite Hg.
Qed.

Lemma bind_grows {A B} (m : method world A) (k : A → method world B) w :
  grows w (final_state (m w)) →
  (∀ a w1, grows w1 (final_state (k a w1))) →
  grows w (final_state (bind m k w)).
Proof.
  intros Hm Hk. unfold bind. destruct (m w) as [a w1|e w1]; cbn in *; [|done].
  eapply grows_trans; [done|apply Hk].
Qed.

Lemma custom_loader_init_grows H fullname p w :
  grows w (final_state (custom_loader_init H fullname p w)).
Proof.
  unfold custom_loader_init.
  destruct (negb (str_truthy (current_module (im w)))); [apply grows_refl|].
  apply bind_grows; [apply create_edge_grows|]. intros _ w1.
  destruct (get_node fullname w1); [apply grows_refl|].
  apply bind_grows; [apply create_node_grows|]. intros _ w2.
  apply set_filepath_grows.
Qed.

Lemma run_loaders_grows H loads w :
  grows w (final_state (run_loaders H loads w)).
Proof.
  revert w. induction loads as [|[fullname p] rest IH]; intros w; cbn.
  - apply grows_refl.
  - apply bind_grows; [apply custom_loader_init_grows|]. intros _ w1. apply IH.
Qed.

Lemma with_sys_grows f w : grows w (with_sys f w).
Proof. by repeat split. Qed.

Lemma do_import_grows H mn pkg w :
  grows w (final_state (_do_import H mn pkg w)).
Proof.
  unfold _do_import. destruct (modules (sys w) !! mn) as [m|].
  - apply bind_grows; [apply create_edge_grows|]. intros _ w1. apply grows_refl.
  - apply bind_grows; [|intros m w1; apply grows_refl].
    unfold importlib_import_module.
    eapply grows_trans; [apply with_sys_grows|].
    apply bind_grows; [apply run_loaders_grows|]. intros _ w1.
    destruct (io_result _); apply grows_refl.
Qed.

Lemma try_combos_grows H cs w : grows w (try_combos H cs w).2.
Proof.
  revert w. induction cs as [|[mn pkg] rest IH]; intros w; cbn.
  - apply grows_refl.
  - pose proof (do_import_grows H mn pkg w) as Hd.
    destruct (_do_import H mn pkg w) as [m w'|e w']; cbn in *; [done|].
    specialize (IH w'). destruct (try_combos H rest w') as [[m log] w'']. cbn in *.
    by eapply grows_trans.
Qed.

(** *** The hooks are nobody's business but [install_hooks] and
    [remove_hooks] *)

Lemma handle_import_level_keeps name level w :
  final_state (_handle_import_level name level w) = w.
Proof. unfold _handle_import_level. by destruct (_ <? _)%nat. Qed.

Lemma keeps_hooks_refl w : keeps_hooks w w.
Proof. by repeat split. Qed.

Lemma keeps_hooks_trans w1 w2 w3 :
  keeps_hooks w1 w2 → keeps_hooks w2 w3 → keeps_hooks w1 w3.
Proof. intros (? & ? & ? & ?) (? & ? & ? & ?). repeat split; congruence. Qed.

Lemma bind_keeps_hooks {A B} (m : method world A) (k : A → method world B) w :
  keeps_hooks w (final_state (m w)) →
  (∀ a w1, keeps_hooks w1 (final_state (k a w1))) →
  keeps_hooks w (final_state (bind m k w)).
Proof.
  intros Hm Hk. unfold bind. destruct (m w) as [a w1|e w1]; cbn in *; [|done].
  eapply keeps_hooks_trans; [done|apply Hk].
Qed.

Lemma create_edge_keeps_hooks d w : keeps_hooks w (final_state (create_edge d w)).
Proof.
  unfold create_edge. destruct (negb (truthy d) || negb (isinstance_str d));
    [apply keeps_hooks_refl|].
  destruct d as [|s|z]; try apply keeps_hooks_refl.
  destruct (get_node (_get_module_path w) w); by repeat split.
Qed.

Lemma create_node_keeps_hooks n w : keeps_hooks w (final_state (create_node n w)).
Proof.
  unfold create_node. destruct (negb (truthy n) || negb (isinstance_str n));
    [apply keeps_hooks_refl|].
  destruct n as [|s|z]; try apply keeps_hooks_refl.
  destruct (get_node s w); by repeat split.
Qed.

Lemma set_filepath_keeps_hooks H n f w :
  keeps_hooks w (final_state (set_filepath H n f w)).
Proof.
  unfold set_filepath. destruct (negb (truthy f) || negb (isinstance_str f));
    [apply keeps_hooks_refl|].
  destruct f as [|s|z]; try apply keeps_hooks_refl.
  destruct (get_node n w); by repeat split.
Qed.

Lemma set_current_mod_keeps_hooks H name fname w :
  keeps_hooks w (final_state (set_current_mod H name fname w)).
Proof. by repeat split. Qed.

Lemma custom_loader_init_keeps_hooks H fullname p w :
  keeps_hooks w (final_state (custom_loader_init H fullname p w)).
Proof.
  unfold custom_loader_init.
  destruct (negb (str_truthy (current_module (im w)))); [apply keeps_hooks_refl|].
  apply bind_keeps_hooks; [apply create_edge_keeps_hooks|]. intros _ w1.
  destruct (get_node fullname w1); [apply keeps_hooks_refl|].
  apply bind_keeps_hooks; [apply create_node_keeps_hooks|]. intros _ w2.
  apply set_filepath_keeps_hooks.
Qed.

Lemma run_loaders_keeps_hooks H loads w :
  keeps_hooks w (final_state (run_loaders H loads w)).
Proof.
  revert w. induction loads as [|[fullname p] rest IH]; intros w; cbn.
  - apply keeps_hooks_refl.
  - apply bind_keeps_hooks; [apply custom_loader_init_keeps_hooks|]. intros _ w1. apply IH.
Qed.

Lemma set_modules_keeps_hooks ms w : keeps_hooks w (with_sys (set_modules ms) w).
Proof. by repeat split. Qed.

Lemma do_import_keeps_hooks H mn pkg w :
  keeps_hooks w (final_state (_do_import H mn pkg w)).
Proof.
  unfold _do_import. destruct (modules (sys w) !! mn) as [m|].
  - apply bind_keeps_hooks; [apply create_edge_keeps_hooks|]. intros _ w1.
    apply keeps_hooks_refl.
  - apply bind_keeps_hooks; [|intros m w1; apply keeps_hooks_refl].
    unfold importlib_import_module.
    eapply keeps_hooks_trans;
      [apply (set_modules_keeps_hooks (io_modules (import_module H (sys w) mn pkg)))|].
    apply bind_keeps_hooks; [apply run_loaders_keeps_hooks|]. intros _ w1.
    destruct (io_result _); apply keeps_hooks_refl.
Qed.

Lemma try_combos_keeps_hooks H cs w : keeps_hooks w (try_combos H cs w).2.
Proof.
  revert w. induction cs as [|[mn pkg] rest IH]; intros w; cbn.
  - apply keeps_hooks_refl.
  - pose proof (do_import_keeps_hooks H mn pkg w) as Hd.
    destruct (_do_import H mn pkg w) as [m w'|e w']; cbn in *; [done|].
    specialize (IH w'). destruct (try_combos H rest w') as [[m log] w'']. cbn in *.
    by eapply keeps_hooks_trans.
Qed.

(** Resolving an import, with all the loading it sets off, leaves the
    hooks alone. *)
Lemma handle_import_keeps_hooks H name level w :
  keeps_hooks w (final_state (handle_import H name level w)).
Proof.
  unfold handle_import. apply bind_keeps_hooks; [|intros r w1; apply keeps_hooks_refl].
  unfold handle_import_traced. case_bool_decide.
  - apply bind_keeps_hooks; [apply create_edge_keeps_hooks|]. intros _ w1.
    apply keeps_hooks_refl.
  - pose proof (handle_import_level_keeps name level w) as Hl.
    destruct (_handle_import_level name level w) as [[mod_name package] w0|e w0];
      cbn in Hl; subst w0.
    + pose proof (try_combos_keeps_hooks H (combos name mod_name package) w) as Ht.
      destruct (try_combos H (combos name mod_name package) w) as [[m log] w1].
      cbn in Ht. destruct m as [m|]; [|done].
      destruct (lacks_file m); [done|]. destruct (outside_mod_dir w1 m); [done|].
      by destruct (module_file m).
    + destruct e; apply keeps_hooks_refl.
Qed.

(** *** The loop over the candidates *)

Lemma try_combos_replays H cs w :
  replays H w cs (try_combos H cs w).1.2 (try_combos H cs w).1.1 (try_combos H cs w).2.
Proof.
  revert w. induction cs as [|[mn pkg] rest IH]; intros w; cbn.
  - constructor.
  - destruct (_do_import H mn pkg w) as [m w'|e w'] eqn:Hd; cbn.
    + by constructor.
    + specialize (IH w'). destruct (try_combos H rest w') as [[m log] w'']. cbn in *.
      by econstructor.
Qed.

(** The attempts are the candidates in order, up to and including the
    first that loaded; with none loaded they are all of them and [mod]
    is still [None]. *)
Lemma replays_shape H w cs log m w' :
  replays H w cs log m w' →
  (∃ pre c post, cs = pre ++ c :: post ∧ log = map failed pre ++ [(c, true)]) ∨
  (log = map failed cs ∧ m = None).
Proof.
  induction 1 as [w|w mn pkg rest m w' Hd|w mn pkg rest e w1 log m w' Hd Hr IH].
  - by right.
  - left. by exists [], (mn, pkg), rest.
  - destruct IH as [(pre & c & post & -> & ->)|[-> ->]].
    + left. by exists ((mn, pkg) :: pre), c, post.
    + by right.
Qed.

(** A loaded module is what some [_do_import] on a candidate returned,
    and the loop ended in the state that call left. *)
Lemma replays_loaded H w cs log m w' :
  replays H w cs log (Some m) w' →
  ∃ mn pkg w_pre,
    (mn, pkg) ∈ cs ∧ grows w w_pre ∧
    _do_import H mn pkg w_pre = Returns (Some m) w'.
Proof.
  remember (Some m) as r eqn:Hr. induction 1
    as [w|w mn pkg rest m' w' Hd|w mn pkg rest e w1 log m' w' Hd Hrep IH]; subst.
  - done.
  - exists mn, pkg, w. split; [set_solver|]. split; [apply grows_refl|done].
  - destruct (IH eq_refl) as (mn' & pkg' & w_pre & Hin & Hg & Hd').
    exists mn', pkg', w_pre. split; [set_solver|]. split; [|done].
    eapply grows_trans; [|done].
    pose proof (do_import_grows H mn pkg w) as Hg1. by rewrite Hd in Hg1.
Qed.

Lemma handle_import_level_state name level w r w0 :
  _handle_import_level name level w = Returns r w0 → w0 = w.
Proof.
  unfold _handle_import_level.
  destruct (length _ <? level)%nat; [done|]. by intros [= _ <-].
Qed.

(** *** The edges a load records *)

Lemma custom_loader_init_edge H fullname p w w' :
  custom_loader_init H fullname p w = Returns tt w' →
  str_truthy (current_module (im w)) = true →
  fullname ∈ get_imports (current_module (im w)) w'.
Proof.
  unfold custom_loader_init. intros Hret Hcur. rewrite Hcur in Hret. cbn in Hret.
  unfold bind in Hret.
  destruct (create_edge (PyStr fullname) w) as [[] w1|e w1] eqn:He; [|done].
  apply create_edge_returns in He as (s & [= <-] & Hin & _).
  destruct (get_node fullname w1) as [nd|].
  - by injection Hret as <-.
  - pose proof (create_node_grows (PyStr fullname) w1) as G1.
    destruct (create_node (PyStr fullname) w1) as [nd w2|e w2]; [|done].
    pose proof (set_filepath_grows H fullname (PyStr p) w2) as G2.
    rewrite Hret in G2. cbn in G1, G2.
    destruct G1 as (_ & _ & I1). destruct G2 as (_ & _ & I2).
    apply I2, I1, Hin.
Qed.

Lemma run_loaders_edges H loads w w' :
  run_loaders H loads w = Returns tt w' →
  str_truthy (current_module (im w)) = true →
  ∀ fullname p, (fullname, p) ∈ loads →
    fullname ∈ get_imports (current_module (im w)) w'.
Proof.
  revert w. induction loads as [|[f q] rest IH]; intros w Hret Hcur fullname p Hin.
  - by apply not_elem_of_nil in Hin.
  - cbn in Hret. unfold bind in Hret.
    destruct (custom_loader_init H f q w) as [[] w1|e w1] eqn:Hl; [|done].
    pose proof (custom_loader_init_grows H f q w) as G1. rewrite Hl in G1.
    destruct G1 as (C1 & _ & _). cbn in C1.
    pose proof (run_loaders_grows H rest w1) as G2. rewrite Hret in G2.
    destruct G2 as (_ & _ & I2). cbn in I2.
    apply elem_of_cons in Hin as [[= -> ->]|Hin].
    + apply I2. by eapply custom_loader_init_edge.
    + rewrite <- C1. eapply IH; [done| by rewrite C1 |done].
Qed.

(** The edges of a [_do_import] that returned normally: to the name
    itself when [sys.modules] knew it, and otherwise to every module a
    loader was constructed for. *)
Lemma do_import_edges H mn pkg w r w' :
  _do_import H mn pkg w = Returns r w' →
  (is_Some (modules (sys w) !! mn) →
     mn ∈ get_imports (current_module (im w)) w') ∧
  (modules (sys w) !! mn = None →
     str_truthy (current_module (im w)) = true →
     ∀ fullname p,
       (fullname, p) ∈ io_loads (import_module H (sys w) mn pkg) →
       fullname ∈ get_imports (current_module (im w)) w').
Proof.
  unfold _do_import. destruct (modules (sys w) !! mn) as [m|] eqn:Hm.
  - unfold bind. destruct (create_edge (PyStr mn) w) as [[] w1|e w1] eqn:He; [|done].
    intros [= <- <-]. split; [|done]. intros _.
    by apply create_edge_returns in He as (s & [= <-] & Hin & _).
  - intros Hret. split; [by intros [? ?]|]. intros _ Hcur fullname p Hin.
    unfold bind, importlib_import_module, bind in Hret.
    destruct (run_loaders H _ _) as [[] w1|e w1] eqn:Hl; [|done].
    destruct (io_result _); [done|]. injection Hret as <- <-.
    by eapply (run_loaders_edges H _ _ _ Hl).
Qed.

(** C9.  [create_node] either raises [ImportManagerError] and leaves
    everything as it was, which happens exactly when the name is empty,
    not a string, or already a node of the import graph; or it returns
    the node it inserted under a name that was valid and absent, with an
    empty filename and no imports, changing nothing else. *)
Theorem create_node_exactly_once name w :
  match create_node name w with
  | Raises e w' =>
      (∃ msg, e = ImportManagerError msg) ∧ w' = w ∧
      (truthy name = false ∨ isinstance_str name = false ∨
       ∃ n, name = PyStr n ∧ is_Some (get_node n w))
  | Returns nd w' =>
      ∃ n, name = PyStr n ∧ truthy name = true ∧ get_node n w = None ∧
           nd = {| filename := ""; imports := ∅ |} ∧
           get_import_graph w' = <[n := nd]> (get_import_graph w) ∧
           get_node n w' = Some nd ∧
           sys w' = sys w ∧
           current_module (im w') = current_module (im w) ∧
           input_file (im w') = input_file (im w) ∧
           mod_dir (im w') = mod_dir (im w)
  end.
Proof.
  unfold create_node. destruct name as [|n|z]; cbn.
  - split; [eauto|]. split; [done|]. by left.
  - destruct (str_truthy n) eqn:Hn; cbn.
    + destruct (get_node n w) as [nd|] eqn:Hg.
      * split; [eauto|]. split; [done|]. right. right. exists n. by rewrite Hg.
      * exists n. repeat split; try done.
        unfold get_node. cbn. by rewrite lookup_insert_eq.
    + split; [eauto|]. split; [done|]. by left.
  - destruct (negb (z =? 0)); cbn; (split; [eauto|]; split; [done|]); right; by left.
Qed.

Lemma handle_import_level_beyond name level w :
  (length (Py.split Py.dot (_get_module_path w)) < level)%nat →
  _handle_import_level name level w =
    Raises (ImportError "Attempting import beyond top level package") w.
Proof.
  intros Hlt. unfold _handle_import_level.
  apply Nat.ltb_lt in Hlt. by rewrite Hlt.
Qed.

(** At a level equal to the number of components, in a module that is
    not an initializer, the guard does not fire and the base package is
    empty. *)
Lemma handle_import_level_at_top name level w :
  _is_init_file w = false →
  level = length (Py.split Py.dot (_get_module_path w)) →
  _handle_import_level name level w =
    Returns (String.append (Py.repeat_str "." level) name, EmptyString) w.
Proof.
  intros Hinit ->. unfold _handle_import_level.
  rewrite Nat.ltb_irrefl, Hinit. cbn [andb]. unfold Py.slice_to_neg.
  destruct (length (Py.split Py.dot (_get_module_path w))) as [|n]; [done|].
  by rewrite Nat.sub_diag.
Qed.

Lemma prefix_dot r : String.prefix "." (String "."%char r) = true.
Proof.
  cbn [String.prefix]. destruct (ascii_dec "." "."); [by destruct r|congruence].
Qed.

Lemma repeat_dot_prefix level name :
  (1 ≤ level)%nat →
  String.prefix "." (String.append (Py.repeat_str "." level) name) = true.
Proof.
  destruct level as [|k]; [lia|]. intros _.
  change (Py.repeat_str "." (S k)) with (String "."%char (Py.repeat_str "." k)).
  change (String.append (String "."%char (Py.repeat_str "." k)) name)
    with (String "."%char (String.append (Py.repeat_str "." k) name)).
  apply prefix_dot.
Qed.

(** Joined under the empty package, a name is relative. *)
Lemma join_ns_empty_relative name : String.prefix "." (join_ns "" name) = true.
Proof.
  change (join_ns "" name) with (String "."%char name). apply prefix_dot.
Qed.

(** The parent of a relative name is relative or empty. *)
Lemma parent_of_relative s :
  String.prefix "." s = true →
  parent_of s = EmptyString ∨ String.prefix "." (parent_of s) = true.
Proof.
  destruct s as [|c r]; [done|]. cbn [String.prefix].
  destruct (ascii_dec "." c) as [<-|]; [intros _|done].
  unfold parent_of. cbn [Py.split].
  change (Ascii.eqb "." Py.dot) with true. cbn match.
  pose proof (PyFacts.split_nonempty Py.dot r) as Hne.
  destruct (Py.split Py.dot r) as [|h t]; [done|].
  unfold Py.slice_to_neg. cbn [length]. rewrite Nat.sub_succ, Nat.sub_0_r.
  cbn [take]. destruct (take (length t) (h :: t)) as [|h' t']; [by left|right].
  apply prefix_dot.
Qed.

(** A name that [importlib.import_module] refuses, absent from
    [sys.modules]: the attempt raises and leaves everything as it was. *)
Lemma do_import_refused H mn w :
  import_module_checks_name H →
  mn = EmptyString ∨ String.prefix "." mn = true →
  modules (sys w) !! mn = None →
  ∃ e, _do_import H mn "" w = Raises e w.
Proof.
  intros Hh Hmn Hnone. unfold _do_import. rewrite Hnone.
  destruct (Hh (sys w) mn Hmn) as (Hm & Hl & e & He).
  exists e. unfold bind, importlib_import_module. rewrite Hl, He, Hm. cbn.
  by destruct w as [m [? ? ? ? ?]].
Qed.

(** C3.  In the non-initializer module ["pkg.sub.mod"], the name ["x"]
    at level 1 gives the relative name [".x"] with base package
    ["pkg.sub"], and ["pkg.sub.x"] as the name joined under that
    package, which is among the candidates tried; at level 2 the base
    package is ["pkg"] and the joined candidate ["pkg.x"].  For any
    import whose root is not a built-in module and whose level exceeds
    the number of components of the current module path,
    [handle_import] returns nothing and changes nothing.  In a module
    that is not an initializer, a level equal to that number (one more
    than the parents there are: level 3 in ["pkg.sub.mod"]) is not caught
    by the guard: the relative name comes with an empty base package and
    the candidates are tried; when [importlib.import_module] refuses
    relative and empty names without a package and no candidate is a key
    of [sys.modules], every attempt fails, and [handle_import] returns
    nothing and changes nothing.  An import whose root is a built-in
    module never gets as far as its level: in a module that is a node of
    the import graph [handle_import] records the edge to the root and
    returns nothing, and in a module that is not it raises
    [ImportManagerError] and changes nothing. *)
Theorem relative_import_arithmetic :
  (∀ w,
     _get_module_path w = "pkg.sub.mod"%string → _is_init_file w = false →
     _handle_import_level "x" 1 w = Returns (".x"%string, "pkg.sub"%string) w ∧
     join_ns "pkg.sub" "x" = "pkg.sub.x"%string ∧
     ("pkg.sub.x"%string, ""%string) ∈ combos "x" ".x" "pkg.sub" ∧
     _handle_import_level "x" 2 w = Returns ("..x"%string, "pkg"%string) w ∧
     join_ns "pkg" "x" = "pkg.x"%string ∧
     ("pkg.x"%string, ""%string) ∈ combos "x" "..x" "pkg") ∧
  (∀ H w name level,
     hd EmptyString (Py.split Py.dot name) ∉ builtin_module_names (sys w) →
     (length (Py.split Py.dot (_get_module_path w)) < level)%nat →
     handle_import H name level w = Returns None w) ∧
  (∀ H w name level,
     hd EmptyString (Py.split Py.dot name) ∉ builtin_module_names (sys w) →
     _is_init_file w = false →
     level = length (Py.split Py.dot (_get_module_path w)) →
     _handle_import_level name level w
       = Returns (String.append (Py.repeat_str "." level) name, EmptyString) w ∧
     (import_module_checks_name H →
      (∀ c, c ∈ combos name (String.append (Py.repeat_str "." level) name) "" →
            modules (sys w) !! c.1 = None) →
      handle_import H name level w = Returns None w)) ∧
  (∀ H w name level,
     hd EmptyString (Py.split Py.dot name) ∈ builtin_module_names (sys w) →
     str_truthy (hd EmptyString (Py.split Py.dot name)) = true →
     is_Some (get_node (_get_module_path w) w) →
     ∃ w', handle_import H name level w = Returns None w' ∧
           hd EmptyString (Py.split Py.dot name) ∈ get_imports (_get_module_path w) w') ∧
  (∀ H w name level,
     hd EmptyString (Py.split Py.dot name) ∈ builtin_module_names (sys w) →
     get_node (_get_module_path w) w = None →
     ∃ msg, handle_import H name level w = Raises (ImportManagerError msg) w).
Proof.
  split; [|split; [|split; [|split]]].
  - intros w Hmod Hinit. unfold _handle_import_level. rewrite Hmod, Hinit. cbn.
    repeat split; try reflexivity.
    + cbn. set_solver.
    + cbn. set_solver.
  - intros H w name level Hroot Hlt.
    unfold handle_import, handle_import_traced, bind.
    rewrite bool_decide_eq_false_2 by done.
    by rewrite handle_import_level_beyond.
  - intros H w name level Hroot Hinit Hlevel.
    pose proof (handle_import_level_at_top name level w Hinit Hlevel) as Hat.
    split; [done|]. intros Hchecks Hfresh.
    assert (1 ≤ level)%nat as Hpos.
    { subst level. pose proof (PyFacts.split_nonempty Py.dot (_get_module_path w)).
      destruct (Py.split Py.dot (_get_module_path w)); [done|cbn; lia]. }
    pose proof (repeat_dot_prefix level name Hpos) as Hrel.
    set (mod_name := String.append (Py.repeat_str "." level) name) in *.
    unfold handle_import, handle_import_traced, bind.
    rewrite bool_decide_eq_false_2 by done. rewrite Hat.
    unfold combos in *. fold (parent_of mod_name) in *. fold (parent_of name) in *.
    destruct (do_import_refused H mod_name w Hchecks) as [e1 E1];
      [by right|apply (Hfresh (mod_name, ""%string)); set_solver|].
    destruct (do_import_refused H (parent_of mod_name) w Hchecks) as [e2 E2];
      [by apply parent_of_relative
      |apply (Hfresh (parent_of mod_name, ""%string)); set_solver|].
    destruct (do_import_refused H (join_ns "" name) w Hchecks) as [e3 E3];
      [right; apply join_ns_empty_relative
      |apply (Hfresh (join_ns "" name, ""%string)); set_solver|].
    destruct (do_import_refused H (join_ns "" (parent_of name)) w Hchecks) as [e4 E4];
      [right; apply join_ns_empty_relative
      |apply (Hfresh (join_ns "" (parent_of name), ""%string)); set_solver|].
    cbn [try_combos]. rewrite E1, E2, E3, E4. reflexivity.
  - intros H w name level Hroot Htruthy [nd Hnode].
    unfold handle_import, handle_import_traced, bind.
    rewrite bool_decide_eq_true_2 by done.
    unfold create_edge. cbn [truthy isinstance_str]. rewrite Htruthy, Hnode. cbn.
    eexists. split; [done|].
    rewrite get_imports_insert, decide_True by done. cbn. set_solver.
  - intros H w name level Hroot Hnode.
    unfold handle_import, handle_import_traced, bind.
    rewrite bool_decide_eq_true_2 by done.
    unfold create_edge. cbn [truthy isinstance_str]. rewrite Hnode.
    destruct (str_truthy _); cbn; eauto.
Qed.

Lemma relative_import_arithmetic_witness :
  (_handle_import_level "x" 1 example_world_sub
     = Returns (".x"%string, "pkg.sub"%string) example_world_sub ∧
   join_ns "pkg.sub" "x" = "pkg.sub.x"%string ∧
   ("pkg.sub.x"%string, ""%string) ∈ combos "x" ".x" "pkg.sub" ∧
   _handle_import_level "x" 2 example_world_sub
     = Returns ("..x"%string, "pkg"%string) example_world_sub ∧
   join_ns "pkg" "x" = "pkg.x"%string ∧
   ("pkg.x"%string, ""%string) ∈ combos "x" "..x" "pkg") ∧
  handle_import example_host "x" 4 example_world_sub = Returns None example_world_sub ∧
  (_handle_import_level "x" 3 example_world_sub
     = Returns ("...x"%string, ""%string) example_world_sub ∧
   handle_import example_host "x" 3 example_world_sub = Returns None example_world_sub) ∧
  (∃ w', handle_import example_host "sys.path" 4 example_world_sub = Returns None w' ∧
         "sys"%string ∈ get_imports "pkg.sub.mod" w') ∧
  (∃ msg, handle_import example_host "sys.path" 4 example_world_bare
            = Raises (ImportManagerError msg) example_world_bare).
Proof.
  destruct relative_import_arithmetic as (H1 & H2 & H3 & H4 & H5).
  assert (∀ name : string,
             hd EmptyString (Py.split Py.dot name) ≠ "sys"%string →
             hd EmptyString (Py.split Py.dot name) ≠ "builtins"%string →
             hd EmptyString (Py.split Py.dot name)
               ∉ builtin_module_names (sys example_world_sub)) as Hnot.
  { intros name Hs Hb Hin. apply list_elem_of_In in Hin. cbn in Hin.
    destruct Hin as [Hin|[Hin|[]]]; congruence. }
  split; [|split; [|split; [|split]]].
  - apply (H1 example_world_sub); reflexivity.
  - apply (H2 example_host example_world_sub "x"%string 4%nat).
    + by apply Hnot.
    + cbn. lia.
  - destruct (H3 example_host example_world_sub "x"%string 3%nat) as [Hlevel Hskip].
    + by apply Hnot.
    + reflexivity.
    + reflexivity.
    + split; [exact Hlevel|]. apply Hskip.
      * intros s mn Hmn. cbn.
        assert (String.eqb mn "ext" = false ∧ String.eqb mn "np" = false) as [-> ->];
          [|by (split; [|split; [|eexists]])].
        destruct Hmn as [->|Hmn]; [done|].
        destruct mn as [|c r]; [done|]. cbn [String.prefix] in Hmn.
        destruct (ascii_dec "." c) as [<-|]; done.
      * intros c Hc. reflexivity.
  - apply (H4 example_host example_world_sub "sys.path"%string 4%nat).
    + cbn. apply list_elem_of_In. cbn. by left.
    + reflexivity.
    + cbn. eexists. reflexivity.
  - apply (H5 example_host example_world_bare "sys.path"%string 4%nat).
    + cbn. apply list_elem_of_In. cbn. by left.
    + reflexivity.
Defined.

(** C3, the claim as it stands, fails.  An import with a built-in root
    and a level beyond the top, in a module that is not a node of the
    import graph, ends [handle_import] with [ImportManagerError] instead
    of a skip.  And at level 3 in ["pkg.sub.mod"], one more than the two
    parents there are, the guard lets the import through with the
    relative name ["...x"] and an empty base package; a module stored
    under that key of [sys.modules] is then taken and its name
    returned. *)
Lemma relative_import_skip_counterexample :
  (length (Py.split Py.dot (_get_module_path example_world_bare)) < 4)%nat ∧
  handle_import example_host "sys" 4 example_world_bare
    = Raises (ImportManagerError "Can't add edge to a non existing node") example_world_bare ∧
  _get_module_path example_world_dots = "pkg.sub.mod"%string ∧
  _is_init_file example_world_dots = false ∧
  _handle_import_level "x" 3 example_world_dots
    = Returns ("...x"%string, ""%string) example_world_dots ∧
  modules (sys example_world_dots) !! "...x"%string = Some (Some example_x) ∧
  ∃ n w', handle_import example_host "x" 3 example_world_dots = Returns (Some n) w'.
Proof.
  split; [cbn; lia|]. split; [reflexivity|]. split; [reflexivity|].
  split; [reflexivity|]. split; [reflexivity|]. split; [reflexivity|].
  eexists. eexists. vm_compute. reflexivity.
Qed.

(** C5.  For an import whose root is not a built-in module and whose
    level [_handle_import_level] accepts, with relative name [mod_name]
    and base [package]: [handle_import] never raises; the candidates
    are, in this order, [mod_name] with [package], the parent of
    [mod_name] with [package], [package.name] with no package, and
    [package.parent_of_name] with no package; the attempts made are
    those candidates in order, each failed one followed by the next, up
    to and including the first that loads; when all four fail the result
    is nothing. *)
Theorem handle_import_four_candidates H w name level mod_name package w0 :
  hd EmptyString (Py.split Py.dot name) ∉ builtin_module_names (sys w) →
  _handle_import_level name level w = Returns (mod_name, package) w0 →
  let cs := [ (mod_name, package);
              (parent_of mod_name, package);
              (String.append package (String.append "." name), ""%string);
              (String.append package (String.append "." (parent_of name)), ""%string) ] in
  ∃ res log m w',
    handle_import_traced H name level w = Returns (res, log) w' ∧
    handle_import H name level w = Returns res w' ∧
    replays H w cs log m w' ∧
    ((∃ pre c post, cs = pre ++ c :: post ∧ log = map failed pre ++ [(c, true)]) ∨
     (log = map failed cs ∧ m = None ∧ res = None)).
Proof.
  intros Hroot Hlvl cs.
  pose proof (handle_import_level_state _ _ _ _ _ Hlvl) as ->.
  assert (combos name mod_name package = cs) as Hcs by reflexivity.
  pose proof (try_combos_replays H cs w) as Hrep.
  unfold handle_import, bind, handle_import_traced.
  rewrite bool_decide_eq_false_2 by done. rewrite Hlvl, Hcs.
  destruct (try_combos H cs w) as [[m log] w1]. cbn in Hrep.
  pose proof (replays_shape _ _ _ _ _ _ Hrep) as Hshape.
  assert (∃ res, (match m with
                  | Some m0 =>
                      if lacks_file m0 then Returns (None, log) w1
                      else if outside_mod_dir w1 m0 then Returns (None, log) w1
                      else match module_file m0 with
                           | FileStr fname =>
                               Returns (Some (to_mod_name H (relpath H
                                 (if Py.endswith "__init__.py" fname
                                  then split_head H fname else fname)
                                 (mod_dir (im w1)))), log) w1
                           | _ => Returns (None, log) w1
                           end
                  | None => Returns (None, log) w1
                  end) = Returns (res, log) w1 ∧ (m = None → res = None))
    as (res & -> & Hnone).
  { destruct m as [m0|]; [|by exists None].
    destruct (lacks_file m0); [by exists None|].
    destruct (outside_mod_dir w1 m0); [by exists None|].
    destruct (module_file m0); eexists; split; done. }
  exists res, log, m, w1. do 3 (split; [done|]).
  destruct Hshape as [Hs|[Hl Hm]]; [by left|right]. auto.
Qed.

Lemma handle_import_four_candidates_witness :
  ∃ res log m w',
    handle_import_traced example_host "ext" 0 example_world = Returns (res, log) w' ∧
    handle_import example_host "ext" 0 example_world = Returns res w' ∧
    replays example_host example_world
      [ ("ext"%string, ""%string); (parent_of "ext", ""%string);
        (String.append "" (String.append "." "ext"), ""%string);
        (String.append "" (String.append "." (parent_of "ext")), ""%string) ]
      log m w' ∧
    ((∃ pre c post,
        [ ("ext"%string, ""%string); (parent_of "ext", ""%string);
          (String.append "" (String.append "." "ext"), ""%string);
          (String.append "" (String.append "." (parent_of "ext")), ""%string) ]
          = pre ++ c :: post ∧
        log = map failed pre ++ [(c, true)]) ∨
     (log = map failed
              [ ("ext"%string, ""%string); (parent_of "ext", ""%string);
                (String.append "" (String.append "." "ext"), ""%string);
                (String.append "" (String.append "." (parent_of "ext")), ""%string) ]
      ∧ m = None ∧ res = None)).
Proof.
  apply (handle_import_four_candidates example_host example_world "ext" 0
           "ext" "" example_world).
  - cbn. intros Hin. apply list_elem_of_In in Hin. cbn in Hin.
    destruct Hin as [Hin|[Hin|[]]]; discriminate Hin.
  - reflexivity.
Defined.

(** A root whose components are the first components of a path is a
    prefix of that path as a string, and so occurs in it. *)
Lemma components_prefix_string_prefix sep d p :
  components_prefix (Py.split sep d) (Py.split sep p) = true →
  String.prefix d p = true.
Proof.
  revert p. induction d as [|c d IH]; intros p; [by destruct p|].
  cbn [Py.split]. destruct (Ascii.eqb c sep) eqn:Hc.
  - apply Ascii.eqb_eq in Hc as ->.
    destruct p as [|c' p]; cbn [Py.split components_prefix].
    + pose proof (PyFacts.split_nonempty sep d). by destruct (Py.split sep d).
    + destruct (Ascii.eqb c' sep) eqn:Hc'.
      * apply Ascii.eqb_eq in Hc' as ->. cbn [components_prefix String.eqb andb].
        intros Hcp. cbn [String.prefix].
        destruct (ascii_dec sep sep); [by apply IH|congruence].
      * pose proof (PyFacts.split_nonempty sep p).
        by destruct (Py.split sep p).
  - pose proof (PyFacts.split_nonempty sep d) as Hd.
    destruct (Py.split sep d) as [|h t] eqn:Hsd; [done|].
    destruct p as [|c' p]; cbn [Py.split components_prefix]; [done|].
    pose proof (PyFacts.split_nonempty sep p) as Hp.
    destruct (Ascii.eqb c' sep) eqn:Hc'; cbn [components_prefix]; [done|].
    destruct (Py.split sep p) as [|h' t'] eqn:Hsp; [done|].
    cbn [components_prefix String.eqb].
    destruct (Ascii.eqb c c') eqn:Hcc; [|done].
    apply Ascii.eqb_eq in Hcc as <-.
    intros Hcp. cbn [String.prefix].
    destruct (ascii_dec c c); [|congruence].
    apply IH. rewrite Hsp. by cbn [components_prefix].
Qed.

(** A path in which the root string does not occur lies outside the
    root. *)
Lemma not_contained_outside_root d p :
  Py.contains d p = false → path_inside_root d p = false.
Proof.
  intros Hc. destruct (path_inside_root d p) eqn:Hin; [|done].
  apply components_prefix_string_prefix in Hin.
  destruct p; cbn [Py.contains] in Hc; by rewrite Hin in Hc.
Qed.

(** C4, as the code has it.  When a candidate loads a module that has
    no usable [__file__] (no attribute, [None] or empty), or when a
    package root is set and the root string does not occur in the
    module's [__file__], which then lies outside the root,
    [handle_import] returns nothing and ends in the very state the
    successful load left: no edge that was there before the import is
    gone, and the edges that load recorded are in the graph, to the name
    itself when [sys.modules] already had it and otherwise to each module
    a loader was constructed for.  A load that constructed no loader
    left the import manager as it found it: it recorded no edge. *)
Theorem handle_import_rejected_keeps_edges H w name level mod_name package w0 m log w1 :
  hd EmptyString (Py.split Py.dot name) ∉ builtin_module_names (sys w) →
  _handle_import_level name level w = Returns (mod_name, package) w0 →
  try_combos H (combos name mod_name package) w0 = (Some m, log, w1) →
  (lacks_file m = true ∨
   ∃ d p, mod_dir (im w1) = Some d ∧ module_file m = FileStr p ∧ Py.contains d p = false) →
  handle_import H name level w = Returns None w1 ∧
  (∀ d p, mod_dir (im w1) = Some d → module_file m = FileStr p →
          Py.contains d p = false → path_inside_root d p = false) ∧
  (∀ k, get_imports k w ⊆ get_imports k w1) ∧
  ∃ mn pkg w_pre,
    (mn, pkg) ∈ combos name mod_name package ∧
    _do_import H mn pkg w_pre = Returns (Some m) w1 ∧
    (is_Some (modules (sys w_pre) !! mn) →
       mn ∈ get_imports (current_module (im w)) w1) ∧
    (modules (sys w_pre) !! mn = None →
       str_truthy (current_module (im w)) = true →
       ∀ fullname p,
         (fullname, p) ∈ io_loads (import_module H (sys w_pre) mn pkg) →
         fullname ∈ get_imports (current_module (im w)) w1) ∧
    (modules (sys w_pre) !! mn = None →
       io_loads (import_module H (sys w_pre) mn pkg) = [] →
       im w1 = im w_pre).
Proof.
  intros Hroot Hlvl Htry Hrej.
  pose proof (handle_import_level_state _ _ _ _ _ Hlvl) as ->.
  pose proof (try_combos_replays H (combos name mod_name package) w) as Hrep.
  pose proof (try_combos_grows H (combos name mod_name package) w) as Hg.
  rewrite Htry in Hrep, Hg. cbn in Hrep, Hg.
  split; [|split; [|split]].
  - unfold handle_import, bind, handle_import_traced.
    rewrite bool_decide_eq_false_2 by done. rewrite Hlvl, Htry.
    destruct Hrej as [Hl|(d & p & Hd & Hp & Hc)].
    + by rewrite Hl.
    + destruct (lacks_file m); [done|].
      unfold outside_mod_dir. by rewrite Hd, Hp, Hc.
  - intros d p _ _. apply not_contained_outside_root.
  - apply Hg.
  - destruct (replays_loaded _ _ _ _ _ _ Hrep) as (mn & pkg & w_pre & Hin & Hgp & Hd).
    exists mn, pkg, w_pre. do 2 (split; [done|]).
    destruct Hgp as (Hcur & _ & _).
    destruct (do_import_edges _ _ _ _ _ _ Hd) as [E1 E2].
    rewrite Hcur in E1, E2. do 2 (split; [done|]).
    intros Hnone Hloads. revert Hd.
    unfold _do_import, bind, importlib_import_module. rewrite Hnone, Hloads.
    cbn [run_loaders ret].
    destruct (io_result (import_module H (sys w_pre) mn pkg)) as [e|m'];
      cbn [raise ret]; [done|].
    by intros [= _ <-].
Qed.

Lemma handle_import_rejected_keeps_edges_witness :
  let r := try_combos example_host (combos "np" "np" "") example_world in
  handle_import example_host "np" 0 example_world = Returns None r.2 ∧
  (∀ d p, mod_dir (im r.2) = Some d → module_file example_np = FileStr p →
          Py.contains d p = false → path_inside_root d p = false) ∧
  (∀ k, get_imports k example_world ⊆ get_imports k r.2) ∧
  ∃ mn pkg w_pre,
    (mn, pkg) ∈ combos "np" "np" "" ∧
    _do_import example_host mn pkg w_pre = Returns (Some example_np) r.2 ∧
    (is_Some (modules (sys w_pre) !! mn) →
       mn ∈ get_imports (current_module (im example_world)) r.2) ∧
    (modules (sys w_pre) !! mn = None →
       str_truthy (current_module (im example_world)) = true →
       ∀ fullname p,
         (fullname, p) ∈ io_loads (import_module example_host (sys w_pre) mn pkg) →
         fullname ∈ get_imports (current_module (im example_world)) r.2) ∧
    (modules (sys w_pre) !! mn = None →
       io_loads (import_module example_host (sys w_pre) mn pkg) = [] →
       im r.2 = im w_pre).
Proof.
  intros r.
  apply (handle_import_rejected_keeps_edges example_host example_world "np" 0
           "np" "" example_world example_np r.1.2 r.2).
  - cbn. intros Hin. apply list_elem_of_In in Hin. cbn in Hin.
    destruct Hin as [Hin|[Hin|[]]]; discriminate Hin.
  - reflexivity.
  - vm_compute. reflexivity.
  - right. exists "/app"%string, "/usr/lib/np.py"%string. vm_compute. done.
Defined.

(** C4, the claim as it stands, fails, in two ways.  With the package
    root ["/app"], the module found at ["/usr/lib/app/ext.py"] lies
    outside the root, yet the root string occurs in its path and
    [handle_import] returns a name for it.  And the namespace package
    ["nspkg"], which has no file, is rejected after a load that
    constructed no loader: the import graph is as it was before the
    import, with no edge from the module under analysis. *)
Lemma handle_import_outside_root_counterexample :
  (mod_dir (im example_world) = Some "/app"%string ∧
   path_inside_root "/app" "/usr/lib/app/ext.py" = false ∧
   ∃ mn pkg w_pre w',
     _do_import example_host mn pkg w_pre = Returns (Some example_ext) w' ∧
     module_file example_ext = FileStr "/usr/lib/app/ext.py" ∧
     ∃ canonical,
       handle_import example_host "ext" 0 example_world = Returns (Some canonical) w') ∧
  (lacks_file example_nspkg = true ∧
   ∃ mn pkg w_pre w',
     _do_import example_host_ns mn pkg w_pre = Returns (Some example_nspkg) w' ∧
     handle_import example_host_ns "nspkg" 0 example_world = Returns None w' ∧
     import_graph (im w') = import_graph (im example_world) ∧
     get_imports (current_module (im example_world)) w' = ∅).
Proof.
  split.
  - split; [reflexivity|]. split; [reflexivity|].
    exists "ext"%string, ""%string, example_world.
    eexists. split; [vm_compute; reflexivity|]. split; [reflexivity|].
    eexists. vm_compute. reflexivity.
  - split; [reflexivity|].
    exists "nspkg"%string, ""%string, example_world.
    eexists. split; [vm_compute; reflexivity|]. split; [vm_compute; reflexivity|].
    split; reflexivity.
Qed.

End ImportsFacts.


(** ** The driver *)

Module DriverFacts.
Import Driver.

Section Snapshots.

Context {Others : Type}.
Implicit Types g : generator Others.

Lemma defs_agree_spec (curr prev : gmap string def_state) :
  defs_agree curr prev = true ↔
  ∀ k d, curr !! k = Some d →
         ∃ d', prev !! k = Some d' ∧ names d = names d' ∧ lit d = lit d'.
Proof.
  unfold defs_agree. rewrite forallb_forall. split.
  - intros Hall k d Hk.
    specialize (Hall (k, d)). cbn in Hall.
    assert (In (k, d) (map_to_list curr)) as Hin
      by (apply list_elem_of_In; by apply elem_of_map_to_list).
    specialize (Hall Hin). destruct (prev !! k) as [d'|]; [|done].
    apply andb_true_iff in Hall as [H1 H2].
    apply bool_decide_eq_true in H1, H2. eauto.
  - intros Hall [k d] Hin. cbn.
    apply list_elem_of_In, elem_of_map_to_list in Hin.
    destruct (Hall k d Hin) as (d' & -> & H1 & H2).
    apply andb_true_iff. split; by apply bool_decide_eq_true.
Qed.

Lemma scopes_agree_spec (curr prev : gmap string (gset string)) :
  scopes_agree curr prev = true ↔ ∀ k s, curr !! k = Some s → prev !! k = Some s.
Proof.
  unfold scopes_agree. rewrite forallb_forall. split.
  - intros Hall k s Hk.
    specialize (Hall (k, s)). cbn in Hall.
    assert (In (k, s) (map_to_list curr)) as Hin
      by (apply list_elem_of_In; by apply elem_of_map_to_list).
    specialize (Hall Hin). destruct (prev !! k) as [s'|]; [|done].
    apply bool_decide_eq_true in Hall. by subst.
  - intros Hall [k s] Hin. cbn.
    apply list_elem_of_In, elem_of_map_to_list in Hin.
    rewrite (Hall k s Hin). by apply bool_decide_eq_true.
Qed.

Lemma classes_agree_spec (curr prev : gmap string (list string)) :
  classes_agree curr prev = true ↔ ∀ k c, curr !! k = Some c → prev !! k = Some c.
Proof.
  unfold classes_agree. rewrite forallb_forall. split.
  - intros Hall k c Hk.
    specialize (Hall (k, c)). cbn in Hall.
    assert (In (k, c) (map_to_list curr)) as Hin
      by (apply list_elem_of_In; by apply elem_of_map_to_list).
    specialize (Hall Hin). destruct (prev !! k) as [c'|]; [|done].
    apply bool_decide_eq_true in Hall. by subst.
  - intros Hall [k c] Hin. cbn.
    apply list_elem_of_In, elem_of_map_to_list in Hin.
    rewrite (Hall k c Hin). by apply bool_decide_eq_true.
Qed.

Lemma snapshots_agree_refl (s : snapshot) : snapshots_agree s s = true.
Proof.
  unfold snapshots_agree. rewrite !andb_true_iff. split; [split|].
  - apply defs_agree_spec. eauto.
  - by apply scopes_agree_spec.
  - by apply classes_agree_spec.
Qed.

(** C1, as the code has it.  [has_converged] is true exactly when there
    is an earlier snapshot and every key of the current snapshot is also
    in the earlier one with an equal value: equal name-pointee and
    literal-pointee sets for a definition, an equal namespace set for a
    scope, an equal ancestor list for a class.  Keys that only the earlier
    snapshot has are not looked at.  Taking the snapshot and asking at
    once, with nothing run in between, gives true. *)
Theorem has_converged_compares_current_keys g :
  (has_converged g = true ↔
   ∃ prev, state g = Some prev ∧
     (∀ k d, st_defs (extract_state g) !! k = Some d →
             ∃ d', st_defs prev !! k = Some d' ∧ names d = names d' ∧ lit d = lit d') ∧
     (∀ k s, st_scopes (extract_state g) !! k = Some s → st_scopes prev !! k = Some s) ∧
     (∀ k c, st_classes (extract_state g) !! k = Some c → st_classes prev !! k = Some c)) ∧
  has_converged (set_state (Some (extract_state g)) g) = true.
Proof.
  split.
  - unfold has_converged. destruct (state g) as [prev|].
    + unfold snapshots_agree. rewrite !andb_true_iff.
      rewrite defs_agree_spec, scopes_agree_spec, classes_agree_spec. split.
      * intros [[H1 H2] H3]. by exists prev.
      * intros (p & [= <-] & H1 & H2 & H3). done.
    + split; [done|]. by intros (p & Hp & _).
  - unfold has_converged. cbn. apply snapshots_agree_refl.
Qed.

End Snapshots.

Section Loop.

Context {Others : Type}.
Variable C : collaborators Others.
Implicit Types g : generator Others.

Lemma same_config_refl g : same_config g g.
Proof. by repeat split. Qed.

Lemma same_config_trans g1 g2 g3 :
  same_config g1 g2 → same_config g2 g3 → same_config g1 g3.
Proof. intros (?&?&?&?) (?&?&?&?). repeat split; congruence. Qed.

Lemma on_mgrs_config {A} (m : method (managers Others) A) g :
  same_config g (final_state (on_mgrs m g)).
Proof. unfold on_mgrs. destruct (m (mgrs g)); by repeat split. Qed.

Lemma bind_config {A B} (m : method (generator Others) A)
    (k : A → method (generator Others) B) g :
  same_config g (final_state (m g)) →
  (∀ a g1, same_config g1 (final_state (k a g1))) →
  same_config g (final_state (bind m k g)).
Proof.
  intros Hm Hk. unfold bind. destruct (m g) as [a g1|e g1]; cbn in *; [|done].
  eapply same_config_trans; [done|apply Hk].
Qed.

Lemma analyse_entry_config cls hooks pkg file md ma g :
  same_config g (final_state (analyse_entry C cls hooks pkg file md ma g).2).
Proof.
  assert (∀ g1, same_config g1 (final_state
            match on_mgrs (run_pass C cls file md ma) g1 with
            | Raises e g2 => Raises e g2
            | Returns (shared, analyzed) g2 => Returns (shared ∪ analyzed) g2
            end)) as Hrun.
  { intros g1. pose proof (on_mgrs_config (run_pass C cls file md ma) g1) as Hc.
    destruct (on_mgrs _ g1) as [[sh an] g2|e g2]; done. }
  unfold analyse_entry. destruct hooks; [|apply Hrun].
  pose proof (bind_config (on_imports (Imports.set_pkg pkg))
                (λ _, on_imports (Imports.install_hooks (os C))) g
                (on_mgrs_config _ g) (λ _ g1, on_mgrs_config _ g1)) as Hi.
  destruct (bind _ _ g) as [[] g1|e g1]; cbn in Hi; [|exact Hi].
  specialize (Hrun g1).
  destruct (on_mgrs (run_pass C cls file md ma) g1) as [[sh an] g2|e g2];
    cbn in Hrun; cbn -[bind remove_import_hooks].
  - eapply same_config_trans; [done|]. eapply same_config_trans; [done|].
    apply bind_config; [apply on_mgrs_config|]. intros. apply same_config_refl.
  - by eapply same_config_trans.
Qed.

Lemma do_pass_from_config cls hooks eps ma g :
  same_config g (final_state (do_pass_from C cls hooks eps ma g).2).
Proof.
  revert ma g. induction eps as [|ep rest IH]; intros ma g; cbn.
  - apply same_config_refl.
  - destruct (negb (str_truthy _)); [apply IH|].
    case_decide; [apply IH|].
    pose proof (analyse_entry_config cls hooks
      (if negb (str_truthy (package g))
       then Imports.dirname (os C) (Imports.abspath (os C) ep) else package g)
      (Imports.abspath (os C) ep) (_get_mod_name C ep (package g)) ma g) as Ha.
    destruct (analyse_entry _ _ _ _ _ _ _ _) as [evs [ma' g'|e g']]; cbn in *; [|done].
    specialize (IH ma' g').
    destruct (do_pass_from C cls hooks rest ma' g') as [evs' r]. cbn in *.
    by eapply same_config_trans.
Qed.

Lemma do_pass_config cls hooks g :
  same_config g (final_state (do_pass C cls hooks g)).
Proof. apply do_pass_from_config. Qed.

Lemma loop_body_config g : same_config g (final_state (loop_body C g)).
Proof.
  unfold loop_body.
  apply bind_config; [by repeat split|]. intros _ g1.
  apply bind_config; [apply on_mgrs_config|]. intros _ g2.
  apply bind_config; [apply do_pass_config|]. intros _ g3.
  apply on_mgrs_config.
Qed.

Lemma stage1_config g : same_config g (final_state (stage1 C g)).
Proof.
  unfold stage1. apply bind_config; [apply do_pass_config|]. intros _ g1.
  apply on_mgrs_config.
Qed.

(** When the loop is left normally after [n] turns from [iter_cnt = i],
    the guard held before each of the turns and fails at the end. *)
Lemma fixed_point_turns fuel i g n g' :
  fixed_point C fuel i g = Some (Returns n g') →
  ∃ k : nat,
    n = i + Z.of_nat k ∧
    iterate_body C k g = Returns tt g' ∧
    loop_guard n g' = false ∧
    ∀ j : nat, (j < k)%nat →
      ∃ gj, iterate_body C j g = Returns tt gj ∧ loop_guard (i + Z.of_nat j) gj = true.
Proof.
  revert i g. induction fuel as [|fuel IH]; intros i g; cbn [fixed_point].
  - destruct (loop_guard i g) eqn:Hg; [done|]. intros [= <- <-].
    exists 0%nat. rewrite Z.add_0_r. repeat split; try done. lia.
  - destruct (loop_guard i g) eqn:Hg.
    + destruct (loop_body C g) as [[] g1|e g1] eqn:Hb; [|done].
      intros Hfp. destruct (IH _ _ Hfp) as (k & -> & Hit & Hend & Hturns).
      exists (S k). split; [lia|]. split; [|split].
      * cbn [iterate_body]. unfold bind at 1. by rewrite Hb.
      * replace (i + Z.of_nat (S k)) with (i + 1 + Z.of_nat k) by lia. done.
      * intros [|j] Hj.
        -- exists g. rewrite Z.add_0_r. done.
        -- destruct (Hturns j ltac:(lia)) as (gj & Hgj & Hguard).
           exists gj. split.
           ++ cbn [iterate_body]. unfold bind at 1. by rewrite Hb.
           ++ replace (i + Z.of_nat (S j)) with (i + 1 + Z.of_nat j) by lia. done.
    + intros [= <- <-]. exists 0%nat. rewrite Z.add_0_r. repeat split; try done. lia.
Qed.

(** The loop ends with an exception only when a turn of its body raised. *)
Lemma fixed_point_raises fuel i g e g' :
  fixed_point C fuel i g = Some (Raises e g') →
  ∃ j : nat, iterate_body C (S j) g = Raises e g'.
Proof.
  revert i g. induction fuel as [|fuel IH]; intros i g; cbn [fixed_point].
  - by destruct (loop_guard i g).
  - destruct (loop_guard i g); [|done].
    destruct (loop_body C g) as [[] g1|e1 g1] eqn:Hb.
    + intros Hfp. destruct (IH _ _ Hfp) as (j & Hj).
      exists (S j). cbn [iterate_body] in *. unfold bind at 1. by rewrite Hb.
    + intros [= <- <-]. exists 0%nat. cbn [iterate_body]. unfold bind. by rewrite Hb.
Qed.

(** With a cap, as many turns of fuel as the cap leaves are enough. *)
Lemma fixed_point_capped fuel i g :
  0 ≤ i ≤ max_iter g → max_iter g - i ≤ Z.of_nat fuel →
  ∃ r, fixed_point C fuel i g = Some r ∧
       ∀ n g', r = Returns n g' → i ≤ n ≤ max_iter g'.
Proof.
  revert i g. induction fuel as [|fuel IH]; intros i g Hi Hfuel; cbn [fixed_point].
  - destruct (loop_guard i g) eqn:Hg.
    + unfold loop_guard in Hg. apply andb_true_iff in Hg as [Hg _].
      apply orb_true_iff in Hg as [Hg|Hg]; [apply Z.ltb_lt in Hg|apply Z.ltb_lt in Hg]; lia.
    + eexists. split; [done|]. intros n g' [= <- <-]. lia.
  - destruct (loop_guard i g) eqn:Hg.
    + assert (i < max_iter g) as Hlt.
      { unfold loop_guard in Hg. apply andb_true_iff in Hg as [Hg _].
        apply orb_true_iff in Hg as [Hg|Hg]; apply Z.ltb_lt in Hg; lia. }
      pose proof (loop_body_config g) as (_ & _ & Hmax & _).
      destruct (loop_body C g) as [[] g1|e g1]; cbn in Hmax.
      * destruct (IH (i + 1) g1) as (r & Hr & Hbound); [lia|lia|].
        exists r. split; [done|]. intros n g' ->.
        specialize (Hbound n g' eq_refl). lia.
      * eexists. split; [done|]. intros n g' [=].
    + eexists. split; [done|]. intros n g' [= <- <-]. lia.
Qed.

(** C2.  The loop runs exactly while its guard
    [(max_iter < 0 or iter_cnt < max_iter) and not has_converged()] holds:
    when it is left normally after [k] turns, the guard held before each
    of them and fails after the last.  With a cap, fuel for [max_iter]
    turns always suffices and the loop makes at most [max_iter] turns.
    With [max_iter = 0] the loop makes no turn and leaves the generator
    untouched, whatever the fuel, and [analyze] is Stage 1 followed at
    once by Stage 3, on the state Stage 1 left. *)
Theorem fixed_point_loop_and_cap :
  (∀ fuel g n g',
     fixed_point C fuel 0 g = Some (Returns n g') →
     ∃ k : nat,
       n = Z.of_nat k ∧
       iterate_body C k g = Returns tt g' ∧
       (((max_iter g' <? 0) || (n <? max_iter g')) && negb (has_converged g')) = false ∧
       ∀ j : nat, (j < k)%nat →
         ∃ gj, iterate_body C j g = Returns tt gj ∧
               (((max_iter gj <? 0) || (Z.of_nat j <? max_iter gj))
                && negb (has_converged gj)) = true) ∧
  (∀ g, 0 ≤ max_iter g →
     ∃ r, fixed_point C (Z.to_nat (max_iter g)) 0 g = Some r ∧
          (∀ n g', r = Returns n g' → 0 ≤ n ≤ max_iter g) ∧
          (∀ e g', r = Raises e g' → ∃ j : nat, iterate_body C (S j) g = Raises e g')) ∧
  (∀ fuel g, max_iter g = 0 →
     fixed_point C fuel 0 g = Some (Returns 0 g) ∧
     iterate_body C 0 g = Returns tt g ∧
     analyze C fuel g = Some ((stage1 C ;;; stage3 C) g)).
Proof.
  split; [|split].
  - intros fuel g n g' Hfp.
    destruct (fixed_point_turns _ _ _ _ _ Hfp) as (k & -> & Hit & Hend & Hturns).
    exists k. split; [lia|]. split; [done|]. split; [done|].
    intros j Hj. destruct (Hturns j Hj) as (gj & Hgj & Hguard). by exists gj.
  - intros g Hmax.
    destruct (fixed_point_capped (Z.to_nat (max_iter g)) 0 g) as (r & Hr & Hbound);
      [lia|lia|].
    exists r. split; [done|]. split; [|intros e g' ->; by eapply fixed_point_raises].
    intros n g' ->.
    destruct (fixed_point_turns _ _ _ _ _ Hr) as (k & _ & Hit & _).
    specialize (Hbound n g' eq_refl).
    assert (max_iter g' = max_iter g) as <-; [|lia].
    clear -Hit. revert g Hit. induction k as [|k IH]; intros g; cbn [iterate_body].
    + by intros [= <-].
    + unfold bind at 1. pose proof (loop_body_config g) as (_ & _ & Hm & _).
      destruct (loop_body C g) as [[] g1|e g1]; [|done]. cbn in Hm.
      intros Hit. rewrite <- Hm. by apply IH.
  - intros fuel g Hzero.
    assert (∀ g0, max_iter g0 = 0 → fixed_point C fuel 0 g0 = Some (Returns 0 g0)) as Hfp.
    { intros g0 H0. destruct fuel; cbn [fixed_point]; unfold loop_guard; by rewrite H0. }
    split; [by apply Hfp|]. split; [done|].
    unfold analyze, bind.
    pose proof (stage1_config g) as (_ & _ & Hm & _).
    destruct (stage1 C g) as [[] g1|e g1]; [|done]. cbn in Hm.
    rewrite Hfp by congruence. done.
Qed.

(** *** Hooks around the passes *)

Lemma remove_import_hooks_restored g :
  ∃ g', remove_import_hooks g = Returns tt g' ∧ restored (import_manager (mgrs g')).
Proof. eexists. split; [reflexivity|]. by split. Qed.

(** One analysed entry point with the hooks on. *)
Lemma analyse_entry_hooks cls pkg file md ma g :
  match (analyse_entry C cls true pkg file md ma g).2 with
  | Returns _ g' =>
      (analyse_entry C cls true pkg file md ma g).1 = cycle cls (file, md) ∧
      restored (import_manager (mgrs g'))
  | Raises _ _ =>
      (analyse_entry C cls true pkg file md ma g).1 = [EvInstall] ∨
      (analyse_entry C cls true pkg file md ma g).1 = [EvInstall; EvPass cls file md]
  end.
Proof.
  unfold analyse_entry.
  destruct (bind _ _ g) as [[] g1|e g1]; [|by left].
  destruct (on_mgrs (run_pass C cls file md ma) g1) as [[sh an] g2|e g2]; [|by right].
  destruct (remove_import_hooks_restored g2) as (g3 & Hrm & Hres).
  cbn [fst snd]. unfold bind. rewrite Hrm. done.
Qed.

Lemma do_pass_from_hooks cls eps ma g :
  ∃ cycles tail,
    (do_pass_from C cls true eps ma g).1 = flat_map (cycle cls) cycles ++ tail ∧
    match (do_pass_from C cls true eps ma g).2 with
    | Returns _ g' =>
        tail = [] ∧
        (cycles = [] → g' = g) ∧
        (cycles ≠ [] → restored (import_manager (mgrs g')))
    | Raises _ _ =>
        tail = [EvInstall] ∨ ∃ f m, tail = [EvInstall; EvPass cls f m]
    end.
Proof.
  revert ma g. induction eps as [|ep rest IH]; intros ma g; cbn [do_pass_from].
  - exists [], []. by repeat split.
  - destruct (negb (str_truthy _)); [apply IH|].
    case_decide; [apply IH|].
    set (pkg := if negb (str_truthy (package g))
                then Imports.dirname (os C) (Imports.abspath (os C) ep) else package g).
    set (file := Imports.abspath (os C) ep).
    set (md := _get_mod_name C ep (package g)).
    pose proof (analyse_entry_hooks cls pkg file md ma g) as Ha.
    destruct (analyse_entry C cls true pkg file md ma g) as [evs [ma' g'|e g']];
      cbn [fst snd] in *.
    + destruct Ha as [-> Hres].
      destruct (IH ma' g') as (cycles & tail & Hev & Hr).
      destruct (do_pass_from C cls true rest ma' g') as [evs' r]. cbn [fst snd] in *.
      exists ((file, md) :: cycles), tail. split.
      * cbn [flat_map]. rewrite Hev. by rewrite <- app_assoc.
      * destruct r as [[] g''|e g'']; [|done].
        destruct Hr as (-> & Hnil & Hcons). split; [done|]. split; [done|].
        intros _. destruct cycles as [|c cs]; [by rewrite Hnil|by apply Hcons].
    + exists [], evs. split; [done|].
      destruct Ha as [->| ->]; [by left|right; eauto].
Qed.

(** One analysed entry point with the hooks on, when the passes leave
    the hooks alone: what became of [sys.path_hooks] and [sys.path]. *)
Lemma analyse_entry_sys_paths cls pkg file md ma g :
  passes_keep_hooks C →
  match analyse_entry C cls true pkg file md ma g with
  | (_, Returns _ g') =>
      hooks_of g' = hooks_of g ∧ sys_path_of g' = sys_path_of g
  | (evs, Raises e g') =>
      (evs = [EvInstall] ∧ (∃ msg, e = AttributeError msg) ∧
       (((Imports.importlib_abc_loaded (os C) = false ∨ hooks_of g = None) ∧
         hooks_of g' = hooks_of g ∧ sys_path_of g' = sys_path_of g) ∨
        (∃ hooks, hooks_of g = Some hooks ∧ sys_path_of g = None ∧
           hooks_of g' = Some (Imports.CustomLoaderHook :: hooks) ∧
           sys_path_of g' = None))) ∨
      (evs = [EvInstall; EvPass cls file md] ∧
       ∃ hooks p,
         hooks_of g = Some hooks ∧ sys_path_of g = Some p ∧
         hooks_of g' = Some (Imports.CustomLoaderHook :: hooks) ∧
         sys_path_of g' = Some (Imports.abspath (os C) pkg :: p))
  end.
Proof.
  intros Hkeep. unfold analyse_entry, hooks_of, sys_path_of.
  destruct g as [eps pk st mi op [[m [ph p ms pic bmn]] scm dm cm gr ot]].
  unfold bind, on_imports, on_mgrs, Imports.set_pkg, Imports.install_hooks.
  cbn [mgrs import_manager with_mgrs with_import_manager Imports.with_im Imports.with_sys
       Imports.sys Imports.im Imports.path_hooks Imports.path Imports.mod_dir].
  destruct (Imports.importlib_abc_loaded (os C)); cbn [negb];
    [|left; split; [done|]; split; [eauto|]; left; cbn; eauto].
  destruct ph as [hooks|];
    cbn [mgrs import_manager with_mgrs with_import_manager Imports.with_im Imports.with_sys
         Imports.sys Imports.im Imports.path_hooks Imports.path Imports.mod_dir];
    [|left; split; [done|]; split; [eauto|]; left; cbn; eauto].
  destruct p as [p|];
    cbn [mgrs import_manager with_mgrs with_import_manager Imports.with_im Imports.with_sys
         Imports.sys Imports.im Imports.path_hooks Imports.path Imports.mod_dir
         Imports._clear_caches];
    [|left; split; [done|]; split; [eauto|]; right; cbn; eauto].
  match goal with
  | |- context [run_pass C cls file md ma ?ms0] =>
      pose proof (Hkeep cls file md ma ms0) as (Hph & Hp & Hoph & Hop);
      destruct (run_pass C cls file md ma ms0) as [[sh an] ms1|e ms1]
  end; cbn in Hph, Hp, Hoph, Hop.
  - unfold remove_import_hooks, on_imports, on_mgrs, Imports.remove_hooks, Imports._clear_caches.
    cbn. by rewrite Hoph, Hop.
  - right. split; [done|]. exists hooks, p. cbn. by rewrite Hph, Hp.
Qed.

Lemma do_pass_from_sys_paths cls eps ma g :
  passes_keep_hooks C →
  match do_pass_from C cls true eps ma g with
  | (_, Returns _ g') =>
      hooks_of g' = hooks_of g ∧ sys_path_of g' = sys_path_of g
  | (evs, Raises e g') =>
      (last evs = Some EvInstall ∧ (∃ msg, e = AttributeError msg) ∧
       (((Imports.importlib_abc_loaded (os C) = false ∨ hooks_of g = None) ∧
         hooks_of g' = hooks_of g ∧ sys_path_of g' = sys_path_of g) ∨
        (∃ hooks, hooks_of g = Some hooks ∧ sys_path_of g = None ∧
           hooks_of g' = Some (Imports.CustomLoaderHook :: hooks) ∧
           sys_path_of g' = None))) ∨
      ((∃ f m, last evs = Some (EvPass cls f m)) ∧
       ∃ hooks p pkg,
         hooks_of g = Some hooks ∧ sys_path_of g = Some p ∧
         hooks_of g' = Some (Imports.CustomLoaderHook :: hooks) ∧
         sys_path_of g' = Some (Imports.abspath (os C) pkg :: p))
  end.
Proof.
  intros Hkeep. revert ma g. induction eps as [|ep rest IH]; intros ma g; cbn [do_pass_from].
  - done.
  - destruct (negb (str_truthy _)); [apply IH|].
    case_decide; [apply IH|].
    set (pkg := if negb (str_truthy (package g))
                then Imports.dirname (os C) (Imports.abspath (os C) ep) else package g).
    set (file := Imports.abspath (os C) ep).
    set (md := _get_mod_name C ep (package g)).
    pose proof (analyse_entry_sys_paths cls pkg file md ma g Hkeep) as Ha.
    pose proof (analyse_entry_hooks cls pkg file md ma g) as Hev.
    destruct (analyse_entry C cls true pkg file md ma g) as [evs [ma' g'|e g']];
      cbn [fst snd] in *.
    + destruct Ha as [Hh Hp]. destruct Hev as [-> _].
      specialize (IH ma' g').
      destruct (do_pass_from C cls true rest ma' g') as [evs' [[] g''|e g'']].
      * destruct IH as [Hh' Hp']. split; congruence.
      * assert (∀ x, last evs' = Some x → last (cycle cls (file, md) ++ evs') = Some x) as Hlast.
        { intros x Hx. rewrite last_app, Hx. done. }
        rewrite Hh, Hp in IH.
        destruct IH as [(Hl & He & Hst)|((f & m & Hl) & Hst)].
        -- left. split; [by apply Hlast|]. done.
        -- right. split; [exists f, m; by apply Hlast|]. done.
    + destruct Ha as [(-> & He & Hst)|(-> & hooks & p & Hst)].
      * left. done.
      * right. split; [by exists file, md|]. by exists hooks, p, pkg.
Qed.

(** C7, as the code has it.  With the hooks on, the events of [do_pass]
    are, for each entry point whose pass returned, the install, the pass
    and the removal, one such group after the other.  After a normal
    return there is nothing else, [sys.path_hooks] and [sys.path] are
    what the last removal put back and, when the passes leave the hooks
    alone, what they were before [do_pass]: no hook is left installed.
    When [do_pass] ends with an exception the events end with an install
    that raised, or with an install and the pass that raised: no removal
    follows.  When the passes leave the hooks alone, a pass that raised
    leaves the loader's hook first in [sys.path_hooks] and the root
    first in [sys.path]; an install that raised did so with an
    [AttributeError], and either changed neither list ([importlib.abc]
    not loaded, or [sys.path_hooks] unset) or left the loader's hook
    first in [sys.path_hooks] ([sys.path] unset). *)
Theorem do_pass_hooks_paired cls g :
  ∃ cycles tail,
    (do_pass_traced C cls true g).1 = flat_map (cycle cls) cycles ++ tail ∧
    match do_pass C cls true g with
    | Returns _ g' =>
        tail = [] ∧
        (cycles ≠ [] → restored (import_manager (mgrs g'))) ∧
        (passes_keep_hooks C →
           hooks_of g' = hooks_of g ∧ sys_path_of g' = sys_path_of g)
    | Raises e g' =>
        (tail = [EvInstall] ∧
         (passes_keep_hooks C →
            (∃ msg, e = AttributeError msg) ∧
            (((Imports.importlib_abc_loaded (os C) = false ∨ hooks_of g = None) ∧
              hooks_of g' = hooks_of g ∧ sys_path_of g' = sys_path_of g) ∨
             (∃ hooks, hooks_of g = Some hooks ∧ sys_path_of g = None ∧
                hooks_of g' = Some (Imports.CustomLoaderHook :: hooks) ∧
                sys_path_of g' = None)))) ∨
        ((∃ f m, tail = [EvInstall; EvPass cls f m]) ∧
         (passes_keep_hooks C →
            ∃ hooks p pkg,
              hooks_of g = Some hooks ∧ sys_path_of g = Some p ∧
              hooks_of g' = Some (Imports.CustomLoaderHook :: hooks) ∧
              sys_path_of g' = Some (Imports.abspath (os C) pkg :: p) ∧
              Imports.hooks_installed (import_manager (mgrs g')) = true))
    end.
Proof.
  unfold do_pass, do_pass_traced.
  destruct (do_pass_from_hooks cls (entry_points g) ∅ g) as (cycles & tail & Hev & Hr).
  pose proof (do_pass_from_sys_paths cls (entry_points g) ∅ g) as Hst.
  exists cycles, tail. split; [done|].
  destruct (do_pass_from C cls true (entry_points g) ∅ g) as [evs [[] g'|e g']];
    cbn [fst snd] in *.
  - destruct Hr as (-> & _ & Hres). split; [done|]. split; [done|]. done.
  - assert (last evs = last tail) as Hlast.
    { rewrite Hev. destruct Hr as [->|(f & m & ->)]; by rewrite last_app. }
    destruct Hr as [->|(f & m & ->)].
    + left. split; [done|]. intros Hkeep.
      destruct (Hst Hkeep) as [(_ & He & Hcases)|((f & m & Hl) & _)]; [done|].
      rewrite Hlast in Hl. done.
    + right. split; [eauto|]. intros Hkeep.
      destruct (Hst Hkeep) as [(Hl & _)|(_ & hooks & p & pkg & Hh & Hp & Hh' & Hp')].
      * rewrite Hlast in Hl. done.
      * exists hooks, p, pkg. do 4 (split; [done|]).
        unfold Imports.hooks_installed. unfold hooks_of in Hh'. rewrite Hh'.
        apply bool_decide_eq_true. set_solver.
Qed.

End Loop.

(** C1, the claim as it stands, fails: the earlier snapshot has the key
    ["f"] and the current one does not, so a key is present in only one
    of the two, and [has_converged] is true. *)
Lemma has_converged_key_only_in_prior_counterexample :
  ∃ prev d,
    state example_shrunk = Some prev ∧
    st_defs prev !! "f"%string = Some d ∧
    st_defs (extract_state example_shrunk) !! "f"%string = None ∧
    has_converged example_shrunk = true.
Proof.
  eexists. eexists. split; [reflexivity|]. split; [reflexivity|].
  split; reflexivity.
Qed.

Lemma fixed_point_loop_and_cap_witness :
  (∃ k : nat,
     1 = Z.of_nat k ∧
     iterate_body example_calm k example_capped
       = Returns tt (final_state (loop_body example_calm example_capped)) ∧
     (((max_iter (final_state (loop_body example_calm example_capped)) <? 0)
       || (1 <? max_iter (final_state (loop_body example_calm example_capped))))
      && negb (has_converged (final_state (loop_body example_calm example_capped)))) = false ∧
     ∀ j : nat, (j < k)%nat →
       ∃ gj, iterate_body example_calm j example_capped = Returns tt gj ∧
             (((max_iter gj <? 0) || (Z.of_nat j <? max_iter gj))
              && negb (has_converged gj)) = true) ∧
  (∃ r, fixed_point example_calm (Z.to_nat (max_iter example_capped)) 0 example_capped = Some r ∧
        (∀ n g', r = Returns n g' → 0 ≤ n ≤ max_iter example_capped) ∧
        (∀ e g', r = Raises e g' →
           ∃ j : nat, iterate_body example_calm (S j) example_capped = Raises e g')) ∧
  (fixed_point example_calm 5 0 example_generator = Some (Returns 0 example_generator) ∧
   iterate_body example_calm 0 example_generator = Returns tt example_generator ∧
   analyze example_calm 5 example_generator
     = Some ((stage1 example_calm ;;; stage3 example_calm) example_generator)).
Proof.
  destruct (fixed_point_loop_and_cap example_calm) as (H1 & H2 & H3).
  split; [|split].
  - apply (H1 3%nat example_capped 1
             (final_state (loop_body example_calm example_capped))).
    vm_compute. reflexivity.
  - apply (H2 example_capped). vm_compute. discriminate.
  - apply (H3 5%nat example_generator). reflexivity.
Defined.

(** C7, the claim as it stands, fails: when the pass of the one entry
    point raises, [do_pass] ends with the exception right after the pass,
    without a removal, and the loader's hook, which was not in
    [sys.path_hooks] before, is in it afterwards. *)
Lemma do_pass_raising_pass_counterexample :
  Imports.hooks_installed (import_manager (mgrs example_generator)) = false ∧
  (do_pass_traced example_failing PreProcessor true example_generator).1
    = [EvInstall; EvPass PreProcessor "/app/main.py" "main"] ∧
  ∃ e g',
    do_pass example_failing PreProcessor true example_generator = Raises e g' ∧
    Imports.hooks_installed (import_manager (mgrs g')) = true.
Proof.
  split; [reflexivity|]. split; [vm_compute; reflexivity|].
  eexists. eexists. split; [vm_compute; reflexivity|]. vm_compute. reflexivity.
Qed.

(** The pass of [example_importing] leaves the hooks alone. *)
Lemma example_importing_keeps_hooks : passes_keep_hooks example_importing.
Proof.
  intros cls file md ma ms. cbn [run_pass example_importing].
  match goal with
  | |- context [bind ?m ?k (import_manager ms)] =>
      assert (Imports.keeps_hooks (import_manager ms)
                (final_state (bind m k (import_manager ms)))) as Hk;
      [|by destruct (bind m k (import_manager ms))]
  end.
  apply ImportsFacts.bind_keeps_hooks; [apply ImportsFacts.create_node_keeps_hooks|].
  intros _ w1.
  apply ImportsFacts.bind_keeps_hooks; [apply ImportsFacts.set_current_mod_keeps_hooks|].
  intros _ w2. apply ImportsFacts.handle_import_keeps_hooks.
Qed.

Lemma do_pass_hooks_paired_witness :
  passes_keep_hooks example_importing ∧
  hooks_of (final_state (do_pass example_importing PreProcessor true example_generator))
    = hooks_of example_generator ∧
  sys_path_of (final_state (do_pass example_importing PreProcessor true example_generator))
    = sys_path_of example_generator.
Proof.
  split; [exact example_importing_keeps_hooks|].
  destruct (do_pass_hooks_paired example_importing PreProcessor example_generator)
    as (cycles & tail & _ & Hr).
  destruct (do_pass example_importing PreProcessor true example_generator)
    as [[] g'|e g'] eqn:E.
  - cbn [final_state]. destruct Hr as (_ & _ & Hst).
    exact (Hst example_importing_keeps_hooks).
  - vm_compute in E. discriminate E.
Defined.

End DriverFacts.


(** * Further properties *)

(** ** The call graph *)

Module CallGraphMore.
Import CallGraph CallGraphFacts.

Lemma valid_name_str n : valid_name (PyStr n) = str_truthy n.
Proof. reflexivity. Qed.

Lemma add_node_entrypoints name m g :
  ep (final_state (add_node name m g)) = ep g ∧
  ep_mod (final_state (add_node name m g)) = ep_mod g ∧
  entrypoints (final_state (add_node name m g)) = entrypoints g.
Proof.
  unfold add_node. destruct name as [|n|z]; [done| |done].
  destruct (str_truthy n); cbn; [|done].
  unfold backfill, backfill_extended, create_entry.
  repeat (case_decide || case_match); done.
Qed.

(** [add_node] on a well-formed graph, whatever the name. *)
Lemma add_node_cases name m g :
  wf g →
  match add_node name m g with
  | Returns _ g' =>
      wf g' ∧
      (∃ n, name = PyStr n ∧ str_truthy n = true ∧ dom (cg g') = {[ n ]} ∪ dom (cg g)) ∧
      (∀ k, adj_of k g' = adj_of k g) ∧ (∀ k, log_of k g' = log_of k g)
  | Raises e g' =>
      valid_name name = false ∧ g' = g ∧ ∃ msg, e = CallGraphError msg
  end.
Proof.
  intros Hwf. destruct name as [|n|z]; [cbn; eauto| |cbn; eauto].
  destruct (str_truthy n) eqn:Hn.
  - destruct (add_node_ok n m g Hwf Hn) as (g' & E & Hwf' & D & Ha & Hl).
    rewrite E. split; [done|]. split; [|done]. by exists n.
  - unfold add_node. rewrite Hn. cbn. eauto.
Qed.

(** [record_edge] on a well-formed graph that knows the source. *)
Lemma record_edge_ok s d ln m em g :
  wf g → s ∈ dom (cg g) →
  ∃ g', record_edge s d ln m em g = Returns tt g' ∧ wf g' ∧
        adj_of s g' = {[ d ]} ∪ adj_of s g ∧
        log_of s g' = log_of s g ++ [Edge d ln m em] ∧
        (∀ k, k ≠ s → adj_of k g' = adj_of k g ∧ log_of k g' = log_of k g) ∧
        ep g' = ep g ∧ ep_mod g' = ep_mod g ∧ entrypoints g' = entrypoints g ∧
        dom (cg g') = dom (cg g).
Proof.
  intros Hwf Hin. destruct (wf_lookups g s Hwf Hin) as (_ & [e He] & [out Hout]).
  unfold record_edge. rewrite Hout. cbn. rewrite He.
  eexists. split; [done|]. destruct Hwf as [W1 W2].
  assert (dom (<[s:={[d]} ∪ out]> (cg g)) = dom (cg g)) as Hdom
    by (rewrite dom_insert_L; set_solver).
  repeat split; cbn; try done.
  - rewrite dom_insert_L, W1. set_solver.
  - rewrite !dom_insert_L, W2. set_solver.
  - unfold adj_of, get. cbn. by rewrite lookup_insert_eq, Hout.
  - unfold log_of, get_extended. cbn. by rewrite lookup_insert_eq, He.
  - unfold adj_of, get. cbn. by rewrite lookup_insert_ne.
  - unfold log_of, get_extended. cbn. by rewrite lookup_insert_ne.
Qed.

(** [add_edge] on a well-formed graph, whatever the endpoints. *)
Lemma add_edge_cases src dest ln m em g :
  wf g →
  match add_edge src dest ln m em g with
  | Returns _ g' =>
      wf g' ∧
      ∃ s d, src = PyStr s ∧ dest = PyStr d ∧
             str_truthy s = true ∧ str_truthy d = true ∧
             adj_of s g' = {[ d ]} ∪ adj_of s g ∧
             log_of s g' = log_of s g ++ [Edge d ln m em] ∧
             (∀ k, k ≠ s → adj_of k g' = adj_of k g ∧ log_of k g' = log_of k g) ∧
             dom (cg g') = {[ s; d ]} ∪ dom (cg g)
  | Raises e g' =>
      (valid_name src = false ∨ valid_name dest = false) ∧
      (∃ msg, e = CallGraphError msg) ∧ wf g' ∧
      (∀ k, adj_of k g' = adj_of k g) ∧ (∀ k, log_of k g' = log_of k g) ∧
      dom (cg g) ⊆ dom (cg g')
  end.
Proof.
  intros Hwf. unfold add_edge, bind.
  pose proof (add_node_cases src m g Hwf) as H1.
  destruct (add_node src m g) as [[] g1|e g1].
  - destruct H1 as (Hwf1 & (s & -> & Hs & D1) & A1 & L1).
    pose proof (add_node_cases dest "" g1 Hwf1) as H2.
    destruct (add_node dest "" g1) as [[] g2|e g2].
    + destruct H2 as (Hwf2 & (d & -> & Hd & D2) & A2 & L2).
      destruct (record_edge_ok s d ln m em g2 Hwf2)
        as (g3 & E3 & Hwf3 & A3 & L3 & F3 & _ & _ & _ & D3).
      { rewrite D2, D1. set_solver. }
      rewrite E3. split; [done|]. exists s, d. do 4 (split; [done|]).
      split; [by rewrite A3, A2, A1|]. split; [by rewrite L3, L2, L1|].
      split; [|rewrite D3, D2, D1; set_solver].
      intros k Hk. destruct (F3 k Hk) as [-> ->]. by rewrite A2, A1, L2, L1.
    + destruct H2 as (Hv & -> & Hmsg). split; [by right|].
      do 4 (split; [done|]). rewrite D1. set_solver.
  - destruct H1 as (Hv & -> & Hmsg). split; [by left|]. done.
Qed.

Lemma add_edge_entrypoints src dest ln m em g :
  wf g →
  ep (final_state (add_edge src dest ln m em g)) = ep g ∧
  ep_mod (final_state (add_edge src dest ln m em g)) = ep_mod g ∧
  entrypoints (final_state (add_edge src dest ln m em g)) = entrypoints g.
Proof.
  intros Hwf. unfold add_edge, bind.
  pose proof (add_node_entrypoints src m g) as (P1 & Q1 & R1).
  pose proof (add_node_cases src m g Hwf) as H1.
  destruct (add_node src m g) as [[] g1|e g1]; cbn in *; [|done].
  destruct H1 as (Hwf1 & (s & -> & Hs & D1) & _).
  pose proof (add_node_entrypoints dest "" g1) as (P2 & Q2 & R2).
  pose proof (add_node_cases dest "" g1 Hwf1) as H2.
  destruct (add_node dest "" g1) as [[] g2|e g2]; cbn in *; [|by rewrite P2, Q2, R2].
  destruct H2 as (Hwf2 & (d & -> & Hd & D2) & _).
  destruct (record_edge_ok s d ln m em g2 Hwf2)
    as (g3 & E3 & _ & _ & _ & _ & P3 & Q3 & R3 & _).
  { rewrite D2, D1. set_solver. }
  rewrite E3. cbn. by rewrite P3, Q3, R3, P2, Q2, R2.
Qed.

Lemma ep_is_last_frame g g' :
  ep g' = ep g → ep_mod g' = ep_mod g → entrypoints g' = entrypoints g →
  ep_is_last g → ep_is_last g'.
Proof. unfold ep_is_last. by intros -> -> ->. Qed.

(** What every graph built through the methods satisfies. *)
Lemma built_invariants g :
  built g → wf g ∧ log_matches_adjacency g ∧ edges_closed g ∧ ep_is_last g.
Proof.
  induction 1 as [|g name m Hb (Hwf & Hlm & Hcl & Hep)
                  |g src dest ln m em Hb (Hwf & Hlm & Hcl & Hep)
                  |g e m Hb (Hwf & Hlm & Hcl & Hep)].
  - split; [apply wf_init|]. split; [|split; [|done]].
    + intros s. unfold adj_of, log_of, get, get_extended. cbn.
      rewrite !lookup_empty. set_solver.
    + intros s d. unfold adj_of, get. cbn. rewrite lookup_empty. set_solver.
  - pose proof (add_node_entrypoints name m g) as (P & Q & R).
    pose proof (add_node_cases name m g Hwf) as Hc.
    destruct (add_node name m g) as [[] g'|e g']; cbn in *.
    + destruct Hc as (Hwf' & (n & -> & Hn & D) & Ha & Hl). split; [done|].
      split; [|split].
      * intros s. by rewrite Ha, Hl.
      * intros s d. rewrite Ha. unfold get. rewrite D. intros Hd.
        apply elem_of_union_r. by eapply Hcl.
      * by eapply ep_is_last_frame.
    + by destruct Hc as (_ & -> & _).
  - pose proof (add_edge_entrypoints src dest ln m em g Hwf) as (P & Q & R).
    pose proof (add_edge_cases src dest ln m em g Hwf) as Hc.
    destruct (add_edge src dest ln m em g) as [[] g'|e g']; cbn in *.
    + destruct Hc as (Hwf' & s & d & -> & -> & _ & _ & Ha & Hl & Hf & D).
      split; [done|]. split; [|split].
      * intros k. destruct (decide (k = s)) as [->|Hk].
        -- rewrite Ha, Hl, Hlm, fmap_app, list_to_set_app_L. cbn. set_solver.
        -- destruct (Hf k Hk) as [-> ->]. apply Hlm.
      * intros k x. unfold get. rewrite D. destruct (decide (k = s)) as [->|Hk].
        -- rewrite Ha. intros [Hx|Hx]%elem_of_union.
           ++ set_solver.
           ++ apply elem_of_union_r. by eapply Hcl.
        -- destruct (Hf k Hk) as [-> _]. intros Hx.
           apply elem_of_union_r. by eapply Hcl.
      * by eapply ep_is_last_frame.
    + destruct Hc as (_ & _ & Hwf' & Ha & Hl & D). split; [done|].
      split; [|split].
      * intros s. by rewrite Ha, Hl.
      * intros s d. rewrite Ha. intros Hd. apply D. by eapply Hcl.
      * by eapply ep_is_last_frame.
  - cbn. split; [done|]. split; [done|]. split; [done|].
    unfold ep_is_last. cbn. by rewrite last_snoc.
Qed.

Lemma built_init_graph : built init.
Proof. constructor. Qed.

(** X1.  On a graph built through the methods, [add_edge] raises exactly
    when one of its endpoints is not a non-empty string, and then with
    [CallGraphError]; when it returns, the destination is in the source's
    adjacency set, the record is the last one of the source's log, both
    endpoints are nodes, and no other source has its adjacency set or its
    log changed. *)
Theorem add_edge_characterised g src dest ln m em :
  built g →
  match add_edge src dest ln m em g with
  | Returns _ g' =>
      ∃ s d, src = PyStr s ∧ dest = PyStr d ∧
             str_truthy s = true ∧ str_truthy d = true ∧
             adj_of s g' = {[ d ]} ∪ adj_of s g ∧
             log_of s g' = log_of s g ++ [Edge d ln m em] ∧
             (∀ k, k ≠ s → adj_of k g' = adj_of k g ∧ log_of k g' = log_of k g) ∧
             dom (get g') = {[ s; d ]} ∪ dom (get g)
  | Raises e g' =>
      (valid_name src = false ∨ valid_name dest = false) ∧
      (∃ msg, e = CallGraphError msg) ∧
      (∀ k, adj_of k g' = adj_of k g) ∧ (∀ k, log_of k g' = log_of k g)
  end.
Proof.
  intros Hb. destruct (built_invariants g Hb) as (Hwf & _).
  pose proof (add_edge_cases src dest ln m em g Hwf) as Hc.
  destruct (add_edge src dest ln m em g) as [[] g'|e g'].
  - by destruct Hc as (_ & Hc).
  - destruct Hc as (Hv & Hmsg & _ & Ha & Hl & _). done.
Qed.

Lemma add_edge_characterised_witness :
  match add_edge (PyStr "a") (PyStr "b") 3 "m" "" init with
  | Returns _ g' =>
      ∃ s d, PyStr "a" = PyStr s ∧ PyStr "b" = PyStr d ∧
             str_truthy s = true ∧ str_truthy d = true ∧
             adj_of s g' = {[ d ]} ∪ adj_of s init ∧
             log_of s g' = log_of s init ++ [Edge d 3 "m" ""] ∧
             (∀ k, k ≠ s → adj_of k g' = adj_of k init ∧ log_of k g' = log_of k init) ∧
             dom (get g') = {[ s; d ]} ∪ dom (get init)
  | Raises e g' =>
      (valid_name (PyStr "a") = false ∨ valid_name (PyStr "b") = false) ∧
      (∃ msg, e = CallGraphError msg) ∧
      (∀ k, adj_of k g' = adj_of k init) ∧ (∀ k, log_of k g' = log_of k init)
  end.
Proof.
  apply (add_edge_characterised init (PyStr "a") (PyStr "b") 3 "m" "").
  exact built_init.
Defined.

(** X2.  Every graph built through [add_node], [add_edge] and
    [add_entrypoint], failed calls included, has the same keys in [cg],
    [modnames] and [cg_extended]; the adjacency set of each source is
    exactly the set of destinations in its log; and every destination of
    an edge is itself a node. *)
Theorem built_graph_invariants g :
  built g →
  dom (get_modules g) = dom (get g) ∧
  dom (get_extended g) = dom (get g) ∧
  (∀ s, adj_of s g = list_to_set (dst <$> log_of s g)) ∧
  (∀ s d, d ∈ adj_of s g → d ∈ dom (get g)).
Proof.
  intros Hb. destruct (built_invariants g Hb) as ([W1 W2] & Hlm & Hcl & _). done.
Qed.

Lemma built_graph_invariants_witness :
  let g := final_state (add_edge (PyStr "a") (PyStr "b") 3 "m" "" init) in
  dom (get_modules g) = dom (get g) ∧
  dom (get_extended g) = dom (get g) ∧
  (∀ s, adj_of s g = list_to_set (dst <$> log_of s g)) ∧
  (∀ s d, d ∈ adj_of s g → d ∈ dom (get g)).
Proof.
  intros g. apply (built_graph_invariants g).
  apply built_add_edge. exact built_init.
Defined.

(** X3.  On a graph built through the methods, [ep] and [ep_mod] hold the
    entry point and module of the last [add_entrypoint] call, that is the
    last pair of [entrypoints], and are unset as long as the list is
    empty: [add_node] and [add_edge] touch neither. *)
Theorem entrypoint_is_last g :
  built g →
  match last (entrypoints g) with
  | None => ep g = None ∧ ep_mod g = None
  | Some em => ep g = Some em.1 ∧ ep_mod g = Some em.2
  end.
Proof.
  intros Hb. by destruct (built_invariants g Hb) as (_ & _ & _ & Hep).
Qed.

Lemma entrypoint_is_last_witness :
  let g := final_state (add_node (PyStr "f") "m"
             (final_state (add_entrypoint "main" "m" init))) in
  match last (entrypoints g) with
  | None => ep g = None ∧ ep_mod g = None
  | Some em => ep g = Some em.1 ∧ ep_mod g = Some em.2
  end.
Proof.
  intros g. apply (entrypoint_is_last g).
  apply built_add_node, built_add_entrypoint. exact built_init.
Defined.

Lemma first_nonempty_app l r :
  first_nonempty (first_nonempty l :: r) = first_nonempty (l ++ r).
Proof.
  induction l as [|x l IH]; cbn; [done|].
  destruct (str_truthy x) eqn:Hx; [by cbn; rewrite Hx|done].
Qed.

Lemma prior_after_add_node n m g g' :
  wf g → add_node (PyStr n) m g = Returns tt g' →
  prior_modname n g' = [first_nonempty (prior_modname n g ++ [m])].
Proof.
  intros Hwf E. unfold prior_modname.
  rewrite (add_node_modname n m g g' Hwf E).
  assert (first_nonempty [m] = m) as Hm by (by destruct m).
  destruct (modname_of n g) as [p|]; cbn [app first_nonempty] in *; [|by rewrite Hm].
  destruct (str_truthy p); [done|]. by rewrite Hm.
Qed.

Lemma add_node_each_modname n ms g :
  wf g → str_truthy n = true → ms ≠ [] →
  ∃ g', add_node_each n ms g = Returns tt g' ∧ wf g' ∧
        prior_modname n g' = [first_nonempty (prior_modname n g ++ ms)].
Proof.
  intros Hwf Hn. revert g Hwf. induction ms as [|m rest IH]; intros g Hwf Hne; [done|].
  destruct (add_node_ok n m g Hwf Hn) as (g1 & E1 & Hwf1 & _).
  pose proof (prior_after_add_node n m g g1 Hwf E1) as P1.
  cbn [add_node_each]. unfold bind. rewrite E1.
  destruct rest as [|m' rest'].
  - exists g1. done.
  - destruct (IH g1 Hwf1) as (g' & E & Hwf' & P); [done|].
    exists g'. split; [done|]. split; [done|].
    rewrite P, P1. f_equal.
    change (first_nonempty (prior_modname n g ++ [m]) :: m' :: rest')
      with ([first_nonempty (prior_modname n g ++ [m])] ++ m' :: rest').
    cbn [app]. rewrite first_nonempty_app, <- app_assoc. done.
Qed.

(** X4.  After any non-empty sequence of [add_node] calls on one name,
    the module registry holds for it the first non-empty module among
    the one it held before, if any, and the modules supplied, in order;
    it is blank only if all of them are blank. *)
Theorem registry_first_nonempty_wins g n ms :
  wf g → str_truthy n = true → ms ≠ [] →
  ∃ g', add_node_each n ms g = Returns tt g' ∧
        get_modules g' !! n =
          Some (first_nonempty (match get_modules g !! n with
                                | Some p => p :: ms
                                | None => ms
                                end)).
Proof.
  intros Hwf Hn Hne.
  destruct (add_node_each_modname n ms g Hwf Hn Hne) as (g' & E & _ & P).
  exists g'. split; [done|]. revert P. unfold prior_modname, modname_of.
  destruct (get_modules g' !! n) as [q|]; [|done]. intros [= ->].
  by destruct (get_modules g !! n).
Qed.

Lemma registry_first_nonempty_wins_witness :
  ∃ g', add_node_each "n" [""; ""; "m1"; ""; "m2"]%string init = Returns tt g' ∧
        get_modules g' !! "n"%string =
          Some (first_nonempty (match get_modules init !! "n"%string with
                                | Some p => p :: [""; ""; "m1"; ""; "m2"]%string
                                | None => [""; ""; "m1"; ""; "m2"]%string
                                end)).
Proof.
  apply (registry_first_nonempty_wins init "n" [""; ""; "m1"; ""; "m2"]%string).
  - exact wf_init.
  - reflexivity.
  - discriminate.
Defined.

(** X5.  [add_node] on a name changes nothing about any other name: its
    registry entry and its extended metadata stay; and it changes no
    adjacency set and no log, not even those of the name itself. *)
Theorem add_node_frame g n m g' :
  wf g → add_node (PyStr n) m g = Returns tt g' →
  (∀ k, k ≠ n →
     get_modules g' !! k = get_modules g !! k ∧
     meta_modname <$> (get_extended g' !! k) = meta_modname <$> (get_extended g !! k)) ∧
  (∀ k, adj_of k g' = adj_of k g) ∧
  (∀ k, log_of k g' = log_of k g).
Proof.
  intros Hwf E. destruct (str_truthy n) eqn:Hn;
    [|by unfold add_node in E; rewrite Hn in E].
  destruct (add_node_ok n m g Hwf Hn) as (g1 & E1 & _ & _ & Ha & Hl).
  rewrite E in E1. injection E1 as <-. split; [|done].
  intros k Hk. revert E. unfold add_node. rewrite Hn. cbn.
  unfold backfill, backfill_extended, create_entry, get_modules, get_extended.
  repeat (case_decide || case_match); intros; simplify_eq; cbn;
    rewrite ?lookup_insert_ne by done; done.
Qed.

Lemma add_node_frame_witness :
  let g' := final_state (add_node (PyStr "n") "m" init) in
  (∀ k, k ≠ "n"%string →
     get_modules g' !! k = get_modules init !! k ∧
     meta_modname <$> (get_extended g' !! k) = meta_modname <$> (get_extended init !! k)) ∧
  (∀ k, adj_of k g' = adj_of k init) ∧
  (∀ k, log_of k g' = log_of k init).
Proof.
  intros g'. apply (add_node_frame init "n" "m" g').
  - exact wf_init.
  - reflexivity.
Defined.

(** X6.  [get_edges] lists exactly the pairs [[src, dst]] with [dst] in
    the adjacency set of [src], each of them once. *)
Theorem get_edges_exact g :
  (∀ p, p ∈ get_edges g ↔ ∃ s d, p = [s; d] ∧ d ∈ adj_of s g) ∧
  NoDup (get_edges g).
Proof.
  split.
  - intros p. unfold get_edges. rewrite list_elem_of_bind. split.
    + intros ([s out] & Hp & Hso). apply list_elem_of_fmap in Hp as (d & -> & Hd).
      apply elem_of_map_to_list in Hso. apply elem_of_elements in Hd.
      exists s, d. split; [done|]. unfold adj_of, get. cbn in *. by rewrite Hso.
    + intros (s & d & -> & Hd). unfold adj_of, get in Hd.
      destruct (cg g !! s) as [out|] eqn:Hs; [|set_solver].
      exists (s, out). split.
      * apply list_elem_of_fmap. exists d. split; [done|]. by apply elem_of_elements.
      * by apply elem_of_map_to_list.
  - unfold get_edges. apply NoDup_bind.
    + intros [s1 o1] [s2 o2] p H1 H2 Hp1 Hp2.
      apply list_elem_of_fmap in Hp1 as (d1 & -> & _).
      apply list_elem_of_fmap in Hp2 as (d2 & [= <- <-] & _). cbn in *.
      apply elem_of_map_to_list in H1, H2. congruence.
    + intros [s out] _. apply NoDup_fmap_2; [|apply NoDup_elements].
      intros d1 d2 [=]. done.
    + apply NoDup_map_to_list.
Qed.

End CallGraphMore.

(** ** The import manager *)

Module ImportsMore.
Import Imports ImportsFacts.

(** [sys.modules] after [_clear_caches]. *)
Lemma clear_caches_modules w k :
  modules (sys (final_state (_clear_caches w))) !! k =
    if decide (k ∈ dom (import_graph (im w))) then None else modules (sys w) !! k.
Proof.
  unfold _clear_caches. cbn [final_state with_sys sys modules im].
  rewrite map_lookup_filter. case_decide as Hk.
  - destruct (modules (sys w) !! k); [|done]. cbn.
    by rewrite option_guard_False by (cbn; tauto).
  - destruct (modules (sys w) !! k); [|done]. cbn. by rewrite option_guard_True.
Qed.

(** X7.  When [importlib.abc] is loaded, [sys.path_hooks] and [sys.path]
    are lists and a package root is set, [install_hooks] puts the loader's
    hook first in
    [sys.path_hooks] and the absolute root first in [sys.path], and the
    [remove_hooks] after it gives both lists back exactly.  The pair
    leaves the import graph and the module under analysis alone, empties
    the importer cache, and drops from [sys.modules] the modules that are
    nodes of the import graph and no others. *)
Theorem install_remove_round_trip H w hooks p d :
  importlib_abc_loaded H = true →
  path_hooks (sys w) = Some hooks → path (sys w) = Some p → mod_dir (im w) = Some d →
  ∃ w1 w2,
    install_hooks H w = Returns tt w1 ∧
    path_hooks (sys w1) = Some (CustomLoaderHook :: hooks) ∧
    path (sys w1) = Some (abspath H d :: p) ∧
    remove_hooks w1 = Returns tt w2 ∧
    path_hooks (sys w2) = Some hooks ∧
    path (sys w2) = Some p ∧
    import_graph (im w2) = import_graph (im w) ∧
    current_module (im w2) = current_module (im w) ∧
    mod_dir (im w2) = mod_dir (im w) ∧
    path_importer_cache (sys w2) = ∅ ∧
    ∀ k, modules (sys w2) !! k =
           if decide (k ∈ dom (import_graph (im w))) then None else modules (sys w) !! k.
Proof.
  intros Habc Hh Hp Hd. unfold install_hooks. rewrite Habc. cbn [negb].
  cbn [with_im with_sys sys im path_hooks path mod_dir]. rewrite Hh.
  cbn [with_im with_sys sys im path_hooks path mod_dir]. rewrite Hp, Hd.
  eexists. eexists. split; [reflexivity|].
  unfold remove_hooks, _clear_caches.
  cbn [with_im with_sys sys im path_hooks path mod_dir old_path_hooks old_path
       import_graph current_module path_importer_cache modules].
  do 9 (split; [done|]). intros k.
  cbn [with_im with_sys sys im modules import_graph].
  rewrite !map_lookup_filter. case_decide as Hk.
  - destruct (modules (sys w) !! k); [|done]. cbn.
    by rewrite option_guard_False by (cbn; tauto).
  - destruct (modules (sys w) !! k); [|done]. cbn.
    rewrite option_guard_True by done. cbn. by rewrite option_guard_True.
Qed.

Lemma install_remove_round_trip_witness :
  ∃ w1 w2,
    install_hooks example_host example_world = Returns tt w1 ∧
    path_hooks (sys w1) = Some (CustomLoaderHook :: [CustomLoaderHook; SystemHook 0]) ∧
    path (sys w1) = Some (abspath example_host "/app" :: ["/app"; "/usr/lib"]%string) ∧
    remove_hooks w1 = Returns tt w2 ∧
    path_hooks (sys w2) = Some [CustomLoaderHook; SystemHook 0] ∧
    path (sys w2) = Some ["/app"; "/usr/lib"]%string ∧
    import_graph (im w2) = import_graph (im example_world) ∧
    current_module (im w2) = current_module (im example_world) ∧
    mod_dir (im w2) = mod_dir (im example_world) ∧
    path_importer_cache (sys w2) = ∅ ∧
    ∀ k, modules (sys w2) !! k =
           if decide (k ∈ dom (import_graph (im example_world))) then None
           else modules (sys example_world) !! k.
Proof.
  apply (install_remove_round_trip example_host example_world
           [CustomLoaderHook; SystemHook 0] ["/app"; "/usr/lib"]%string "/app");
    reflexivity.
Defined.

(** X8.  [install_hooks] returns exactly when [importlib.abc] is loaded,
    [sys.path_hooks] and [sys.path] are lists and a package root is set.
    With [importlib.abc] not loaded it raises [AttributeError] and
    changes nothing at all; with [sys.path_hooks] unset it raises
    [AttributeError] before touching [sys]; with [sys.path] unset it
    raises [AttributeError], and with no package root [TypeError], in both
    cases after the loader's hook was put into [sys.path_hooks], where it
    stays. *)
Theorem install_hooks_failures H w :
  match install_hooks H w with
  | Returns _ w' =>
      importlib_abc_loaded H = true ∧
      is_Some (path_hooks (sys w)) ∧ is_Some (path (sys w)) ∧ is_Some (mod_dir (im w)) ∧
      hooks_installed w' = true
  | Raises e w' =>
      (importlib_abc_loaded H = false ∧ (∃ msg, e = AttributeError msg) ∧ w' = w) ∨
      (importlib_abc_loaded H = true ∧
       path_hooks (sys w) = None ∧ (∃ msg, e = AttributeError msg) ∧ sys w' = sys w) ∨
      (importlib_abc_loaded H = true ∧
       is_Some (path_hooks (sys w)) ∧ hooks_installed w' = true ∧
       path (sys w') = path (sys w) ∧
       ((path (sys w) = None ∧ ∃ msg, e = AttributeError msg) ∨
        (is_Some (path (sys w)) ∧ mod_dir (im w) = None ∧ ∃ msg, e = TypeError msg)))
  end.
Proof.
  destruct w as [[ig cur inf md oph op] [ph p ms pic bmn]].
  unfold install_hooks, hooks_installed, _clear_caches.
  destruct (importlib_abc_loaded H); cbn [negb]; [|left; eauto].
  cbn [with_im with_sys sys im path_hooks path mod_dir].
  destruct ph as [hooks|].
  - assert (bool_decide (CustomLoaderHook ∈ CustomLoaderHook :: hooks) = true) as Hin
      by (apply bool_decide_eq_true; set_solver).
    cbn [with_im with_sys sys im path_hooks path mod_dir].
    destruct p as [p|]; [destruct md as [d|]|];
      cbn [with_im with_sys sys im path_hooks path mod_dir].
    + split; [done|]. eauto.
    + right. right. split; [done|]. split; [eauto|]. split; [done|]. split; [done|].
      right. eauto.
    + right. right. split; [done|]. split; [eauto|]. split; [done|]. split; [done|].
      left. eauto.
  - right. left. split; [done|]. split; [done|]. split; [eauto|]. done.
Qed.

(** X9.  [remove_hooks] with no [install_hooks] before it (the saved
    [old_path_hooks] is still unset) returns normally and leaves
    [sys.path_hooks] unset; an [install_hooks] after that raises
    [AttributeError]. *)
Theorem remove_before_install H w :
  old_path_hooks (im w) = None →
  ∃ w',
    remove_hooks w = Returns tt w' ∧
    path_hooks (sys w') = None ∧
    ∃ msg w'', install_hooks H w' = Raises (AttributeError msg) w''.
Proof.
  intros Hold. eexists. split; [reflexivity|]. cbn. split; [done|].
  unfold install_hooks. destruct (importlib_abc_loaded H); cbn; [|eauto].
  rewrite Hold. eauto.
Qed.

Lemma remove_before_install_witness :
  ∃ w',
    remove_hooks {| im := init; sys := example_sys |} = Returns tt w' ∧
    path_hooks (sys w') = None ∧
    ∃ msg w'', install_hooks example_host w' = Raises (AttributeError msg) w''.
Proof.
  apply (remove_before_install example_host {| im := init; sys := example_sys |}).
  reflexivity.
Defined.

(** X10.  [remove_hooks] is idempotent: a second call right after the
    first changes nothing. *)
Theorem remove_hooks_idempotent w w1 :
  remove_hooks w = Returns tt w1 → remove_hooks w1 = Returns tt w1.
Proof.
  intros [= <-]. unfold remove_hooks, _clear_caches. cbn. f_equal.
  unfold with_sys. cbn. f_equal. f_equal.
  apply map_filter_id. intros i x Hx. apply map_lookup_filter_Some in Hx. tauto.
Qed.

Lemma remove_hooks_idempotent_witness :
  remove_hooks (final_state (remove_hooks example_world))
    = Returns tt (final_state (remove_hooks example_world)).
Proof.
  apply (remove_hooks_idempotent example_world). reflexivity.
Defined.

Lemma get_node_insert k n nd w :
  get_node k (with_im (λ m, set_import_graph (<[n := nd]> (import_graph m)) m) w) =
    if decide (n = k) then Some nd else get_node k w.
Proof.
  unfold get_node. cbn. case_decide as Hk.
  - subst. by rewrite lookup_insert_eq.
  - by rewrite lookup_insert_ne.
Qed.

Lemma create_edge_cases dest w :
  match create_edge dest w with
  | Raises e w' =>
      (∃ msg, e = ImportManagerError msg) ∧ w' = w ∧
      (truthy dest = false ∨ isinstance_str dest = false ∨
       get_node (_get_module_path w) w = None)
  | Returns _ w' =>
      ∃ d nd, dest = PyStr d ∧ str_truthy d = true ∧
           get_node (_get_module_path w) w = Some nd ∧
           w' = with_im (λ m, set_import_graph
                   (<[_get_module_path w :=
                        {| filename := filename nd; imports := {[ d ]} ∪ imports nd |}]>
                      (import_graph m)) m) w
  end.
Proof.
  unfold create_edge. destruct dest as [|d|z]; cbn.
  - split; [eauto|]. split; [done|]. by left.
  - destruct (str_truthy d) eqn:Hd; cbn.
    + destruct (get_node (_get_module_path w) w) as [nd|] eqn:Hg.
      * exists d, nd. done.
      * split; [eauto|]. split; [done|]. by right; right.
    + split; [eauto|]. split; [done|]. by left.
  - destruct (negb (z =? 0)); cbn; (split; [eauto|]; split; [done|]); right; by left.
Qed.

(** X11.  [create_edge] raises [ImportManagerError], leaving everything
    as it was, exactly when the destination is empty or not a string or
    the module under analysis is not a node of the import graph.
    Otherwise it adds the destination to the imports of that module and
    changes nothing else: the module's filename, every other node and
    [sys] stay, and no node is created for the destination.  A second
    identical call changes nothing. *)
Theorem create_edge_characterised dest w :
  match create_edge dest w with
  | Raises e w' =>
      (∃ msg, e = ImportManagerError msg) ∧ w' = w ∧
      (truthy dest = false ∨ isinstance_str dest = false ∨
       get_node (_get_module_path w) w = None)
  | Returns _ w' =>
      ∃ d, dest = PyStr d ∧ truthy dest = true ∧
           is_Some (get_node (_get_module_path w) w) ∧
           get_imports (_get_module_path w) w' = {[ d ]} ∪ get_imports (_get_module_path w) w ∧
           get_filepath (_get_module_path w) w' = get_filepath (_get_module_path w) w ∧
           dom (get_import_graph w') = dom (get_import_graph w) ∧
           (∀ k, k ≠ _get_module_path w → get_node k w' = get_node k w) ∧
           sys w' = sys w ∧
           create_edge dest w' = Returns tt w'
  end.
Proof.
  pose proof (create_edge_cases dest w) as Hc.
  destruct (create_edge dest w) as [[] w'|e w']; [|done].
  destruct Hc as (d & nd & -> & Hd & Hg & ->).
  exists d. split; [done|]. split; [done|]. split; [eauto|].
  split; [|split; [|split; [|split; [|split]]]].
  - rewrite get_imports_insert, decide_True by done. cbn.
    unfold get_imports, get_node in *. by rewrite Hg.
  - unfold get_filepath, get_node in *. cbn. by rewrite lookup_insert_eq, Hg.
  - unfold get_import_graph, get_node in *. cbn. rewrite dom_insert_L.
    apply elem_of_dom_2 in Hg. set_solver.
  - intros k Hk. rewrite get_node_insert. by rewrite decide_False.
  - done.
  - unfold create_edge. cbn [truthy isinstance_str]. rewrite Hd. cbn [negb orb].
    unfold _get_module_path at 1. cbn [with_im im set_import_graph current_module].
    rewrite get_node_insert, decide_True by done.
    f_equal. unfold with_im, set_import_graph, _get_module_path. cbn. f_equal. f_equal.
    rewrite insert_insert_eq. f_equal. f_equal. set_solver.
Qed.

Lemma set_filepath_cases H n f w :
  match set_filepath H n f w with
  | Raises e w' =>
      (∃ msg, e = ImportManagerError msg) ∧ w' = w ∧
      (truthy f = false ∨ isinstance_str f = false ∨ get_node n w = None)
  | Returns _ w' =>
      ∃ p nd, f = PyStr p ∧ str_truthy p = true ∧ get_node n w = Some nd ∧
           w' = with_im (λ m, set_import_graph
                   (<[n := {| filename := abspath H p; imports := imports nd |}]>
                      (import_graph m)) m) w
  end.
Proof.
  unfold set_filepath. destruct f as [|p|z]; cbn.
  - split; [eauto|]. split; [done|]. by left.
  - destruct (str_truthy p) eqn:Hp; cbn.
    + destruct (get_node n w) as [nd|] eqn:Hg.
      * exists p, nd. done.
      * split; [eauto|]. split; [done|]. by right; right.
    + split; [eauto|]. split; [done|]. by left.
  - destruct (negb (z =? 0)); cbn; (split; [eauto|]; split; [done|]); right; by left.
Qed.

(** X12.  [set_filepath] raises [ImportManagerError], leaving everything
    as it was, exactly when the filename is empty or not a string or the
    node does not exist.  Otherwise [get_filepath] of the node gives the
    absolute path of the filename, the node keeps its imports, and no
    other node changes. *)
Theorem set_filepath_characterised H n f w :
  match set_filepath H n f w with
  | Raises e w' =>
      (∃ msg, e = ImportManagerError msg) ∧ w' = w ∧
      (truthy f = false ∨ isinstance_str f = false ∨ get_node n w = None)
  | Returns _ w' =>
      ∃ p, f = PyStr p ∧ truthy f = true ∧ is_Some (get_node n w) ∧
           get_filepath n w' = Some (abspath H p) ∧
           get_imports n w' = get_imports n w ∧
           dom (get_import_graph w') = dom (get_import_graph w) ∧
           (∀ k, k ≠ n → get_node k w' = get_node k w) ∧
           sys w' = sys w
  end.
Proof.
  pose proof (set_filepath_cases H n f w) as Hc.
  destruct (set_filepath H n f w) as [[] w'|e w']; [|done].
  destruct Hc as (p & nd & -> & Hp & Hg & ->).
  exists p. split; [done|]. split; [done|]. split; [eauto|].
  split; [|split; [|split; [|split]]].
  - unfold get_filepath. cbn. by rewrite lookup_insert_eq.
  - rewrite get_imports_insert, decide_True by done. cbn.
    unfold get_imports, get_node in *. by rewrite Hg.
  - unfold get_import_graph, get_node in *. cbn. rewrite dom_insert_L.
    apply elem_of_dom_2 in Hg. set_solver.
  - intros k Hk. rewrite get_node_insert. by rewrite decide_False.
  - done.
Qed.

Lemma split_length_pos sep s : (1 ≤ length (Py.split sep s))%nat.
Proof.
  pose proof (PyFacts.split_nonempty sep s). destruct (Py.split sep s); [done|cbn; lia].
Qed.

(** X13.  Levels in a package initializer.  At level 0 the base package
    is empty and the name is kept, whatever the file.  In an
    [__init__.py] file level 1 gives the module under analysis itself as
    base package; and a level of two or more gives the base package that
    the level one lower gives in a plain module of the same dotted
    name. *)
Theorem init_file_levels name :
  (∀ w, _handle_import_level name 0 w = Returns (name, ""%string) w) ∧
  (∀ w, _is_init_file w = true →
        _handle_import_level name 1 w
          = Returns (String.append "." name, _get_module_path w) w) ∧
  (∀ w_init w_plain L,
     _is_init_file w_init = true → _is_init_file w_plain = false →
     _get_module_path w_init = _get_module_path w_plain →
     (1 ≤ L)%nat → (S L ≤ length (Py.split Py.dot (_get_module_path w_plain)))%nat →
     ∃ pkg,
       _handle_import_level name (S L) w_init
         = Returns (String.append (Py.repeat_str "." (S L)) name, pkg) w_init ∧
       _handle_import_level name L w_plain
         = Returns (String.append (Py.repeat_str "." L) name, pkg) w_plain).
Proof.
  split; [|split].
  - intros w. unfold _handle_import_level.
    rewrite andb_false_r. done.
  - intros w Hinit. unfold _handle_import_level. rewrite Hinit.
    pose proof (split_length_pos Py.dot (_get_module_path w)) as Hlen.
    apply Nat.ltb_ge in Hlen. rewrite Hlen. cbn [andb Nat.leb Nat.eqb negb].
    by rewrite PyFacts.join_split.
  - intros w_init w_plain L Hinit Hplain Hpath HL Hlen.
    unfold _handle_import_level. rewrite Hinit, Hplain, Hpath.
    assert ((length (Py.split Py.dot (_get_module_path w_plain)) <? S L)%nat = false)
      as -> by (apply Nat.ltb_ge; lia).
    assert ((length (Py.split Py.dot (_get_module_path w_plain)) <? L)%nat = false)
      as -> by (apply Nat.ltb_ge; lia).
    destruct L as [|L]; [lia|]. cbn [andb Nat.leb Nat.eqb negb].
    replace (S (S L) - 1)%nat with (S L) by lia. eauto.
Qed.

Lemma init_file_levels_witness :
  _handle_import_level "x" 0 example_world_sub = Returns ("x"%string, ""%string) example_world_sub ∧
  (∃ pkg,
     _handle_import_level "x" 2
         (with_im (λ m, {| import_graph := import_graph m; current_module := current_module m;
                           input_file := "/app/pkg/sub/mod/__init__.py";
                           mod_dir := mod_dir m; old_path_hooks := old_path_hooks m;
                           old_path := old_path m |}) example_world_sub)
       = Returns (String.append (Py.repeat_str "." 2) "x", pkg)
           (with_im (λ m, {| import_graph := import_graph m; current_module := current_module m;
                             input_file := "/app/pkg/sub/mod/__init__.py";
                             mod_dir := mod_dir m; old_path_hooks := old_path_hooks m;
                             old_path := old_path m |}) example_world_sub) ∧
     _handle_import_level "x" 1 example_world_sub
       = Returns (String.append (Py.repeat_str "." 1) "x", pkg) example_world_sub).
Proof.
  destruct (init_file_levels "x") as (H0 & _ & H2). split.
  - apply H0.
  - apply (H2 _ example_world_sub 1%nat); try reflexivity. cbn. lia.
Defined.

(** *** Nodes are never removed *)

Lemma nodes_kept_refl w : nodes_kept w w.
Proof. unfold nodes_kept. done. Qed.

Lemma nodes_kept_trans w1 w2 w3 : nodes_kept w1 w2 → nodes_kept w2 w3 → nodes_kept w1 w3.
Proof. unfold nodes_kept. set_solver. Qed.

Lemma bind_nodes_kept {A B} (m : method world A) (k : A → method world B) w :
  nodes_kept w (final_state (m w)) →
  (∀ a w1, nodes_kept w1 (final_state (k a w1))) →
  nodes_kept w (final_state (bind m k w)).
Proof.
  intros Hm Hk. unfold bind. destruct (m w) as [a w1|e w1]; cbn in *; [|done].
  eapply nodes_kept_trans; [done|apply Hk].
Qed.

Lemma insert_nodes_kept n nd w :
  nodes_kept w (with_im (λ m, set_import_graph (<[n := nd]> (import_graph m)) m) w).
Proof. unfold nodes_kept. cbn. rewrite dom_insert_L. set_solver. Qed.

Lemma create_edge_nodes_kept d w : nodes_kept w (final_state (create_edge d w)).
Proof.
  pose proof (create_edge_cases d w) as Hc.
  destruct (create_edge d w) as [[] w'|e w']; cbn.
  - destruct Hc as (? & ? & _ & _ & _ & ->). apply insert_nodes_kept.
  - destruct Hc as (_ & -> & _). apply nodes_kept_refl.
Qed.

Lemma set_filepath_nodes_kept H n f w :
  nodes_kept w (final_state (set_filepath H n f w)).
Proof.
  pose proof (set_filepath_cases H n f w) as Hc.
  destruct (set_filepath H n f w) as [[] w'|e w']; cbn.
  - destruct Hc as (? & ? & _ & _ & _ & ->). apply insert_nodes_kept.
  - destruct Hc as (_ & -> & _). apply nodes_kept_refl.
Qed.

Lemma create_node_nodes_kept n w : nodes_kept w (final_state (create_node n w)).
Proof.
  unfold create_node. destruct (negb (truthy n) || negb (isinstance_str n));
    [apply nodes_kept_refl|].
  destruct n as [|s|z]; try apply nodes_kept_refl.
  destruct (get_node s w); [apply nodes_kept_refl|]. apply insert_nodes_kept.
Qed.

Lemma custom_loader_init_nodes_kept H fullname p w :
  nodes_kept w (final_state (custom_loader_init H fullname p w)).
Proof.
  unfold custom_loader_init.
  destruct (negb (str_truthy (current_module (im w)))); [apply nodes_kept_refl|].
  apply bind_nodes_kept; [apply create_edge_nodes_kept|]. intros _ w1.
  destruct (get_node fullname w1); [apply nodes_kept_refl|].
  apply bind_nodes_kept; [apply create_node_nodes_kept|]. intros _ w2.
  apply set_filepath_nodes_kept.
Qed.

Lemma run_loaders_nodes_kept H loads w :
  nodes_kept w (final_state (run_loaders H loads w)).
Proof.
  revert w. induction loads as [|[fullname p] rest IH]; intros w; cbn.
  - apply nodes_kept_refl.
  - apply bind_nodes_kept; [apply custom_loader_init_nodes_kept|]. intros _ w1. apply IH.
Qed.

Lemma do_import_nodes_kept H mn pkg w :
  nodes_kept w (final_state (_do_import H mn pkg w)).
Proof.
  unfold _do_import. destruct (modules (sys w) !! mn) as [m|].
  - apply bind_nodes_kept; [apply create_edge_nodes_kept|]. intros _ w1.
    apply nodes_kept_refl.
  - apply bind_nodes_kept; [|intros m w1; apply nodes_kept_refl].
    unfold importlib_import_module.
    eapply (nodes_kept_trans _ (with_sys _ w)); [unfold nodes_kept; done|].
    apply bind_nodes_kept; [apply run_loaders_nodes_kept|].
    intros _ w1. destruct (io_result _); apply nodes_kept_refl.
Qed.

Lemma try_combos_nodes_kept H cs w : nodes_kept w (try_combos H cs w).2.
Proof.
  revert w. induction cs as [|[mn pkg] rest IH]; intros w; cbn.
  - apply nodes_kept_refl.
  - pose proof (do_import_nodes_kept H mn pkg w) as Hd.
    destruct (_do_import H mn pkg w) as [m w'|e w']; cbn in *; [done|].
    specialize (IH w'). destruct (try_combos H rest w') as [[m log] w'']. cbn in *.
    by eapply nodes_kept_trans.
Qed.

(** What [handle_import_traced] does past the built-in test. *)
Lemma handle_import_not_builtin H name level w :
  hd EmptyString (Py.split Py.dot name) ∉ builtin_module_names (sys w) →
  ∃ r w', handle_import_traced H name level w = Returns r w' ∧
          grows w w' ∧ nodes_kept w w'.
Proof.
  intros Hroot. unfold handle_import_traced.
  rewrite bool_decide_eq_false_2 by done.
  destruct (_handle_import_level name level w) as [[mn pkg] w0|e w0] eqn:Hl.
  - apply handle_import_level_state in Hl as ->.
    pose proof (try_combos_grows H (combos name mn pkg) w) as Hg.
    pose proof (try_combos_nodes_kept H (combos name mn pkg) w) as Hk.
    destruct (try_combos H (combos name mn pkg) w) as [[m log] w1]. cbn in Hg, Hk.
    destruct m as [m|]; [|eauto].
    destruct (lacks_file m); [eauto|].
    destruct (outside_mod_dir w1 m); [eauto|].
    destruct (module_file m); eauto.
  - revert Hl. unfold _handle_import_level.
    destruct (length _ <? level)%nat; [|done]. intros [= <- <-].
    eexists. eexists. split; [done|]. split; [apply grows_refl|apply nodes_kept_refl].
Qed.

(** X14.  [handle_import] raises only for a name whose root is a built-in
    module, only [ImportManagerError], only when that root is empty or
    the module under analysis is not a node of the import graph, and then
    it leaves everything as it was.  Whenever it returns, it has removed
    no node and no edge of the import graph and has changed neither the
    module under analysis nor the package root; for a built-in root the
    result is nothing. *)
Theorem handle_import_outcomes H name level w :
  match handle_import H name level w with
  | Raises e w' =>
      hd EmptyString (Py.split Py.dot name) ∈ builtin_module_names (sys w) ∧
      (∃ msg, e = ImportManagerError msg) ∧ w' = w ∧
      (str_truthy (hd EmptyString (Py.split Py.dot name)) = false ∨
       get_node (_get_module_path w) w = None)
  | Returns r w' =>
      dom (get_import_graph w) ⊆ dom (get_import_graph w') ∧
      (∀ k, get_imports k w ⊆ get_imports k w') ∧
      current_module (im w') = current_module (im w) ∧
      mod_dir (im w') = mod_dir (im w) ∧
      (hd EmptyString (Py.split Py.dot name) ∈ builtin_module_names (sys w) → r = None)
  end.
Proof.
  destruct (decide (hd EmptyString (Py.split Py.dot name) ∈ builtin_module_names (sys w)))
    as [Hin|Hnot].
  - unfold handle_import, handle_import_traced, bind.
    rewrite bool_decide_eq_true_2 by done.
    pose proof (create_edge_cases (PyStr (hd EmptyString (Py.split Py.dot name))) w) as Hc.
    pose proof (create_edge_grows (PyStr (hd EmptyString (Py.split Py.dot name))) w) as Hg.
    pose proof (create_edge_nodes_kept (PyStr (hd EmptyString (Py.split Py.dot name))) w) as Hk.
    destruct (create_edge _ w) as [[] w'|e w']; cbn in *.
    + destruct Hg as (Hc1 & Hc2 & Hc3). done.
    + destruct Hc as (Hmsg & -> & [Ht|[Hs|Hn]]); [|done|]; split; try done;
        split; try done; split; try done; [by left|by right].
  - destruct (handle_import_not_builtin H name level w Hnot) as (r & w' & E & Hg & Hk).
    unfold handle_import, bind. rewrite E. cbn.
    destruct Hg as (Hc1 & Hc2 & Hc3). done.
Qed.

(** X15.  Constructing the custom loader for [(fullname, path)] does
    nothing when no module is under analysis.  Otherwise it can only
    raise [ImportManagerError]; and when it returns, the module under
    analysis imports [fullname], and [fullname] is a node whose filename
    is the one it already had if it was a node before, and the absolute
    [path] if the node is new: a later load never overwrites the filename
    of a module. *)
Theorem custom_loader_registers_once H fullname p w :
  if negb (str_truthy (current_module (im w))) then
    custom_loader_init H fullname p w = Returns tt w
  else
    match custom_loader_init H fullname p w with
    | Raises e _ => ∃ msg, e = ImportManagerError msg
    | Returns _ w' =>
        fullname ∈ get_imports (current_module (im w)) w' ∧
        match get_node fullname w with
        | Some nd => get_filepath fullname w' = Some (filename nd)
        | None => get_filepath fullname w' = Some (abspath H p) ∧ str_truthy p = true
        end
    end.
Proof.
  destruct (str_truthy (current_module (im w))) eqn:Hcur; cbn [negb];
    [|by unfold custom_loader_init; rewrite Hcur].
  pose proof (custom_loader_init_edge H fullname p w) as Hedge.
  destruct (custom_loader_init H fullname p w) as [[] w'|e w'] eqn:Hinit.
  - split; [by apply Hedge|]. clear Hedge. revert Hinit.
    unfold custom_loader_init. rewrite Hcur. cbn [negb]. unfold bind.
    pose proof (create_edge_cases (PyStr fullname) w) as Hc.
    destruct (create_edge (PyStr fullname) w) as [[] w1|e w1]; [|done].
    destruct Hc as (d & nd & [= <-] & Hd & Hg & ->).
    rewrite get_node_insert. unfold _get_module_path in *.
    case_decide as Hk.
    + intros [= <-]. rewrite <- Hk, Hg. unfold get_filepath. cbn.
      by rewrite Hk, lookup_insert_eq.
    + destruct (get_node fullname w) as [nd'|] eqn:Hf.
      * intros [= <-]. unfold get_filepath, get_node in *. cbn.
        by rewrite lookup_insert_ne, Hf.
      * set (w1 := with_im _ w).
        assert (get_node fullname w1 = None) as Hf1
          by (unfold w1; rewrite get_node_insert, decide_False; done).
        unfold create_node. cbn [truthy isinstance_str]. rewrite Hd. cbn [negb orb].
        rewrite Hf1.
        set (w2 := with_im _ w1).
        pose proof (set_filepath_cases H fullname (PyStr p) w2) as Hs.
        destruct (set_filepath H fullname (PyStr p) w2) as [[] w3|e w3]; [|done].
        destruct Hs as (p' & nd2 & [= <-] & Hp & _ & ->). intros [= <-].
        split; [|done]. unfold get_filepath. cbn. by rewrite lookup_insert_eq.
  - clear Hedge. revert Hinit.
    unfold custom_loader_init. rewrite Hcur. cbn [negb]. unfold bind.
    pose proof (create_edge_cases (PyStr fullname) w) as Hc.
    destruct (create_edge (PyStr fullname) w) as [[] w1|e1 w1].
    + destruct (get_node fullname w1); [done|].
      unfold create_node.
      destruct (negb (truthy (PyStr fullname)) || negb (isinstance_str (PyStr fullname)));
        [intros [= <- _]; eauto|].
      destruct (get_node fullname w1); [intros [= <- _]; eauto|].
      match goal with
      | |- context [set_filepath H fullname (PyStr p) ?w2] =>
          pose proof (set_filepath_cases H fullname (PyStr p) w2) as Hs;
          destruct (set_filepath H fullname (PyStr p) w2) as [[] w3|e3 w3]; [done|]
      end.
      destruct Hs as (Hmsg & _). by intros [= <- _].
    + destruct Hc as (Hmsg & _). by intros [= <- _].
Qed.

(** X16.  For an import whose root is not built in and whose first
    candidate is already a key of [sys.modules], [handle_import] tries
    that candidate only and does not ask the host to import anything: it
    records the edge to the candidate and ends the loop, also when the
    entry is [None], in which case the result is nothing. *)
Theorem known_module_ends_loop H w name level mod_name package entry :
  hd EmptyString (Py.split Py.dot name) ∉ builtin_module_names (sys w) →
  _handle_import_level name level w = Returns (mod_name, package) w →
  modules (sys w) !! mod_name = Some entry →
  str_truthy mod_name = true →
  is_Some (get_node (_get_module_path w) w) →
  ∃ r w',
    handle_import_traced H name level w = Returns (r, [((mod_name, package), true)]) w' ∧
    create_edge (PyStr mod_name) w = Returns tt w' ∧
    mod_name ∈ get_imports (_get_module_path w) w' ∧
    sys w' = sys w ∧
    (entry = None → r = None).
Proof.
  intros Hroot Hlvl Hmod Htruthy [nd Hnode].
  unfold handle_import_traced. rewrite bool_decide_eq_false_2 by done. rewrite Hlvl.
  cbn [combos try_combos]. unfold _do_import at 1. rewrite Hmod. unfold bind.
  pose proof (create_edge_cases (PyStr mod_name) w) as Hc.
  destruct (create_edge (PyStr mod_name) w) as [[] w1|e w1] eqn:He.
  - destruct Hc as (d & nd' & [= <-] & _ & Hg & Hw1).
    assert (mod_name ∈ get_imports (_get_module_path w) w1) as Hin.
    { rewrite Hw1, get_imports_insert, decide_True by done. cbn. set_solver. }
    assert (sys w1 = sys w) as Hsys by (by rewrite Hw1).
    cbn [ret]. destruct entry as [m|].
    + destruct (lacks_file m); [by eauto 10|].
      destruct (outside_mod_dir w1 m); [by eauto 10|].
      destruct (module_file m); eexists; eexists; (split; [done|]); done.
    + eauto 10.
  - destruct Hc as (_ & _ & [Ht|[Hs|Hn]]); cbn in *; congruence.
Qed.

Lemma known_module_ends_loop_witness :
  let w := with_sys (set_modules {[ "ext"%string := None ]}) example_world in
  ∃ r w',
    handle_import_traced example_host "ext" 0 w
      = Returns (r, [(("ext"%string, ""%string), true)]) w' ∧
    create_edge (PyStr "ext") w = Returns tt w' ∧
    "ext"%string ∈ get_imports (_get_module_path w) w' ∧
    sys w' = sys w ∧
    (@None pymodule = None → r = None).
Proof.
  intros w.
  apply (known_module_ends_loop example_host w "ext" 0 "ext" "" None).
  - cbn. intros Hin. apply list_elem_of_In in Hin. cbn in Hin.
    destruct Hin as [Hin|[Hin|[]]]; discriminate Hin.
  - reflexivity.
  - reflexivity.
  - reflexivity.
  - cbn. eexists. reflexivity.
Defined.

End ImportsMore.

(** ** The driver *)

Module DriverMore.
Import Driver DriverFacts.

Section More.

Context {Others : Type}.
Variable C : collaborators Others.
Implicit Types g : generator Others.

(** *** The passes leave [state] alone *)

Lemma on_mgrs_state {A} (m : method (managers Others) A) g :
  state (final_state (on_mgrs m g)) = state g.
Proof. unfold on_mgrs. by destruct (m (mgrs g)). Qed.

Lemma bind_state {A B} (m : method (generator Others) A)
    (k : A → method (generator Others) B) g :
  state (final_state (m g)) = state g →
  (∀ a g1, state (final_state (k a g1)) = state g1) →
  state (final_state (bind m k g)) = state g.
Proof.
  intros Hm Hk. unfold bind. destruct (m g) as [a g1|e g1]; cbn in *; [|done].
  by rewrite Hk.
Qed.

Lemma analyse_entry_state cls hooks pkg file md ma g :
  state (final_state (analyse_entry C cls hooks pkg file md ma g).2) = state g.
Proof.
  assert (∀ g1, state (final_state
            match on_mgrs (run_pass C cls file md ma) g1 with
            | Raises e g2 => Raises e g2
            | Returns (shared, analyzed) g2 => Returns (shared ∪ analyzed) g2
            end) = state g1) as Hrun.
  { intros g1. pose proof (on_mgrs_state (run_pass C cls file md ma) g1) as Hc.
    destruct (on_mgrs _ g1) as [[sh an] g2|e g2]; done. }
  unfold analyse_entry. destruct hooks; [|apply Hrun].
  pose proof (bind_state (on_imports (Imports.set_pkg pkg))
                (λ _, on_imports (Imports.install_hooks (os C))) g
                (on_mgrs_state _ g) (λ _ g1, on_mgrs_state _ g1)) as Hi.
  destruct (bind _ _ g) as [[] g1|e g1]; cbn in Hi; [|exact Hi].
  specialize (Hrun g1).
  destruct (on_mgrs (run_pass C cls file md ma) g1) as [[sh an] g2|e g2];
    cbn in Hrun; cbn -[bind remove_import_hooks].
  - rewrite <- Hi, <- Hrun.
    apply bind_state; [apply on_mgrs_state|]. done.
  - by rewrite Hrun.
Qed.

Lemma do_pass_from_state cls hooks eps ma g :
  state (final_state (do_pass_from C cls hooks eps ma g).2) = state g.
Proof.
  revert ma g. induction eps as [|ep rest IH]; intros ma g; cbn.
  - done.
  - destruct (negb (str_truthy _)); [apply IH|].
    case_decide; [apply IH|].
    pose proof (analyse_entry_state cls hooks
      (if negb (str_truthy (package g))
       then Imports.dirname (os C) (Imports.abspath (os C) ep) else package g)
      (Imports.abspath (os C) ep) (_get_mod_name C ep (package g)) ma g) as Ha.
    destruct (analyse_entry _ _ _ _ _ _ _ _) as [evs [ma' g'|e g']]; cbn in *; [|done].
    specialize (IH ma' g').
    destruct (do_pass_from C cls hooks rest ma' g') as [evs' r]. cbn in *.
    by rewrite IH.
Qed.

Lemma do_pass_state cls hooks g :
  state (final_state (do_pass C cls hooks g)) = state g.
Proof. apply do_pass_from_state. Qed.

Lemma stage1_state g : state (final_state (stage1 C g)) = state g.
Proof.
  unfold stage1. apply bind_state; [apply do_pass_state|]. intros _ g1.
  apply on_mgrs_state.
Qed.

(** After a turn of the loop, [state] is the snapshot taken at its start. *)
Lemma loop_body_state g g' :
  loop_body C g = Returns tt g' → state g' = Some (extract_state g).
Proof.
  unfold loop_body. unfold bind at 1. intros Hb.
  set (g0 := set_state (Some (extract_state g)) g) in *.
  assert (state (final_state
            ((reset_counters C ;;; do_pass C PostProcessor false ;;;
              on_mgrs (complete_definitions C)) g0)) = state g0) as Hs.
  { apply bind_state; [apply on_mgrs_state|]. intros _ g1.
    apply bind_state; [apply do_pass_state|]. intros _ g2. apply on_mgrs_state. }
  rewrite Hb in Hs. done.
Qed.

(** X17.  A generator that has no snapshot yet never counts as converged,
    so with a cap other than zero the loop of [analyze] makes at least
    one turn: after Stage 1 on such a generator, a normal exit of the
    loop reports one turn or more and leaves a snapshot behind. *)
Theorem first_turn_always_runs fuel g g1 n g2 :
  state g = None → max_iter g ≠ 0 →
  stage1 C g = Returns tt g1 →
  fixed_point C fuel 0 g1 = Some (Returns n g2) →
  has_converged g1 = false ∧ 1 ≤ n ∧ is_Some (state g2).
Proof.
  intros Hst Hmax H1 Hfp.
  pose proof (stage1_state g) as Hs1. pose proof (stage1_config C g) as (_ & _ & Hm1 & _).
  rewrite H1 in Hs1, Hm1. cbn in Hs1, Hm1.
  assert (has_converged g1 = false) as Hconv
    by (unfold has_converged; by rewrite Hs1, Hst).
  split; [done|].
  assert (loop_guard 0 g1 = true) as Hguard.
  { unfold loop_guard. rewrite Hconv, Hm1. cbn. rewrite andb_true_r.
    apply orb_true_iff. destruct (Z.lt_trichotomy (max_iter g) 0) as [?|[?|?]];
      [left; by apply Z.ltb_lt|done|right; by apply Z.ltb_lt]. }
  destruct fuel as [|fuel]; cbn [fixed_point] in Hfp; rewrite Hguard in Hfp; [done|].
  destruct (loop_body C g1) as [[] g'|e g'] eqn:Hb; [|done].
  destruct (fixed_point_turns C _ _ _ _ _ Hfp) as (k & -> & Hit & _).
  split; [lia|].
  assert (is_Some (state g')) as Hst' by (rewrite (loop_body_state _ _ Hb); eauto).
  clear -Hit Hst'. revert g' Hit Hst'. induction k as [|k IH]; intros g' Hit Hst'.
  - by injection Hit as <-.
  - cbn [iterate_body] in Hit. unfold bind at 1 in Hit.
    destruct (loop_body C g') as [[] g''|e g''] eqn:Hb; [|done].
    eapply IH; [done|]. rewrite (loop_body_state _ _ Hb). eauto.
Qed.

(** X18.  A turn of the loop that changes no tracked fact is the last
    one: if the guard holds and the body returns with the same snapshot
    as before it, [has_converged] is true afterwards and the loop ends
    there, having counted that turn. *)
Theorem unchanged_turn_ends_loop fuel i g g' :
  loop_guard i g = true →
  loop_body C g = Returns tt g' →
  extract_state g' = extract_state g →
  has_converged g' = true ∧
  fixed_point C (S fuel) i g = Some (Returns (i + 1) g').
Proof.
  intros Hguard Hb Hsame.
  assert (has_converged g' = true) as Hconv.
  { unfold has_converged. rewrite (loop_body_state _ _ Hb), Hsame.
    apply snapshots_agree_refl. }
  split; [done|]. cbn [fixed_point]. rewrite Hguard, Hb.
  destruct fuel; cbn [fixed_point]; unfold loop_guard; rewrite Hconv;
    by rewrite andb_false_r.
Qed.

(** *** What [do_pass] runs *)

(** The events of one entry point. *)
Lemma analyse_entry_events cls hooks pkg file md ma g :
  (analyse_entry C cls hooks pkg file md ma g).1 = [EvPass cls file md] ∧ hooks = false ∨
  hooks = true ∧
  ((analyse_entry C cls hooks pkg file md ma g).1 = [EvInstall] ∧
   (∃ e g', (analyse_entry C cls hooks pkg file md ma g).2 = Raises e g') ∨
   (analyse_entry C cls hooks pkg file md ma g).1 = [EvInstall; EvPass cls file md] ∨
   (analyse_entry C cls hooks pkg file md ma g).1 = [EvInstall; EvPass cls file md; EvRemove]).
Proof.
  unfold analyse_entry. destruct hooks; [right; split; [done|]|by left].
  destruct (bind _ _ g) as [[] g1|e g1]; [|left; eauto].
  destruct (on_mgrs (run_pass C cls file md ma) g1) as [[sh an] g2|e g2]; auto.
Qed.




(** The modules of one entry point, and the shared set after it, under
    the contract of the passes. *)
Lemma analyse_entry_modules cls hooks pkg file md ma g :
  reports_modules C →
  (analysed_modules (analyse_entry C cls hooks pkg file md ma g).1 = [] ∨
   analysed_modules (analyse_entry C cls hooks pkg file md ma g).1 = [md]) ∧
  ∀ ma' g', (analyse_entry C cls hooks pkg file md ma g).2 = Returns ma' g' →
            md ∈ ma' ∧ ma ⊆ ma'.
Proof.
  intros Hrep.
  assert (∀ g1 ma' g',
            match on_mgrs (run_pass C cls file md ma) g1 with
            | Raises e g2 => Raises e g2
            | Returns (shared, analyzed) g2 => Returns (shared ∪ analyzed) g2
            end = Returns ma' g' → md ∈ ma' ∧ ma ⊆ ma') as Hrun.
  { intros g1 ma' g'. unfold on_mgrs.
    destruct (run_pass C cls file md ma (mgrs g1)) as [[sh an] ms|e ms] eqn:Hp; [|done].
    intros [= <- _]. by eapply Hrep. }
  split.
  - destruct (analyse_entry_events cls hooks pkg file md ma g)
      as [[-> _]|[_ [[-> _]|[->| ->]]]]; cbn; auto.
  - unfold analyse_entry. destruct hooks; [|apply Hrun].
    destruct (bind _ _ g) as [[] g1|e g1]; [|done].
    specialize (Hrun g1).
    destruct (on_mgrs (run_pass C cls file md ma) g1) as [[sh an] g2|e g2]; [|done].
    cbn [snd]. intros ma' g'. unfold bind. 
    destruct (remove_import_hooks g2) as [[] g3|e g3]; [|done].
    intros [= <- _]. by eapply Hrun.
Qed.

Lemma do_pass_from_dedup cls hooks eps ma g :
  reports_modules C →
  NoDup (analysed_modules (do_pass_from C cls hooks eps ma g).1) ∧
  ∀ m, m ∈ analysed_modules (do_pass_from C cls hooks eps ma g).1 → m ∉ ma.
Proof.
  intros Hrep. revert ma g.
  induction eps as [|ep rest IH]; intros ma g; cbn [do_pass_from].
  - split; [constructor|]. intros m Hm. by apply not_elem_of_nil in Hm.
  - destruct (negb (str_truthy _)); [apply IH|].
    case_decide as Hfresh; [apply IH|].
    set (pkg := if negb (str_truthy (package g))
                then Imports.dirname (os C) (Imports.abspath (os C) ep) else package g).
    set (file := Imports.abspath (os C) ep).
    set (md := _get_mod_name C ep (package g)) in *.
    destruct (analyse_entry_modules cls hooks pkg file md ma g Hrep) as [Hm Hma].
    destruct (analyse_entry C cls hooks pkg file md ma g) as [evs [ma' g'|e g']];
      cbn [fst snd] in *.
    + destruct (Hma ma' g' eq_refl) as [Hin Hsub].
      destruct (IH ma' g') as [Hnd Hnot].
      destruct (do_pass_from C cls hooks rest ma' g') as [evs' r]. cbn [fst] in *.
      unfold analysed_modules in *. rewrite omap_app.
      destruct Hm as [-> | ->]; cbn [app].
      * split; [done|]. intros m Hm. specialize (Hnot m Hm). set_solver.
      * split.
        -- constructor; [|done]. intros Hmd. specialize (Hnot md Hmd). done.
        -- intros m [->|Hm]%elem_of_cons; [done|]. specialize (Hnot m Hm). set_solver.
    + destruct Hm as [-> | ->].
      * split; [constructor|]. intros m Hm. by apply not_elem_of_nil in Hm.
      * split; [apply NoDup_singleton|]. intros m Hm.
        apply list_elem_of_singleton in Hm as ->. done.
Qed.

(** X20.  When every pass reports the module it was run on and keeps
    what the shared set held, one [do_pass] runs at most one pass per
    module, whatever the entry points are. *)
Theorem do_pass_once_per_module cls hooks g :
  reports_modules C →
  NoDup (analysed_modules (do_pass_traced C cls hooks g).1).
Proof. intros Hrep. by apply do_pass_from_dedup. Qed.

(** X21.  [_get_mod_name] returns the module name derived from the path
    unchanged unless it ends in ["__init__"]; then it drops the last
    dotted component, whatever stands before ["__init__"] in that
    component, and gives the empty name when there is no other
    component. *)
Theorem get_mod_name_drops_init entry pkg :
  let raw := Imports.to_mod_name (os C) (Imports.relpath (os C) entry (Some pkg)) in
  (Py.endswith "__init__" raw = false → _get_mod_name C entry pkg = raw) ∧
  (∀ p q, raw = String.append p (String.append "." q) →
          Py.split Py.dot q = [q] → Py.endswith "__init__" q = true →
          _get_mod_name C entry pkg = p) ∧
  (Py.split Py.dot raw = [raw] → Py.endswith "__init__" raw = true →
   _get_mod_name C entry pkg = ""%string).
Proof.
  intros raw. unfold _get_mod_name. fold raw. split; [|split].
  - by intros ->.
  - intros p q Hraw Hq Hend. rewrite Hraw.
    rewrite (PyFacts.endswith_app "__init__" p (String.append "." q))
      by (by apply (PyFacts.endswith_app "__init__" "." q)).
    rewrite PyFacts.split_app_dot, Hq. unfold Py.slice_to_neg.
    rewrite length_app. cbn [length].
    replace (length (Py.split Py.dot p) + 1 - 1)%nat with (length (Py.split Py.dot p)) by lia.
    rewrite take_app_length. apply PyFacts.join_split.
  - intros Hsplit ->. by rewrite Hsplit.
Qed.

Lemma iterate_body_config k g g' :
  iterate_body C k g = Returns tt g' → same_config g g'.
Proof.
  revert g. induction k as [|k IH]; intros g; cbn [iterate_body].
  - intros [= <-]. apply same_config_refl.
  - unfold bind at 1. pose proof (loop_body_config C g) as Hc.
    destruct (loop_body C g) as [[] g1|e g1]; [|done]. cbn in Hc.
    intros Hit. eapply same_config_trans; [done|by apply IH].
Qed.

(** X22.  An operation that is neither ["call-graph"] nor ["key-error"]
    is found out last: [analyze] first runs Stage 1 and the whole loop,
    then resets the counters, and only then raises
    [Exception("Invalid operation: ...")], without running a pass of
    Stage 3. *)
Theorem invalid_operation_raises_last fuel g g1 n g2 :
  operation g ≠ CALL_GRAPH_OP → operation g ≠ KEY_ERR_OP →
  stage1 C g = Returns tt g1 →
  fixed_point C fuel 0 g1 = Some (Returns n g2) →
  analyze C fuel g =
    Some (Raises (Exception (String.append "Invalid operation: " (operation g)))
            (final_state (reset_counters C g2))).
Proof.
  intros Hcg Hke H1 Hfp. unfold analyze. rewrite H1, Hfp.
  pose proof (stage1_config C g) as (_ & _ & _ & Hop1). rewrite H1 in Hop1. cbn in Hop1.
  destruct (fixed_point_turns C _ _ _ _ _ Hfp) as (k & _ & Hit & _).
  apply iterate_body_config in Hit as (_ & _ & _ & Hop2).
  unfold stage3, bind. 
  pose proof (on_mgrs_config (A:=unit) (λ ms, Returns tt
      {| import_manager := import_manager ms;
         scope_manager := scope_reset_counters C <$> scope_manager ms;
         def_manager := def_manager ms; class_manager := class_manager ms;
         cg := cg ms; others := others ms |}) g2) as (_ & _ & _ & Hop3).
  unfold reset_counters in *. 
  destruct (on_mgrs _ g2) as [[] g3|e g3] eqn:Hr; [|done]. cbn in Hop3 |- *.
  rewrite Hop3, Hop2, Hop1.
  apply String.eqb_neq in Hcg, Hke. by rewrite Hcg, Hke.
Qed.

(** X23.  [reset_counters] changes only the scopes and keeps their keys;
    when resetting the counters of a scope keeps its definitions, the
    snapshot, and with it the answer of [has_converged], is the same
    before and after. *)
Theorem reset_counters_keeps_snapshot g :
  reset_keeps_defs C →
  ∃ g', reset_counters C g = Returns tt g' ∧
        extract_state g' = extract_state g ∧
        has_converged g' = has_converged g ∧
        dom (scope_manager (mgrs g')) = dom (scope_manager (mgrs g)) ∧
        def_manager (mgrs g') = def_manager (mgrs g) ∧
        class_manager (mgrs g') = class_manager (mgrs g) ∧
        cg (mgrs g') = cg (mgrs g) ∧
        import_manager (mgrs g') = import_manager (mgrs g).
Proof.
  intros Hkeep. eexists. split; [reflexivity|].
  assert (extract_state (with_mgrs (λ _,
            {| import_manager := import_manager (mgrs g);
               scope_manager := scope_reset_counters C <$> scope_manager (mgrs g);
               def_manager := def_manager (mgrs g);
               class_manager := class_manager (mgrs g);
               cg := cg (mgrs g); others := others (mgrs g) |}) g) = extract_state g) as Hsame.
  { unfold extract_state. cbn. f_equal. rewrite <- map_fmap_compose.
    apply map_fmap_ext. intros k sc _. cbn. by rewrite Hkeep. }
  split; [exact Hsame|]. split.
  - unfold has_converged. cbn [state with_mgrs]. by rewrite Hsame.
  - cbn. by rewrite dom_fmap_L.
Qed.

End More.

Lemma first_turn_always_runs_witness :
  has_converged (final_state (stage1 example_calm example_capped)) = false ∧
  1 ≤ 1 ∧
  is_Some (state (final_state (loop_body example_calm
                                 (final_state (stage1 example_calm example_capped))))).
Proof.
  apply (first_turn_always_runs example_calm 3 example_capped
           (final_state (stage1 example_calm example_capped)) 1
           (final_state (loop_body example_calm
                           (final_state (stage1 example_calm example_capped))))).
  - reflexivity.
  - discriminate.
  - reflexivity.
  - vm_compute. reflexivity.
Defined.

Lemma unchanged_turn_ends_loop_witness :
  has_converged (final_state (loop_body example_calm example_capped)) = true ∧
  fixed_point example_calm 1 0 example_capped
    = Some (Returns (0 + 1) (final_state (loop_body example_calm example_capped))).
Proof.
  apply (unchanged_turn_ends_loop example_calm 0 0 example_capped).
  - reflexivity.
  - vm_compute. reflexivity.
  - vm_compute. reflexivity.
Defined.

Lemma example_calm_reports : reports_modules example_calm.
Proof. intros cls f m ma ms sh an ms' [= <- <- _]. set_solver. Qed.

Lemma do_pass_once_per_module_witness :
  NoDup (analysed_modules (do_pass_traced example_calm PreProcessor true example_twice).1).
Proof.
  apply (do_pass_once_per_module example_calm PreProcessor true example_twice).
  exact example_calm_reports.
Defined.

Lemma get_mod_name_drops_init_witness :
  let raw := Imports.to_mod_name (os example_init)
               (Imports.relpath (os example_init) "/app/pkg/sub/__init__.py" (Some "/app"%string)) in
  (Py.endswith "__init__" raw = false →
   _get_mod_name example_init "/app/pkg/sub/__init__.py" "/app" = raw) ∧
  (∀ p q, raw = String.append p (String.append "." q) →
          Py.split Py.dot q = [q] → Py.endswith "__init__" q = true →
          _get_mod_name example_init "/app/pkg/sub/__init__.py" "/app" = p) ∧
  (Py.split Py.dot raw = [raw] → Py.endswith "__init__" raw = true →
   _get_mod_name example_init "/app/pkg/sub/__init__.py" "/app" = ""%string).
Proof.
  apply (get_mod_name_drops_init example_init "/app/pkg/sub/__init__.py" "/app").
Defined.

Example get_mod_name_of_initializer :
  _get_mod_name example_init "/app/pkg/sub/__init__.py" "/app" = "pkg.sub"%string.
Proof. reflexivity. Qed.

Lemma invalid_operation_raises_last_witness :
  analyze example_calm 3 example_twice =
    Some (Raises (Exception (String.append "Invalid operation: " (operation example_twice)))
            (final_state (reset_counters example_calm
               (final_state (loop_body example_calm
                  (final_state (stage1 example_calm example_twice))))))).
Proof.
  apply (invalid_operation_raises_last example_calm 3 example_twice
           (final_state (stage1 example_calm example_twice)) 1
           (final_state (loop_body example_calm
              (final_state (stage1 example_calm example_twice))))).
  - discriminate.
  - discriminate.
  - reflexivity.
  - vm_compute. reflexivity.
Defined.

Lemma reset_counters_keeps_snapshot_witness :
  ∃ g', reset_counters example_calm example_shrunk = Returns tt g' ∧
        extract_state g' = extract_state example_shrunk ∧
        has_converged g' = has_converged example_shrunk ∧
        dom (scope_manager (mgrs g')) = dom (scope_manager (mgrs example_shrunk)) ∧
        def_manager (mgrs g') = def_manager (mgrs example_shrunk) ∧
        class_manager (mgrs g') = class_manager (mgrs example_shrunk) ∧
        cg (mgrs g') = cg (mgrs example_shrunk) ∧
        import_manager (mgrs g') = import_manager (mgrs example_shrunk).
Proof.
  apply (reset_counters_keeps_snapshot example_calm example_shrunk).
  intros sc. reflexivity.
Defined.

End DriverMore.
